(** * JV-LMS: assignment authoring, auto-grading and analytics

    A shallow embedding of the algorithmic core of the IELTS learning
    management application:

    - [handleSubmit] of [components/StudentPortal.tsx] (auto-grading),
    - [toggleMcqCorrectAnswer], [getPreviewAssignment],
      [handleSaveAssignment] and [handleGroupTypeChange] of the teacher
      portal,
    - [analyticsData] of the gradebook.

    JavaScript strings are modelled by [string]: every character is one
    code unit in the range 0..255 (the Latin-1 fragment of UTF-16).  Plain
    objects used as dictionaries ([Record<string, T>]) are modelled by
    [gmap string T]; keys are ordinary identifiers, so properties inherited
    from [Object.prototype] play no role. *)

From Stdlib Require Import ZArith Ascii Floats.SpecFloat.
From stdpp Require Import gmap strings list fin_maps sorting pretty.

(** ** JavaScript strings *)

Module Js.

(** [WhiteSpace] and [LineTerminator] code points below 256, the ones
    [String.prototype.trim] strips: TAB, LF, VT, FF, CR, SP, NBSP. *)
Definition isWhiteSpace (c : ascii) : bool :=
  bool_decide (N_of_ascii c ∈ [9; 10; 11; 12; 13; 32; 160]%N).

(** [LineTerminator] code points below 256: LF and CR.  The regular
    expression atom [.] matches every character but these. *)
Definition isLineTerminator (c : ascii) : bool :=
  bool_decide (N_of_ascii c ∈ [10; 13]%N).

Fixpoint trimStart (s : string) : string :=
  match s with
  | "" => ""
  | String c s' => if isWhiteSpace c then trimStart s' else s
  end.

Fixpoint trimEnd (s : string) : string :=
  match s with
  | "" => ""
  | String c s' =>
      match trimEnd s' with
      | "" => if isWhiteSpace c then "" else String c ""
      | t => String c t
      end
  end.

(** [s.trim()] *)
Definition trim (s : string) : string := trimEnd (trimStart s).

(** [c] lower-cased: A-Z, and the Latin-1 capitals U+00C0..U+00DE
    except the multiplication sign U+00D7, move up by 32. *)
Definition lowerChar (c : ascii) : ascii :=
  let n := N_of_ascii c in
  if bool_decide (65 ≤ n ≤ 90 ∨ (192 ≤ n ≤ 222 ∧ n ≠ 215))%N
  then ascii_of_N (n + 32) else c.

(** [s.toLowerCase()] *)
Fixpoint toLowerCase (s : string) : string :=
  match s with
  | "" => ""
  | String c s' => String (lowerChar c) (toLowerCase s')
  end.

(** [s.split(sep)] for a one-character separator.  The result is never
    empty: [("").split(",")] is [[""]]. *)
Fixpoint split (sep : ascii) (s : string) : list string :=
  match s with
  | "" => [""]
  | String c s' =>
      if Ascii.eqb c sep then "" :: split sep s'
      else match split sep s' with
           | [] => [String c ""]
           | w :: ws => String c w :: ws
           end
  end.

(** [l.join(sep)] *)
Fixpoint join (sep : string) (l : list string) : string :=
  match l with
  | [] => ""
  | [x] => x
  | x :: rest => x +:+ sep +:+ join sep rest
  end.

(** Every character of [s] satisfies [p]. *)
Fixpoint every (p : ascii → bool) (s : string) : bool :=
  match s with
  | "" => true
  | String c s' => p c && every p s'
  end.

(** [s] contains no comma. *)
Definition noComma (s : string) : Prop :=
  every (λ c, negb (Ascii.eqb c ",")) s = true.

(** [l.includes(x)] on an array of strings. *)
Definition includes (x : string) (l : list string) : bool :=
  existsb (String.eqb x) l.

(** [Array.prototype.sort(compareFn)]: the sort is stable (ES2019); an
    element moves in front of another one only when the comparator says
    it is strictly smaller.  [compareFn a b] is the sign of the number
    the JavaScript callback returns. *)
Section Sort.
Context {A : Type} (compareFn : A → A → comparison).

Fixpoint insert_sorted (x : A) (l : list A) : list A :=
  match l with
  | [] => [x]
  | y :: l' =>
      match compareFn x y with
      | Gt => y :: insert_sorted x l'
      | _ => x :: l
      end
  end.

Definition sortBy (l : list A) : list A := foldr insert_sorted [] l.

(** [x] may stand before [y]: the comparator does not order [y]
    strictly before [x]. *)
Definition cmp_le (x y : A) : Prop := compareFn x y ≠ Gt.
End Sort.

(** [l.sort()] on strings: the default comparator orders by UTF-16 code
    units, a proper prefix first. *)
Definition sort (l : list string) : list string := sortBy String.compare l.

(** A missing property read with [x || ""]: [undefined] and the empty
    string both give the empty string. *)
Definition orEmpty (x : option string) : string := default "" x.

(** Truthiness of an optional string: [undefined], [null] and [""] are
    falsy. *)
Definition truthy (x : option string) : bool :=
  match x with
  | Some s => negb (String.eqb s "")
  | None => false
  end.


(** [s.split(sep)] for a separator of one character or more: the text is
    cut at the occurrences of [sep] found from left to right, an occurrence
    starting behind the previous one.  [skip] counts the characters of an
    occurrence that are still ahead. *)
Fixpoint splitFrom (skip : nat) (sep s : string) : list string :=
  match s with
  | "" => [""]
  | String c s' =>
      match skip with
      | S k => splitFrom k sep s'
      | 0 =>
          if String.prefix sep s
          then "" :: splitFrom (String.length sep - 1) sep s'
          else match splitFrom 0 sep s' with
               | [] => [String c ""]
               | w :: ws => String c w :: ws
               end
      end
  end.

Definition splitOn (sep s : string) : list string := splitFrom 0 sep s.

(** [s.split(/\s+/)]: the text is cut at the maximal runs of white space;
    [inRun] tells that the previous character belongs to such a run.  The
    class [\s] holds the characters that [trim] strips. *)
Fixpoint splitSpacesFrom (inRun : bool) (s : string) : list string :=
  match s with
  | "" => [""]
  | String c s' =>
      if isWhiteSpace c then
        if inRun then splitSpacesFrom true s'
        else "" :: splitSpacesFrom true s'
      else match splitSpacesFrom false s' with
           | [] => [String c ""]
           | w :: ws => String c w :: ws
           end
  end.

Definition splitSpaces (s : string) : list string := splitSpacesFrom false s.

(** The classes [[A-Za-z]] and [\d] of a regular expression. *)
Definition isAsciiLetter (c : ascii) : bool :=
  let n := N_of_ascii c in
  bool_decide (65 ≤ n ≤ 90 ∨ 97 ≤ n ≤ 122)%N.

Definition isDigit (c : ascii) : bool :=
  let n := N_of_ascii c in bool_decide (48 ≤ n ≤ 57)%N.

(** The longest prefix of [s] whose characters satisfy [p], and the rest. *)
Fixpoint span (p : ascii → bool) (s : string) : string * string :=
  match s with
  | "" => ("", "")
  | String c s' =>
      if p c then let '(a, b) := span p s' in (String c a, b)
      else ("", s)
  end.

(** [l.indexOf(x)] on an array of strings, [-1] when [x] does not occur. *)
Fixpoint indexOf (x : string) (l : list string) : Z :=
  match l with
  | [] => -1
  | y :: l' =>
      if String.eqb y x then 0
      else let i := indexOf x l' in if (i <? 0)%Z then -1 else (1 + i)%Z
  end.

(** [l.splice(i, 1)] and [l.splice(i, 0, x)] for an index [i] that is not
    negative: the array afterwards.  Beyond the end the first removes
    nothing and the second appends. *)
Definition spliceOut {A} (i : nat) (l : list A) : list A := delete i l.

Definition spliceIn {A} (i : nat) (x : A) (l : list A) : list A :=
  take i l ++ x :: drop i l.

End Js.

(** ** Data model ([types.ts]) *)

Inductive AssignmentType := READING | LISTENING | WRITING | SPEAKING.

Global Instance AssignmentType_eq_dec : EqDecision AssignmentType.
Proof. solve_decision. Defined.

(** [Question.type] and [QuestionGroup.type] are unions of string literals;
    at run time they are strings and are compared with [===]. *)
Module Question.
Record t := mk {
  id : string;
  text : string;
  type : string;
  options : option (list string);
  correctAnswer : option string;
  maxSelection : option Z;
}.
End Question.

Module QuestionGroup.
Record t := mk {
  id : string;
  type : string;
  title : option string;
  instruction : string;
  content : option string;
  headingList : option (list string);
  matchOptions : option (list string);
  questions : list Question.t;
}.
End QuestionGroup.

Module Assignment.
Record t := mk {
  id : string;
  classId : string;
  groupId : option string;
  title : string;
  type : AssignmentType;
  description : string;
  dueDate : string;
  timeLimit : option Z;
  passageContent : option string;
  questionGroups : option (list QuestionGroup.t);
  videoUrl : option string;
  writingTaskType : option string;
  writingPrompt : option string;
  writingImage : option string;
  questions : option (list Question.t);
}.
End Assignment.

Module QuestionResult.
Record t := mk {
  questionId : string;
  isCorrect : bool;
  studentAnswer : string;
  correctAnswer : string;
}.
End QuestionResult.

Abbreviation SubmissionReport := (gmap string QuestionResult.t).

Inductive SubmissionStatus := SUBMITTED | GRADED.

Global Instance SubmissionStatus_eq_dec : EqDecision SubmissionStatus.
Proof. solve_decision. Defined.

Record SubmissionMetadata := {
  tabSwitches : Z;
  pasteAttempts : Z;
}.

Module Submission.
Record t := mk {
  id : string;
  assignmentId : string;
  studentId : string;
  studentName : string;
  answers : gmap string string;
  status : SubmissionStatus;
  grade : option string;
  feedback : option string;
  transcription : option string;
  report : option SubmissionReport;
  metadata : option SubmissionMetadata;
}.
End Submission.

Module User.
Record t := mk {
  id : string;
  name : string;
  enrolledClassIds : option (list string);
}.
End User.

(** ** Auto-grading ([handleSubmit], StudentPortal.tsx) *)

Module StudentPortal.

(** [q.type === 'MCQ' && (q.maxSelection || 1) > 1] *)
Definition isMultiSelect (q : Question.t) : bool :=
  String.eqb (Question.type q) "MCQ" &&
  (1 <? match Question.maxSelection q with
        | Some n => if (n =? 0)%Z then 1 else n
        | None => 1
        end)%Z.

(** [x.split(',').map(s => s.trim()).sort().join(',')] *)
Definition sortedAnswer (x : string) : string :=
  Js.join "," (Js.sort (Js.trim <$> Js.split "," x)).

(** The body of the [forEach] callback up to the assignment of
    [isCorrect], for the trimmed answers. *)
Definition compareAnswers (q : Question.t) (studentAns correctAns : string) : bool :=
  if isMultiSelect q then
    String.eqb (sortedAnswer studentAns) (sortedAnswer correctAns)
  else if String.eqb (Question.type q) "FILL_IN_BLANKS"
          || String.eqb (Question.type q) "NOTES_COMPLETION" then
    String.eqb (Js.toLowerCase studentAns) (Js.toLowerCase correctAns)
  else
    String.eqb studentAns correctAns.

Definition studentAnsOf (answers : gmap string string) (q : Question.t) : string :=
  Js.trim (Js.orEmpty (answers !! Question.id q)).

Definition correctAnsOf (q : Question.t) : string :=
  Js.trim (Js.orEmpty (Question.correctAnswer q)).

Definition gradeQuestion (answers : gmap string string) (q : Question.t)
  : QuestionResult.t :=
  let studentAns := studentAnsOf answers q in
  let correctAns := correctAnsOf q in
  QuestionResult.mk (Question.id q)
    (compareAnswers q studentAns correctAns) studentAns correctAns.

(** The mutable variables of the grading loop. *)
Record GradingState := {
  report : SubmissionReport;
  correctCount : nat;
}.

(** One iteration of [allQuestions.forEach(q => ...)]. *)
Definition gradeStep (answers : gmap string string)
    (st : GradingState) (q : Question.t) : GradingState :=
  let r := gradeQuestion answers q in
  {| report := <[Question.id q := r]> (report st);
     correctCount :=
       if QuestionResult.isCorrect r then S (correctCount st)
       else correctCount st |}.

Definition gradeAll (answers : gmap string string) (qs : list Question.t)
  : GradingState :=
  foldl (gradeStep answers) {| report := ∅; correctCount := 0 |} qs.

(** [selectedAssignment.questionGroups
      ? selectedAssignment.questionGroups.flatMap(g => g.questions)
      : selectedAssignment.questions || []] *)
Definition allQuestions (a : Assignment.t) : list Question.t :=
  match Assignment.questionGroups a with
  | Some gs => gs ≫= QuestionGroup.questions
  | None => default [] (Assignment.questions a)
  end.

(** The grade string [`${correctCount}/${totalQuestions}`]. *)
Definition gradeString (correct total : nat) : string :=
  pretty correct +:+ "/" +:+ pretty total.

(** The state of the portal that [handleSubmit] reads and resets.
    [transcriptions] lists the values of the [transcriptions] object in
    property order. *)
Record State := {
  selectedAssignment : option Assignment.t;
  answers : gmap string string;
  transcriptions : list string;
  showReportModal : bool;
  reportSubmission : option Submission.t;
  timer : Z;
  timerMode : option string;
  showNotes : bool;
}.

(** [status], [grade] and [report] as computed before the submission
    object is built. *)
Definition autoGrade (a : Assignment.t) (answers : gmap string string)
  : SubmissionStatus * option string * option SubmissionReport :=
  if bool_decide (Assignment.type a = READING ∨ Assignment.type a = LISTENING)
  then
    let qs := allQuestions a in
    let totalQuestions := length qs in
    let st := gradeAll answers qs in
    (GRADED, Some (gradeString (correctCount st) totalQuestions),
     Some (report st))
  else (SUBMITTED, None, None).

Definition buildSubmission (submissionId : string) (user : User.t)
    (a : Assignment.t) (answers : gmap string string)
    (transcriptions : list string) (metadata : option SubmissionMetadata)
  : Submission.t :=
  let '(status, grade, report) := autoGrade a answers in
  let transcriptionText :=
    Js.join (String "010" (String "010" ("---" +:+ String "010" (String "010" ""))))
      transcriptions in
  Submission.mk submissionId (Assignment.id a) (User.id user) (User.name user)
    answers status grade None
    (if Js.truthy (Some transcriptionText) then Some transcriptionText else None)
    report metadata.

(** [handleSubmit(metadata)]: the submissions handed to [onSubmit] (at
    most one) and the state afterwards.  [submissionId] is the random
    identifier drawn at the start. *)
Definition handleSubmit (submissionId : string) (user : User.t)
    (metadata : option SubmissionMetadata) (s : State)
  : list Submission.t * State :=
  match selectedAssignment s with
  | None => ([], s)
  | Some a =>
      let submission :=
        buildSubmission submissionId user a (answers s) (transcriptions s) metadata in
      let graded := bool_decide (Submission.status submission = GRADED) in
      ([submission],
       {| selectedAssignment := None;
          answers := ∅;
          transcriptions := [];
          showReportModal := if graded then true else showReportModal s;
          reportSubmission :=
            if graded then Some submission else reportSubmission s;
          timer := 0;
          timerMode := None;
          showNotes := false |})
  end.

End StudentPortal.

(** ** Assignment authoring (teacher portal) *)

Module ClassGroup.
Record t := mk {
  id : string;
  name : string;
  schedule : string;
  description : option string;
}.
End ClassGroup.

(** [Partial<Assignment>], the draft held in [newAssignment]. *)
Module PartialAssignment.
Record t := mk {
  id : option string;
  classId : option string;
  groupId : option string;
  title : option string;
  type : option AssignmentType;
  description : option string;
  dueDate : option string;
  timeLimit : option Z;
  passageContent : option string;
  questionGroups : option (list QuestionGroup.t);
  videoUrl : option string;
  writingTaskType : option string;
  writingPrompt : option string;
  writingImage : option string;
  questions : option (list Question.t);
}.

(** [{ type: AssignmentType.READING }] *)
Definition reset : t :=
  mk None None None None (Some READING) None None None None None None None
     None None None.
End PartialAssignment.

(** The object literal [assignmentData] handed to persistence. *)
Module AssignmentData.
Record t := mk {
  id : string;
  classId : string;
  groupId : option string;
  title : string;
  type : option AssignmentType;
  description : string;
  dueDate : string;
  timeLimit : option Z;
  passageContent : option string;
  questionGroups : list QuestionGroup.t;
  videoUrl : option string;
  writingTaskType : option string;
  writingPrompt : option string;
  writingImage : option string;
}.
End AssignmentData.

Module TeacherPortal.

Definition QUESTION_TYPE_INSTRUCTIONS : gmap string string :=
  list_to_map [
    ("MCQ", "Choose the correct letter, A, B, C or D.");
    ("FILL_IN_BLANKS", "Complete the sentences below. Write NO MORE THAN TWO WORDS for each answer.");
    ("NOTES_COMPLETION", "Complete the notes below. Write ONE WORD AND/OR A NUMBER from the passage for each answer.");
    ("TRUE_FALSE_NG", "Do the following statements agree with the information given in the Reading Passage? Write TRUE, FALSE or NOT GIVEN.");
    ("YES_NO_NG", "Do the following statements agree with the views of the writer in the Reading Passage? Write YES, NO or NOT GIVEN.");
    ("MATCHING_HEADINGS", "Choose the correct heading for each paragraph from the list of headings below.");
    ("MATCHING_FEATURES", "Look at the following items and the list of options below. Match each item with the correct option.");
    ("MATCHING_INFORMATION", "Which paragraph contains the following information? NB You may use any letter more than once.");
    ("MATCHING_SENTENCE_ENDINGS", "Complete each sentence with the correct ending, A-G, below.")
  ].

(** [String.fromCharCode(65 + num)], for the code units of the model. *)
Definition toLetter (num : nat) : string :=
  String (ascii_of_nat (65 + num)) "".

(** *** The multi-select answer toggle *)

(** [tempCorrectAnswer ? tempCorrectAnswer.split(',') : []], the array
    [current] of [toggleMcqCorrectAnswer]. *)
Definition currentSelection (tempCorrectAnswer : option string)
  : list string :=
  if Js.truthy tempCorrectAnswer
  then Js.split "," (Js.orEmpty tempCorrectAnswer) else [].

(** [toggleMcqCorrectAnswer(letter)]: the next value of
    [tempCorrectAnswer] ([None] is [null]). *)
Definition toggleMcqCorrectAnswer (letter : string)
    (tempCorrectAnswer : option string) : option string :=
  let current := currentSelection tempCorrectAnswer in
  if Js.includes letter current then
    let next := filter (λ l, l ≠ letter) current in
    if bool_decide (length next ≠ 0)
    then Some (Js.join "," (Js.sort next)) else None
  else
    let next := Js.sort (current ++ [letter]) in
    Some (Js.join "," next).

(** *** The notes-completion compiler *)

(** The lazy group [(.*?)] followed by the closing bracket: the text up
    to the first closing bracket, provided no line terminator comes
    before it; also returns what follows the bracket. *)
Fixpoint closeBracket (s : string) : option (string * string) :=
  match s with
  | "" => None
  | String c s' =>
      if Ascii.eqb c "]" then Some ("", s')
      else if Js.isLineTerminator c then None
      else match closeBracket s' with
           | Some (inner, rest) => Some (String c inner, rest)
           | None => None
           end
  end.

(** The successive matches of the global pattern: [skip] counts the
    characters consumed by the previous match that are still ahead
    ([lastIndex] lies behind them).  At an opening bracket the pattern
    is tried; on failure the search resumes at the next character. *)
Fixpoint matchesFrom (skip : nat) (s : string) : list (string * string) :=
  match s with
  | "" => []
  | String c s' =>
      match skip with
      | S k => matchesFrom k s'
      | 0 =>
          if Ascii.eqb c "[" then
            match closeBracket s' with
            | Some (inner, _) =>
                ("[" +:+ inner +:+ "]", inner)
                  :: matchesFrom (S (String.length inner)) s'
            | None => matchesFrom 0 s'
            end
          else matchesFrom 0 s'
      end
  end.

(** [[...content.matchAll(/\[(.*?)\]/g)]], each match as the pair
    [(m[0], m[1])]. *)
Definition matchAll (content : string) : list (string * string) :=
  matchesFrom 0 content.

(** [matches.map((m, i) => ({ id, text: m[0], type: 'NOTES_COMPLETION',
    correctAnswer: m[1] }))]; [mkId i] is the identifier given to the
    [i]-th question. *)
Definition generatedQuestions (mkId : nat → string) (content : string)
  : list Question.t :=
  imap (λ i m, Question.mk (mkId i) m.1 "NOTES_COMPLETION" None (Some m.2) None)
       (matchAll content).

(** The callback of [tempQuestionGroups.map] shared by saving and
    previewing. *)
Definition processGroup (mkId : nat → string) (group : QuestionGroup.t)
  : QuestionGroup.t :=
  if String.eqb (QuestionGroup.type group) "NOTES_COMPLETION"
     && Js.truthy (QuestionGroup.content group)
  then
    QuestionGroup.mk (QuestionGroup.id group) (QuestionGroup.type group)
      (QuestionGroup.title group) (QuestionGroup.instruction group)
      (QuestionGroup.content group) (QuestionGroup.headingList group)
      (QuestionGroup.matchOptions group)
      (generatedQuestions mkId (Js.orEmpty (QuestionGroup.content group)))
  else group.

(** [`q_prev_${i}`] *)
Definition previewId (i : nat) : string := "q_prev_" +:+ pretty i.

(** *** Component state and effects *)

Record State := {
  classes : list ClassGroup.t;
  selectedClassId : option string;
  viewingGroupId : option string;
  showAssignmentModal : bool;
  editingAssignmentId : option string;
  newAssignment : PartialAssignment.t;
  tempQuestionGroups : list QuestionGroup.t;
}.

Inductive Effect :=
| alert (message : string)
| onAddAssignment (assignment : AssignmentData.t)
| onUpdateAssignment (assignment : AssignmentData.t).

(** [a || b] on optional strings. *)
Definition orElse (a b : option string) : option string :=
  if Js.truthy a then a else b.

(** [getPreviewAssignment()] *)
Definition getPreviewAssignment (s : State) : PartialAssignment.t :=
  let processedQuestionGroups :=
    processGroup previewId <$> tempQuestionGroups s in
  let n := newAssignment s in
  PartialAssignment.mk (Some "preview_id") (PartialAssignment.classId n)
    (PartialAssignment.groupId n)
    (orElse (PartialAssignment.title n) (Some "Untitled Assignment"))
    (PartialAssignment.type n) (PartialAssignment.description n)
    (PartialAssignment.dueDate n) (PartialAssignment.timeLimit n)
    (PartialAssignment.passageContent n) (Some processedQuestionGroups)
    (PartialAssignment.videoUrl n) (PartialAssignment.writingTaskType n)
    (PartialAssignment.writingPrompt n) (PartialAssignment.writingImage n)
    (PartialAssignment.questions n).

(** [handleSaveAssignment()]: the alerts and persistence calls made, in
    order, and the state afterwards.  [now] is [Date.now().toString()];
    [freshId g i] is the identifier drawn for the [i]-th question
    generated in the [g]-th group. *)
Definition handleSaveAssignment (now : string) (freshId : nat → nat → string)
    (s : State) : list Effect * State :=
  let n := newAssignment s in
  let classId := orElse (selectedClassId s) (PartialAssignment.classId n) in
  if negb (Js.truthy (PartialAssignment.title n))
     || negb (Js.truthy (PartialAssignment.dueDate n))
     || negb (Js.truthy classId)
  then ([alert "Please fill in Title, Due Date, and ensure Class is selected"], s)
  else if bool_decide (PartialAssignment.type n = Some WRITING)
          && negb (Js.truthy (PartialAssignment.writingPrompt n))
  then ([alert "Please enter an essay prompt"], s)
  else
    let processedQuestionGroups :=
      imap (λ g, processGroup (freshId g)) (tempQuestionGroups s) in
    let finalWritingTaskType :=
      if bool_decide (PartialAssignment.type n = Some WRITING)
         && negb (Js.truthy (PartialAssignment.writingTaskType n))
      then Some "TASK_1" else PartialAssignment.writingTaskType n in
    let assignmentData :=
      AssignmentData.mk
        (Js.orEmpty (orElse (editingAssignmentId s) (Some now)))
        (Js.orEmpty classId)
        (orElse (viewingGroupId s) None)
        (Js.orEmpty (PartialAssignment.title n))
        (PartialAssignment.type n)
        (Js.orEmpty (PartialAssignment.description n))
        (Js.orEmpty (PartialAssignment.dueDate n))
        (PartialAssignment.timeLimit n)
        (PartialAssignment.passageContent n)
        processedQuestionGroups
        (PartialAssignment.videoUrl n)
        finalWritingTaskType
        (PartialAssignment.writingPrompt n)
        (PartialAssignment.writingImage n) in
    ([if Js.truthy (editingAssignmentId s)
      then onUpdateAssignment assignmentData
      else onAddAssignment assignmentData],
     {| classes := classes s;
        selectedClassId := selectedClassId s;
        viewingGroupId := viewingGroupId s;
        showAssignmentModal := false;
        editingAssignmentId := None;
        newAssignment := PartialAssignment.reset;
        tempQuestionGroups := [] |}).

(** [handleGroupTypeChange(index, newType)] on [tempQuestionGroups]; the
    group object is updated in place.  [None] stands for the [TypeError]
    raised when there is no group at [index]. *)
Definition handleGroupTypeChange (index : nat) (newType : string)
    (tempQuestionGroups : list QuestionGroup.t)
  : option (list QuestionGroup.t) :=
  match tempQuestionGroups !! index with
  | None => None
  | Some g =>
      let headingList :=
        if String.eqb newType "MATCHING_HEADINGS"
           && negb (bool_decide (is_Some (QuestionGroup.headingList g)))
        then Some [] else QuestionGroup.headingList g in
      let matchOptions :=
        if (String.eqb newType "MATCHING_FEATURES"
            || String.eqb newType "MATCHING_SENTENCE_ENDINGS")
           && negb (bool_decide (is_Some (QuestionGroup.matchOptions g)))
        then Some [] else QuestionGroup.matchOptions g in
      Some (<[index :=
               QuestionGroup.mk (QuestionGroup.id g) newType
                 (QuestionGroup.title g)
                 (Js.orEmpty (QUESTION_TYPE_INSTRUCTIONS !! newType))
                 (QuestionGroup.content g) headingList matchOptions
                 (QuestionGroup.questions g)]> tempQuestionGroups)
  end.

End TeacherPortal.

(** ** Analytics (gradebook) *)

(** JavaScript numbers are IEEE 754 binary64 values. *)
Module JsNumber.

Abbreviation number := spec_float.

Definition prec : Z := 53.
Definition emax : Z := 1024.

Definition zero : number := S754_zero false.

(** An integer as a number (rounded to nearest even beyond 2^53). *)
Definition ofZ (n : Z) : number := binary_normalize prec emax n 0 false.
Definition ofNat (n : nat) : number := ofZ (Z.of_nat n).

Definition add : number → number → number := SFadd prec emax.
Definition mul : number → number → number := SFmul prec emax.
Definition div : number → number → number := SFdiv prec emax.

Definition isNaN (x : number) : bool :=
  match x with S754_nan => true | _ => false end.

(** [x > 0] *)
Definition positive (x : number) : bool := SFltb zero x.

(** [Math.round(x)]: the nearest integer, a tie going up; zeros,
    infinities and NaN are returned as they are, and a negative number
    that rounds to zero gives [-0]. *)
Definition round (x : number) : number :=
  match x with
  | S754_finite s m e =>
      if (0 <=? e)%Z then x
      else
        let d := (2 ^ (- e))%Z in
        let sm := if s then Z.neg m else Z.pos m in
        let n := ((2 * sm + d) / (2 * d))%Z in
        if (n =? 0)%Z then S754_zero s else ofZ n
  | _ => x
  end.

(** The integer a number stands for, when it is one. *)
Definition toZ (x : number) : Z :=
  match x with
  | S754_finite s m e =>
      let v := if (0 <=? e)%Z then (Z.pos m * 2 ^ e)%Z
               else (Z.pos m / 2 ^ (- e))%Z in
      if s then (- v)%Z else v
  | _ => 0%Z
  end.

(** [Math.round((a / b) * 100)] for two array lengths or counters.  The
    result is an integer and is kept as one. *)
Definition roundedPercent (a b : nat) : Z :=
  toZ (round (mul (div (ofNat a) (ofNat b)) (ofNat 100))).

(** The value of a string of decimal digits read from the left, [None]
    when another character occurs. *)
Fixpoint digitsValue (acc : Z) (s : string) : option Z :=
  match s with
  | "" => Some acc
  | String c s' =>
      let n := N_of_ascii c in
      if bool_decide (48 ≤ n ≤ 57)%N
      then digitsValue (10 * acc + Z.of_N (n - 48)) s' else None
  end.

(** [Number(s)] on the strings that make up a grade: surrounding white
    space is dropped, the empty string is 0, an unsigned decimal integer is
    the nearest number.  Signs, fractions, exponents, radix prefixes and
    [Infinity] are not covered: every other string is read as [NaN]. *)
Definition ofDecimal (s : string) : number :=
  match digitsValue 0 (Js.trim s) with
  | Some n => if (n =? 0)%Z then zero else ofZ n
  | None => S754_nan
  end.

End JsNumber.

Module QuestionStat.
Record t := mk {
  question : Question.t;
  accuracy : Z;
  correctCount : nat;
  attemptCount : nat;
}.
End QuestionStat.

Module Gradebook.
Import JsNumber.

Section WithNumber.

(** [Number(s)], the conversion of a string to a number. *)
Variable Number : string → number.

(** [s.status === 'GRADED' && s.report] *)
Definition isGraded (s : Submission.t) : bool :=
  bool_decide (Submission.status s = GRADED)
  && bool_decide (is_Some (Submission.report s)).

(** [sub.report && sub.report[q.id]] *)
Definition reportEntry (sub : Submission.t) (q : Question.t)
  : option QuestionResult.t :=
  Submission.report sub ≫= (.!! Question.id q).

(** The counters after [gradedSubmissions.forEach(sub => ...)]. *)
Definition countStep (q : Question.t) (acc : nat * nat) (sub : Submission.t)
  : nat * nat :=
  let '(correctCount, attemptCount) := acc in
  match reportEntry sub q with
  | Some r =>
      (if QuestionResult.isCorrect r then S correctCount else correctCount,
       S attemptCount)
  | None => acc
  end.

Definition questionStat (gradedSubmissions : list Submission.t)
    (q : Question.t) : QuestionStat.t :=
  let '(correctCount, attemptCount) :=
    foldl (countStep q) (0, 0) gradedSubmissions in
  let accuracy :=
    if bool_decide (0 < attemptCount)
    then roundedPercent correctCount attemptCount else 0%Z in
  QuestionStat.mk q accuracy correctCount attemptCount.

(** [(a, b) => a.accuracy - b.accuracy] *)
Definition byAccuracy (a b : QuestionStat.t) : comparison :=
  (QuestionStat.accuracy a ?= QuestionStat.accuracy b)%Z.

Definition questionStats (gradedSubmissions : list Submission.t)
    (allQuestions : list Question.t) : list QuestionStat.t :=
  Js.sortBy byAccuracy (questionStat gradedSubmissions <$> allQuestions).

(** The callback of [gradedSubmissions.map] computing one score. *)
Definition scoreOf (s : Submission.t) : number :=
  if Js.truthy (Submission.grade s) then
    let parts := Number <$> Js.split "/" (Js.orEmpty (Submission.grade s)) in
    match parts with
    | score :: max :: _ =>
        if negb (isNaN score) && negb (isNaN max) && positive max
        then mul (div score max) (ofNat 100) else zero
    | _ => zero
    end
  else zero.

Definition averageScore (gradedSubmissions : list Submission.t) : number :=
  let scores := scoreOf <$> gradedSubmissions in
  if bool_decide (0 < length scores)
  then round (div (foldl add zero scores) (ofNat (length scores)))
  else zero.

Definition completionRate (assignmentSubmissions : list Submission.t)
    (students : list User.t) : Z :=
  if bool_decide (0 < length students)
  then roundedPercent (length assignmentSubmissions) (length students)
  else 0%Z.

Record AnalyticsData := {
  assignment : Assignment.t;
  assignmentSubmissions : list Submission.t;
  gradedSubmissions : list Submission.t;
  questionStats_ : list QuestionStat.t;
  averageScore_ : number;
  completionRate_ : Z;
  allQuestions_ : list Question.t;
}.

(** The [useMemo] callback computing [analyticsData]; [None] is
    [null]. *)
Definition analyticsData (selectedAssignmentId : option string)
    (assignments : list Assignment.t) (submissions : list Submission.t)
    (students : list User.t) : option AnalyticsData :=
  if negb (Js.truthy selectedAssignmentId) then None
  else
    let sel := Js.orEmpty selectedAssignmentId in
    match find (λ a, String.eqb (Assignment.id a) sel) assignments with
    | None => None
    | Some assignment =>
        let assignmentSubmissions :=
          filter (λ s, Submission.assignmentId s = sel) submissions in
        let gradedSubmissions :=
          filter (λ s, isGraded s = true) assignmentSubmissions in
        let allQuestions := StudentPortal.allQuestions assignment in
        Some {| assignment := assignment;
                assignmentSubmissions := assignmentSubmissions;
                gradedSubmissions := gradedSubmissions;
                questionStats_ := questionStats gradedSubmissions allQuestions;
                averageScore_ := averageScore gradedSubmissions;
                completionRate_ := completionRate assignmentSubmissions students;
                allQuestions_ := allQuestions |}
    end.

End WithNumber.

End Gradebook.

(** ** Vocabulary of the specification *)

(** The encoding of a multi-select answer key: comma-joined letters,
    sorted and without duplicates. *)
Module Encoding.

(** A letter is a single character; the separator is not one. *)
Definition isLetter (s : string) : Prop :=
  ∃ c, s = String c "" ∧ c ≠ ","%char.

Definition strictlySorted (l : list string) : Prop :=
  Sorted (λ a b, String.compare a b = Lt) l.

(** [null], or the comma-joined string of a sorted duplicate-free list of
    letters. *)
Definition wellEncoded (st : option string) : Prop :=
  st = None ∨
  ∃ l, Forall isLetter l ∧ strictlySorted l ∧ st = Some (Js.join "," l).

End Encoding.

(** The comparison rules of the grading contract. *)
Module GradingSpec.

Inductive Rule := MultiSelect | TextFill | Exact.

(** MCQ with [maxSelection > 1] is multi-select; FILL_IN_BLANKS and
    NOTES_COMPLETION are text-fill; every other type is exact. *)
Definition ruleOf (q : Question.t) : Rule :=
  if decide (Question.type q = "MCQ"
             ∧ (1 < default 1 (Question.maxSelection q))%Z)
  then MultiSelect
  else if decide (Question.type q = "FILL_IN_BLANKS"
                  ∨ Question.type q = "NOTES_COMPLETION")
  then TextFill
  else Exact.

(** Split on the comma, trim each element, sort, rejoin. *)
Definition normalise (x : string) : string :=
  Js.join "," (Js.sort (Js.trim <$> Js.split "," x)).

(** What it means for a trimmed answer to match a trimmed key. *)
Definition agree (q : Question.t) (studentAns correctAns : string) : Prop :=
  match ruleOf q with
  | MultiSelect => normalise studentAns = normalise correctAns
  | TextFill => Js.toLowerCase studentAns = Js.toLowerCase correctAns
  | Exact => studentAns = correctAns
  end.

(** The flattened question list as the contract words it: the
    concatenation of the questions of all question groups. *)
Definition flattenedGroups (a : Assignment.t) : list Question.t :=
  default [] (Assignment.questionGroups a) ≫= QuestionGroup.questions.

End GradingSpec.

(** The bracketed tokens of a notes-completion text. *)
Module NotesSpec.

(** The inner text of a token holds neither a closing bracket nor a line
    terminator. *)
Definition innerText (x : string) : Prop :=
  Js.every (λ c, negb (Ascii.eqb c "]") && negb (Js.isLineTerminator c)) x
  = true.

(** The token [[x]] stands in [s] between the texts [g] and [rest]. *)
Definition tokenAt (s g x rest : string) : Prop :=
  s = g +:+ "[" +:+ x +:+ "]" +:+ rest ∧ innerText x.

(** No token of [s] starts further left. *)
Definition firstToken (s g x rest : string) : Prop :=
  tokenAt s g x rest
  ∧ ∀ g' x' rest', tokenAt s g' x' rest' → String.length g ≤ String.length g'.

(** The inner texts of the tokens of [s] from left to right: the first
    token, then the tokens of the text after it. *)
Inductive tokens : string → list string → Prop :=
| tokens_nil s :
    (∀ g x rest, ¬ tokenAt s g x rest) → tokens s []
| tokens_cons s g x rest xs :
    firstToken s g x rest → tokens rest xs → tokens s (x :: xs).

(** A bracketed text in the widest sense: an opening bracket, any text
    without a closing bracket, a closing bracket. *)
Definition bracketedAt (s g x rest : string) : Prop :=
  s = g +:+ "[" +:+ x +:+ "]" +:+ rest
  ∧ Js.every (λ c, negb (Ascii.eqb c "]")) x = true.

(** The question the compiler makes of a token. *)
Definition questionOf (id x : string) : Question.t :=
  Question.mk id ("[" +:+ x +:+ "]") "NOTES_COMPLETION" None (Some x) None.

(** Two questions agree on everything but their identifiers. *)
Definition sameQuestion (q q' : Question.t) : Prop :=
  Question.text q = Question.text q'
  ∧ Question.type q = Question.type q'
  ∧ Question.correctAnswer q = Question.correctAnswer q'.

End NotesSpec.

(** Counting attempts in the gradebook. *)
Module AnalyticsSpec.

(** The report of [sub] has an entry for [q]. *)
Definition attempted (q : Question.t) (sub : Submission.t) : Prop :=
  is_Some (Gradebook.reportEntry sub q).

(** The report of [sub] marks [q] as correct. *)
Definition answeredCorrectly (q : Question.t) (sub : Submission.t) : Prop :=
  from_option QuestionResult.isCorrect false (Gradebook.reportEntry sub q)
  = true.

Global Instance attempted_dec q sub : Decision (attempted q sub).
Proof. unfold attempted. apply _. Defined.

Global Instance answeredCorrectly_dec q sub :
  Decision (answeredCorrectly q sub).
Proof. unfold answeredCorrectly. apply _. Defined.

(** The student gave an answer to [q]: the answers map of the submission
    has a non-blank entry for it. *)
Definition answered (q : Question.t) (sub : Submission.t) : Prop :=
  Js.trim (Js.orEmpty (Submission.answers sub !! Question.id q)) ≠ "".

End AnalyticsSpec.

(** ** The assignment viewer (StudentPortal.tsx) *)

Module AssignmentViewer.



(** [text ? text.trim().split(/\s+/).filter(w => w.length > 0).length : 0] *)
Definition getWordCount (text : string) : nat :=
  if Js.truthy (Some text)
  then length (filter (λ w, 0 < String.length w)
                 (Js.splitSpaces (Js.trim text)))
  else 0.


(** [q.maxSelection || 1] *)
Definition maxSelectionOr1 (q : Question.t) : Z :=
  match Question.maxSelection q with
  | Some n => if (n =? 0)%Z then 1 else n
  | None => 1
  end.

(** [isMulti], for an option of a multiple-choice question. *)
Definition isMulti (q : Question.t) : bool := (1 <? maxSelectionOr1 q)%Z.

(** [isSelected], the state shown for the option [letter]. *)
Definition isSelected (q : Question.t) (letter : string)
    (answers : gmap string string) : bool :=
  if isMulti q then
    Js.includes letter
      (match answers !! Question.id q with
       | Some a => Js.split "," a
       | None => []
       end)
  else bool_decide (answers !! Question.id q = Some letter).

(** The [onChange] handler of the option [letter]: the answers after
    [onAnswerChange], which stores one value under the identifier of the
    question; at most [maxSelection] letters are selected. *)
Definition onChange (q : Question.t) (letter : string)
    (answers : gmap string string) : gmap string string :=
  if isMulti q then
    let currentStr := Js.orEmpty (answers !! Question.id q) in
    let currentArr :=
      if Js.truthy (Some currentStr) then Js.split "," currentStr else [] in
    if Js.includes letter currentArr then
      <[Question.id q := Js.join "," (filter (λ l, l ≠ letter) currentArr)]>
        answers
    else if (maxSelectionOr1 q <=? Z.of_nat (length currentArr))%Z then answers
    else
      <[Question.id q := Js.join "," (Js.sort (currentArr ++ [letter]))]>
        answers
  else <[Question.id q := letter]> answers.

(** [allQuestions], the questions behind the navigator. *)
Definition allQuestions (a : Assignment.t) : list Question.t :=
  match Assignment.questionGroups a with
  | Some gs => gs ≫= QuestionGroup.questions
  | None => default [] (Assignment.questions a)
  end.

End AssignmentViewer.

(** ** Vocabulary of the further properties *)

Module Words.
(** The number of places of [s] where a word starts: a character that is
    not white space, at the start of the text or behind white space.
    [afterSpace] tells whether the previous character allows a start. *)
Fixpoint starts (afterSpace : bool) (s : string) : nat :=
  match s with
  | "" => 0
  | String c s' =>
      if Js.isWhiteSpace c then starts true s'
      else (if afterSpace then 1 else 0) + starts false s'
  end.
End Words.

(** The letters of the options of a multiple-choice question. *)
Module OptionLetters.

(** The letter of one of the first twenty-six options, A to Z. *)
Definition isOptionLetter (s : string) : Prop :=
  ∃ i, i < 26 ∧ s = TeacherPortal.toLetter i.

(** The answer stored for a question, read as a selection: a list of
    letters, sorted and without duplicates, joined by commas; no entry and
    the empty string both stand for the empty selection. *)
Definition selection (q : Question.t) (answers : gmap string string)
    (l : list string) : Prop :=
  Js.orEmpty (answers !! Question.id q) = Js.join "," l
  ∧ Forall Encoding.isLetter l ∧ Encoding.strictlySorted l.

(** The selection after a click on [letter], with at most [max] letters. *)
Definition clicked (max : Z) (letter : string) (l : list string)
  : list string :=
  if decide (letter ∈ l) then filter (λ x, x ≠ letter) l
  else if decide (max ≤ Z.of_nat (length l))%Z then l
  else Js.sort (l ++ [letter]).

(** The clicks of a student on the options [opts], one after the other. *)
Definition clicks (q : Question.t) (opts : list nat)
    (answers : gmap string string) : gmap string string :=
  foldl (λ a i, AssignmentViewer.onChange q (TeacherPortal.toLetter i) a)
    answers opts.

(** The clicks of the teacher who sets the key. *)
Definition keyClicks (opts : list nat) : option string :=
  foldl (λ st i, TeacherPortal.toggleMcqCorrectAnswer (TeacherPortal.toLetter i) st)
    None opts.

(** The index of an option letter, and the sorted list of the letters of
    some options. *)
Definition indexOfLetter (x : string) : nat :=
  match x with
  | String c _ => nat_of_ascii c - 65
  | "" => 0
  end.

Definition lettersOf (xs : list nat) : list string :=
  Js.sort (TeacherPortal.toLetter <$> xs).

End OptionLetters.

(** ** Class schedules (teacher portal) *)

Module ScheduleSlot.
Record t := mk {
  day : string;
  startTime : string;
  endTime : string;
}.
End ScheduleSlot.

Module ClassSchedule.

(** A [Date] is modelled by the number of its local calendar day, counted
    from 1 January 1970, a Thursday.  [getNextDayOfWeek] leaves the time of
    day as it is. *)
Definition getDay (date : Z) : Z := ((date + 4) `mod` 7)%Z.

Definition days : list string :=
  ["Sunday"; "Monday"; "Tuesday"; "Wednesday"; "Thursday"; "Friday";
   "Saturday"].

(** [getNextDayOfWeek(date, dayName)] *)
Definition getNextDayOfWeek (date : Z) (dayName : string) : Z :=
  let targetDayIndex := Js.indexOf dayName days in
  let diff := (targetDayIndex - getDay date)%Z in
  let diff := if (diff <=? 0)%Z then (diff + 7)%Z else diff in
  (date + diff)%Z.

(** The form of the class modal. *)
Record State := {
  editingClassId : option string;
  newClassName : option string;
  newClassDescription : option string;
  scheduleItems : list ScheduleSlot.t;
  tempDay : string;
  tempStart : string;
  tempEnd : string;
  showClassModal : bool;
}.

(** [addScheduleSlot()] *)
Definition addScheduleSlot (s : State) : State :=
  if negb (Js.truthy (Some (tempStart s))) || negb (Js.truthy (Some (tempEnd s)))
  then s
  else
    {| editingClassId := editingClassId s;
       newClassName := newClassName s;
       newClassDescription := newClassDescription s;
       scheduleItems :=
         scheduleItems s ++ [ScheduleSlot.mk (tempDay s) (tempStart s) (tempEnd s)];
       tempDay := tempDay s;
       tempStart := tempStart s;
       tempEnd := tempEnd s;
       showClassModal := showClassModal s |}.

(** [removeScheduleSlot(index)] *)
Definition removeScheduleSlot (index : nat) (s : State) : State :=
  {| editingClassId := editingClassId s;
     newClassName := newClassName s;
     newClassDescription := newClassDescription s;
     scheduleItems := Js.spliceOut index (scheduleItems s);
     tempDay := tempDay s;
     tempStart := tempStart s;
     tempEnd := tempEnd s;
     showClassModal := showClassModal s |}.

(** [formattedSchedule], the text under which [handleSaveClass] stores the
    slots: [`${item.day}s ${item.startTime} - ${item.endTime}`], joined by
    a comma and a space. *)
Definition formattedSlot (item : ScheduleSlot.t) : string :=
  ScheduleSlot.day item +:+ "s " +:+ ScheduleSlot.startTime item +:+ " - "
  +:+ ScheduleSlot.endTime item.

Definition formattedSchedule (scheduleItems : list ScheduleSlot.t) : string :=
  Js.join ", " (formattedSlot <$> scheduleItems).

(** [\d{2}:\d{2}] at the start of [s]: the text matched and the rest. *)
Definition matchTime (s : string) : option (string * string) :=
  match s with
  | String a (String b (String c (String d (String e rest)))) =>
      if Js.isDigit a && Js.isDigit b && Ascii.eqb c ":" && Js.isDigit d
         && Js.isDigit e
      then Some (String a (String b (String c (String d (String e "")))), rest)
      else None
  | _ => None
  end.

(** A run of letters without its last letter, when that is an [s]. *)
Fixpoint dropFinalS (letters : string) : option string :=
  match letters with
  | "" => None
  | String c "" => if Ascii.eqb c "s" then Some "" else None
  | String c rest => String c <$> dropFinalS rest
  end.

(** [part.match(/^([A-Za-z]+)s (\d{2}:\d{2}) - (\d{2}:\d{2})$/)], the
    groups 1 to 3 of the match.  The group [[A-Za-z]+] is followed by an
    [s] and a space: it can only end one letter before the end of the run
    of letters that starts the text, and that last letter is the [s]. *)
Definition matchSlot (part : string) : option ScheduleSlot.t :=
  let '(letters, rest) := Js.span Js.isAsciiLetter part in
  match dropFinalS letters, rest with
  | Some day, String " " rest1 =>
      if bool_decide (day = "") then None
      else
        match matchTime rest1 with
        | Some (startTime, String " " (String "-" (String " " rest2))) =>
            match matchTime rest2 with
            | Some (endTime, "") => Some (ScheduleSlot.mk day startTime endTime)
            | _ => None
            end
        | _ => None
        end
  | _, _ => None
  end.

(** [parsedItems], the slots read back from the text of the schedule. *)
Definition parsedItems (schedule : string) : list ScheduleSlot.t :=
  omap (λ part, matchSlot (Js.trim part)) (Js.splitOn ", " schedule).

(** [openClassModalForEdit()] for the class selected, if any. *)
Definition openClassModalForEdit (selectedClass : option ClassGroup.t)
    (s : State) : State :=
  match selectedClass with
  | None => s
  | Some c =>
      let parsed := parsedItems (ClassGroup.schedule c) in
      {| editingClassId := Some (ClassGroup.id c);
         newClassName := Some (ClassGroup.name c);
         newClassDescription := ClassGroup.description c;
         scheduleItems :=
           if bool_decide (0 < length parsed) then parsed
           else [ScheduleSlot.mk "Monday" "09:00" "10:30"];
         tempDay := tempDay s;
         tempStart := tempStart s;
         tempEnd := tempEnd s;
         showClassModal := true |}
  end.

End ClassSchedule.

(** Slots as the form of the class modal produces them. *)
Module ScheduleSpec.

(** A time of day on five characters, [hh:mm]. *)
Definition isClockTime (t : string) : bool :=
  match t with
  | String a (String b (String c (String d (String e "")))) =>
      Js.isDigit a && Js.isDigit b && Ascii.eqb c ":" && Js.isDigit d
      && Js.isDigit e
  | _ => false
  end.

(** The day is a word of letters and the times are times of day. *)
Definition wellFormed (item : ScheduleSlot.t) : Prop :=
  ScheduleSlot.day item ≠ ""
  ∧ Js.every Js.isAsciiLetter (ScheduleSlot.day item) = true
  ∧ isClockTime (ScheduleSlot.startTime item) = true
  ∧ isClockTime (ScheduleSlot.endTime item) = true.

End ScheduleSpec.

(** ** Folders of assignments (teacher portal and App) *)

Module AssignmentGroup.
Record t := mk {
  id : string;
  classId : string;
  title : string;
  description : option string;
  createdAt : string;
  order : option Z;
}.

(** [{ ...g, order: index }] *)
Definition withOrder (index : Z) (g : t) : t :=
  mk (id g) (classId g) (title g) (description g) (createdAt g) (Some index).

(** [{ ...g, title }] *)
Definition withTitle (newTitle : string) (g : t) : t :=
  mk (id g) (classId g) newTitle (description g) (createdAt g) (order g).
End AssignmentGroup.

Module Folders.

(** [a.order || 0], for an order that is an integer. *)
Definition orderOr0 (g : AssignmentGroup.t) : Z :=
  match AssignmentGroup.order g with
  | Some n => if (n =? 0)%Z then 0 else n
  | None => 0
  end.

(** [(a, b) => (a.order || 0) - (b.order || 0)] *)
Definition byOrder (a b : AssignmentGroup.t) : comparison :=
  (orderOr0 a ?= orderOr0 b)%Z.

Record State := {
  localGroups : list AssignmentGroup.t;
  draggedGroupIndex : option nat;
  newFolderTitle : string;
  editingFolderId : option string;
  showFolderModal : bool;
  deleteFolderId : option string;
}.

Inductive Effect :=
| onAddAssignmentGroup (group : AssignmentGroup.t)
| onUpdateAssignmentGroup (group : AssignmentGroup.t)
| onReorderAssignmentGroups (groups : list AssignmentGroup.t)
| onDeleteAssignmentGroup (id : string).

(** The effect that keeps [localGroups] in step with the folders of the
    class selected. *)
Definition syncLocalGroups (selectedClassId : option string)
    (assignmentGroups : list AssignmentGroup.t) (s : State) : State :=
  if Js.truthy selectedClassId then
    {| localGroups :=
         Js.sortBy byOrder
           (filter (λ g, AssignmentGroup.classId g = Js.orEmpty selectedClassId)
              assignmentGroups);
       draggedGroupIndex := draggedGroupIndex s;
       newFolderTitle := newFolderTitle s;
       editingFolderId := editingFolderId s;
       showFolderModal := showFolderModal s;
       deleteFolderId := deleteFolderId s |}
  else s.

(** [handleSaveFolder()]; [now] is [Date.now()] as a text and [createdAt]
    the time as an ISO text. *)
Definition handleSaveFolder (now createdAt : string)
    (selectedClassId : option string)
    (assignmentGroups : list AssignmentGroup.t) (s : State)
  : list Effect * State :=
  if negb (Js.truthy (Some (Js.trim (newFolderTitle s))))
     || negb (Js.truthy selectedClassId)
  then ([], s)
  else
    let effects :=
      if Js.truthy (editingFolderId s) then
        match find (λ g, String.eqb (AssignmentGroup.id g)
                           (Js.orEmpty (editingFolderId s))) assignmentGroups with
        | Some groupToUpdate =>
            [onUpdateAssignmentGroup
               (AssignmentGroup.withTitle (newFolderTitle s) groupToUpdate)]
        | None => []
        end
      else
        [onAddAssignmentGroup
           (AssignmentGroup.mk ("grp_" +:+ now) (Js.orEmpty selectedClassId)
              (newFolderTitle s) None createdAt
              (Some (Z.of_nat (length (localGroups s)))))] in
    (effects,
     {| localGroups := localGroups s;
        draggedGroupIndex := draggedGroupIndex s;
        newFolderTitle := "";
        editingFolderId := None;
        showFolderModal := false;
        deleteFolderId := deleteFolderId s |}).

(** [handleDragStart(e, index)] *)
Definition handleDragStart (index : nat) (s : State) : State :=
  {| localGroups := localGroups s;
     draggedGroupIndex := Some index;
     newFolderTitle := newFolderTitle s;
     editingFolderId := editingFolderId s;
     showFolderModal := showFolderModal s;
     deleteFolderId := deleteFolderId s |}.

(** [handleDragOver(e, index)].  [None] stands for the case that no folder
    is at [draggedGroupIndex]: the array then receives [undefined], which
    lists of folders do not hold. *)
Definition handleDragOver (index : nat) (s : State) : option State :=
  match draggedGroupIndex s with
  | None => Some s
  | Some dragged =>
      if bool_decide (dragged = index) then Some s
      else
        match localGroups s !! dragged with
        | None => None
        | Some draggedItem =>
            Some {| localGroups :=
                      Js.spliceIn index draggedItem
                        (Js.spliceOut dragged (localGroups s));
                    draggedGroupIndex := Some index;
                    newFolderTitle := newFolderTitle s;
                    editingFolderId := editingFolderId s;
                    showFolderModal := showFolderModal s;
                    deleteFolderId := deleteFolderId s |}
        end
  end.

(** [handleDragEnd()] *)
Definition handleDragEnd (s : State) : list Effect * State :=
  ([onReorderAssignmentGroups (localGroups s)],
   {| localGroups := localGroups s;
      draggedGroupIndex := None;
      newFolderTitle := newFolderTitle s;
      editingFolderId := editingFolderId s;
      showFolderModal := showFolderModal s;
      deleteFolderId := deleteFolderId s |}).

(** [handleDeleteFolder()] *)
Definition handleDeleteFolder (s : State) : list Effect * State :=
  if Js.truthy (deleteFolderId s) then
    ([onDeleteAssignmentGroup (Js.orEmpty (deleteFolderId s))],
     {| localGroups := localGroups s;
        draggedGroupIndex := draggedGroupIndex s;
        newFolderTitle := newFolderTitle s;
        editingFolderId := editingFolderId s;
        showFolderModal := showFolderModal s;
        deleteFolderId := None |})
  else ([], s).

(** [handleReorderAssignmentGroups(groups)] of [App]: the updates put in
    the batch, each the identifier of a document and its new [order]. *)
Definition handleReorderAssignmentGroups (groups : list AssignmentGroup.t)
  : list (string * Z) :=
  imap (λ index g, (AssignmentGroup.id g, Z.of_nat index)) groups.

End Folders.

(** The collection of folders in the store. *)
Module FolderStore.

(** One update of a committed batch: the document named gets the order. *)
Definition update (u : string * Z) (docs : list AssignmentGroup.t)
  : list AssignmentGroup.t :=
  (λ g, if decide (AssignmentGroup.id g = u.1)
        then AssignmentGroup.withOrder u.2 g else g) <$> docs.

(** The documents after a batch of updates has been committed. *)
Definition committed (updates : list (string * Z))
    (docs : list AssignmentGroup.t) : list AssignmentGroup.t :=
  foldl (λ ds u, update u ds) docs updates.

(** The folders in the order given, each with its place as its order. *)
Definition placed (groups : list AssignmentGroup.t) : list AssignmentGroup.t :=
  imap (λ index g, AssignmentGroup.withOrder (Z.of_nat index) g) groups.

End FolderStore.

(** ** Values handed to the store ([sanitizeForFirestore], App) *)

(** A JavaScript value as the traversal of [sanitizeForFirestore] meets it.
    An array or an object carries its identity, of type [R]: an object that
    can be reached along two paths occurs twice, with the same identity,
    and a cycle ends in an occurrence of an object that is being visited.
    The fields of an object are its enumerable properties in the order of
    [for ... in]. *)
#[local] Unset Elimination Schemes.
Inductive JsValue (R : Type) :=
| VUndefined
| VNull
| VBool (b : bool)
| VNumber (n : JsNumber.number)
| VString (s : string)
| VTimestamp (seconds nanoseconds : Z)
| VArray (ref : R) (items : list (JsValue R))
| VObject (ref : R) (fields : list (string * JsValue R)).

#[local] Set Elimination Schemes.

Arguments VUndefined {R}.
Arguments VNull {R}.
Arguments VBool {R} b.
Arguments VNumber {R} n.
Arguments VString {R} s.
Arguments VTimestamp {R} seconds nanoseconds.
Arguments VArray {R} ref items.
Arguments VObject {R} ref fields.

Module Sanitize.

(** [v !== undefined] *)
Definition isDefined {R} (v : JsValue R) : bool :=
  match v with VUndefined => false | _ => true end.

Section Traversal.
Context (sanitize : JsValue nat → gset nat → JsValue unit * gset nat).

(** [value.map(sanitize)], the elements visited from left to right. *)
Fixpoint mapItems (items : list (JsValue nat)) (seen : gset nat)
  : list (JsValue unit) * gset nat :=
  match items with
  | [] => ([], seen)
  | x :: rest =>
      let '(y, seen1) := sanitize x seen in
      let '(ys, seen2) := mapItems rest seen1 in
      (y :: ys, seen2)
  end.

(** The loop [for (const key in value)] that fills [newObj]. *)
Fixpoint eachField (fields : list (string * JsValue nat)) (seen : gset nat)
  : list (string * JsValue unit) * gset nat :=
  match fields with
  | [] => ([], seen)
  | (key, x) :: rest =>
      let '(sanitizedVal, seen1) := sanitize x seen in
      let '(newObj, seen2) := eachField rest seen1 in
      (if isDefined sanitizedVal then (key, sanitizedVal) :: newObj else newObj,
       seen2)
  end.
End Traversal.

(** [sanitize(value)] with the set [seen] threaded through the traversal:
    the result and the set afterwards.  The arrays and objects of the
    result are new; their identities are not recorded. *)
Fixpoint sanitize (value : JsValue nat) (seen : gset nat) {struct value}
  : JsValue unit * gset nat :=
  match value with
  | VUndefined => (VUndefined, seen)
  | VNull => (VNull, seen)
  | VBool b => (VBool b, seen)
  | VNumber n => (VNumber n, seen)
  | VString s => (VString s, seen)
  | VTimestamp sec nano => (VTimestamp sec nano, seen)
  | VArray ref items =>
      if decide (ref ∈ seen) then (VUndefined, seen)
      else
        let '(ys, seen') := mapItems sanitize items ({[ref]} ∪ seen) in
        (VArray () (List.filter isDefined ys), seen')
  | VObject ref fields =>
      if decide (ref ∈ seen) then (VUndefined, seen)
      else
        let '(newObj, seen') := eachField sanitize fields ({[ref]} ∪ seen) in
        (VObject () newObj, seen')
  end.

(** [sanitizeForFirestore(obj)] *)
Definition sanitizeForFirestore (obj : JsValue nat) : JsValue unit :=
  (sanitize obj ∅).1.

(** No element of an array and no field of an object inside [v] is
    [undefined]. *)
Fixpoint defined_inside {R} (v : JsValue R) : bool :=
  match v with
  | VArray _ items =>
      forallb (λ x, isDefined x && defined_inside x) items
  | VObject _ fields =>
      forallb (λ kx, isDefined kx.2 && defined_inside kx.2) fields
  | _ => true
  end.

(** The identities of the arrays and objects of a value, in the order of
    the traversal. *)
Fixpoint refs {R} (v : JsValue R) : list R :=
  match v with
  | VArray ref items => ref :: flat_map refs items
  | VObject ref fields => ref :: flat_map (λ kx, refs kx.2) fields
  | _ => []
  end.

(** The value without the identities. *)
Fixpoint plain {R} (v : JsValue R) : JsValue unit :=
  match v with
  | VUndefined => VUndefined
  | VNull => VNull
  | VBool b => VBool b
  | VNumber n => VNumber n
  | VString s => VString s
  | VTimestamp sec nano => VTimestamp sec nano
  | VArray _ items => VArray () (List.map plain items)
  | VObject _ fields => VObject () (List.map (λ kx, (kx.1, plain kx.2)) fields)
  end.

End Sanitize.

(** ** Students, classes and submissions (App and the portals) *)

Module App.


(** The fields that [handleGradeSubmission(id, grade, feedback)] sets in
    the document of a submission. *)
Definition handleGradeSubmission (grade feedback : string)
    (doc : Submission.t) : Submission.t :=
  Submission.mk (Submission.id doc) (Submission.assignmentId doc)
    (Submission.studentId doc) (Submission.studentName doc)
    (Submission.answers doc) GRADED (Some grade) (Some feedback)
    (Submission.transcription doc) (Submission.report doc)
    (Submission.metadata doc).

End App.

(** The students in the store. *)
Module UserStore.

(** The documents after an update of [enrolledClassIds] has been written. *)
Definition updated (u : string * list string) (students : list User.t)
  : list User.t :=
  (λ s, if decide (User.id s = u.1)
        then User.mk (User.id s) (User.name s) (Some u.2) else s) <$> students.

End UserStore.

Module StudentViews.

(** [user.enrolledClassIds?.includes(c.id)] *)
Definition isEnrolled (user : User.t) (classId : string) : bool :=
  match User.enrolledClassIds user with
  | Some ids => Js.includes classId ids
  | None => false
  end.

(** [enrolledClasses], the classes a student sees. *)
Definition enrolledClasses (classes : list ClassGroup.t) (user : User.t)
  : list ClassGroup.t :=
  filter (λ c, isEnrolled user (ClassGroup.id c) = true) classes.

(** [getSubmission(assignmentId)] *)
Definition getSubmission (submissions : list Submission.t)
    (assignmentId : string) : option Submission.t :=
  find (λ s, String.eqb (Submission.assignmentId s) assignmentId) submissions.

(** [orderedReportItems], the rows of the report shown after a graded
    submission. *)
Definition orderedReportItems (assignments : list Assignment.t)
    (reportSubmission : Submission.t) : list QuestionResult.t :=
  match find (λ a, String.eqb (Assignment.id a)
                     (Submission.assignmentId reportSubmission)) assignments with
  | None => []
  | Some assignment =>
      (λ q, match Submission.report reportSubmission ≫= (.!! Question.id q) with
            | Some r => r
            | None =>
                QuestionResult.mk (Question.id q) false ""
                  (Js.orEmpty (Question.correctAnswer q))
            end) <$> StudentPortal.allQuestions assignment
  end.

End StudentViews.

Module TeacherViews.


(** [pendingSubmissions] *)
Definition pendingSubmissions (submissions : list Submission.t)
  : list Submission.t :=
  filter (λ s, Submission.status s = SUBMITTED) submissions.

(** [assignments.find(a => a.id === s.assignmentId)?.classId === classId] *)
Definition belongsToClass (assignments : list Assignment.t)
    (classId : string) (s : Submission.t) : bool :=
  match find (λ a, String.eqb (Assignment.id a) (Submission.assignmentId s))
          assignments with
  | Some a => String.eqb (Assignment.classId a) classId
  | None => false
  end.

(** [getClassPendingCount(classId)] *)
Definition getClassPendingCount (assignments : list Assignment.t)
    (submissions : list Submission.t) (classId : string) : nat :=
  length (filter (λ s, Submission.status s = SUBMITTED
                       ∧ belongsToClass assignments classId s = true)
            submissions).

(** [generateAccessCode()]: [draw i] is the code drawn in round [i], and
    [accessCodes] lists the access codes of the students.  [loop] runs the
    rounds that are left. *)
Fixpoint generateAccessCodeLoop (draw : nat → string)
    (accessCodes : list (option string)) (rounds attempts : nat)
    (code : string) : string :=
  match rounds with
  | 0 => code
  | S rounds' =>
      let code := draw attempts in
      if negb (existsb (λ a, bool_decide (a = Some code)) accessCodes)
      then code
      else generateAccessCodeLoop draw accessCodes rounds' (S attempts) code
  end.

Definition generateAccessCode (draw : nat → string)
    (accessCodes : list (option string)) : string :=
  generateAccessCodeLoop draw accessCodes 100 0 "".

End TeacherViews.

(** ** The table of the gradebook *)

Module GradebookTable.

(** One step of [submissions.forEach] that fills [submissionMap]. *)
Definition submissionMapStep (map : gmap string (gmap string Submission.t))
    (sub : Submission.t) : gmap string (gmap string Submission.t) :=
  let row := default ∅ (map !! Submission.studentId sub) in
  <[Submission.studentId sub := <[Submission.assignmentId sub := sub]> row]> map.

(** [submissionMap]: [submissions[studentId][assignmentId]]. *)
Definition submissionMap (submissions : list Submission.t)
  : gmap string (gmap string Submission.t) :=
  foldl submissionMapStep ∅ submissions.

Inductive StatusType := ST_GRADED | ST_SUBMITTED | ST_MISSING | ST_ASSIGNED.

Record Status := {
  type : StatusType;
  label : string;
  color : string;
}.

Section WithDate.

(** [new Date(text).getTime()], [None] for a text that is no date, and the
    time at which the table is drawn. *)
Variable getTime : string → option Z.
Variable now : Z.

(** [new Date(assignment.dueDate) < new Date()]; an invalid date is not
    smaller than any date. *)
Definition isOverdue (assignment : Assignment.t) : bool :=
  match getTime (Assignment.dueDate assignment) with
  | Some due => (due <? now)%Z
  | None => false
  end.

(** [getStatus(studentId, assignment)] *)
Definition getStatus (submissions : list Submission.t) (studentId : string)
    (assignment : Assignment.t) : Status :=
  match submissionMap submissions !! studentId ≫= (.!! Assignment.id assignment) with
  | Some sub =>
      if bool_decide (Submission.status sub = GRADED) then
        {| type := ST_GRADED;
           label := Js.orEmpty (TeacherPortal.orElse (Submission.grade sub)
                                  (Some "Graded"));
           color := "text-slate-900 font-bold" |}
      else
        {| type := ST_SUBMITTED; label := "Turned In";
           color := "text-green-600 font-medium" |}
  | None =>
      if isOverdue assignment then
        {| type := ST_MISSING; label := "Missing";
           color := "text-red-500 font-medium" |}
      else
        {| type := ST_ASSIGNED; label := "-"; color := "text-slate-300" |}
  end.

End WithDate.

End GradebookTable.

(** ** The builder of question groups (teacher portal) *)

Module QuestionBuilder.

Record State := {
  tempQuestionGroups : list QuestionGroup.t;
  activeGroupIndex : option nat;
  tempQuestionText : string;
  tempMcqOptions : list string;
  tempOptionInput : string;
  tempCorrectAnswer : option string;
  tempMaxSelection : Z;
  tempHeadingInput : string;
  tempMatchOptionInput : string;
}.

(** A group with other questions, headings or options; the object of the
    group is updated in place. *)
Definition withQuestions (questions : list Question.t) (g : QuestionGroup.t)
  : QuestionGroup.t :=
  QuestionGroup.mk (QuestionGroup.id g) (QuestionGroup.type g)
    (QuestionGroup.title g) (QuestionGroup.instruction g)
    (QuestionGroup.content g) (QuestionGroup.headingList g)
    (QuestionGroup.matchOptions g) questions.

Definition withHeadingList (headingList : list string) (g : QuestionGroup.t)
  : QuestionGroup.t :=
  QuestionGroup.mk (QuestionGroup.id g) (QuestionGroup.type g)
    (QuestionGroup.title g) (QuestionGroup.instruction g)
    (QuestionGroup.content g) (Some headingList)
    (QuestionGroup.matchOptions g) (QuestionGroup.questions g).

Definition withGroups (groups : list QuestionGroup.t) (s : State) : State :=
  {| tempQuestionGroups := groups;
     activeGroupIndex := activeGroupIndex s;
     tempQuestionText := tempQuestionText s;
     tempMcqOptions := tempMcqOptions s;
     tempOptionInput := tempOptionInput s;
     tempCorrectAnswer := tempCorrectAnswer s;
     tempMaxSelection := tempMaxSelection s;
     tempHeadingInput := tempHeadingInput s;
     tempMatchOptionInput := tempMatchOptionInput s |}.

(** [handleAddQuestionGroup()]; [now] is [Date.now()] as a text. *)
Definition handleAddQuestionGroup (now : string) (s : State) : State :=
  let newGroup :=
    QuestionGroup.mk ("qg_" +:+ now) "MCQ" (Some "Questions")
      (Js.orEmpty (TeacherPortal.QUESTION_TYPE_INSTRUCTIONS !! "MCQ"))
      None (Some []) (Some []) [] in
  {| tempQuestionGroups := tempQuestionGroups s ++ [newGroup];
     activeGroupIndex := Some (length (tempQuestionGroups s));
     tempQuestionText := tempQuestionText s;
     tempMcqOptions := tempMcqOptions s;
     tempOptionInput := tempOptionInput s;
     tempCorrectAnswer := tempCorrectAnswer s;
     tempMaxSelection := tempMaxSelection s;
     tempHeadingInput := tempHeadingInput s;
     tempMatchOptionInput := tempMatchOptionInput s |}.

(** [tempQuestionText.match(/\[(.*?)\]/)], the first match. *)
Definition firstMatch (text : string) : option (string * string) :=
  head (TeacherPortal.matchAll text).

(** [handleAddQuestionToGroup(groupIndex)]: the alerts raised and the state
    afterwards.  [None] stands for the [TypeError] raised when there is no
    group at [groupIndex]. *)
Definition handleAddQuestionToGroup (now : string) (groupIndex : nat)
    (s : State) : option (list TeacherPortal.Effect * State) :=
  if negb (Js.truthy (Some (tempQuestionText s)))
  then Some ([TeacherPortal.alert "Question text required"], s)
  else
    match tempQuestionGroups s !! groupIndex with
    | None => None
    | Some group =>
        let groupType := QuestionGroup.type group in
        let extracted :=
          if String.eqb groupType "FILL_IN_BLANKS" then
            match firstMatch (tempQuestionText s) with
            | Some (_, inner) =>
                if Js.truthy (Some inner) then Some (Some inner) else None
            | None => None
            end
          else Some (tempCorrectAnswer s) in
        match extracted with
        | None =>
            Some ([TeacherPortal.alert
                     ("Please format your sentence correctly: Wrap the answer in [brackets]."
                      +:+ String "010" (String "010"
                            "Example: The sun rises in the [east]."))], s)
        | Some finalCorrectAnswer =>
            let isMcq := String.eqb groupType "MCQ" in
            let newQ :=
              Question.mk ("q_" +:+ now) (tempQuestionText s) groupType
                (if isMcq then Some (tempMcqOptions s) else None)
                (if Js.truthy finalCorrectAnswer then finalCorrectAnswer else None)
                (if isMcq then Some (tempMaxSelection s) else None) in
            Some ([],
                  {| tempQuestionGroups :=
                       <[groupIndex :=
                           withQuestions (QuestionGroup.questions group ++ [newQ])
                             group]> (tempQuestionGroups s);
                     activeGroupIndex := activeGroupIndex s;
                     tempQuestionText := "";
                     tempMcqOptions := [];
                     tempOptionInput := "";
                     tempCorrectAnswer := None;
                     tempMaxSelection := 1;
                     tempHeadingInput := tempHeadingInput s;
                     tempMatchOptionInput := tempMatchOptionInput s |})
        end
    end.

(** [removeQuestionFromGroup(groupIndex, qId)] *)
Definition removeQuestionFromGroup (groupIndex : nat) (qId : string)
    (s : State) : option State :=
  match tempQuestionGroups s !! groupIndex with
  | None => None
  | Some group =>
      Some (withGroups
              (<[groupIndex :=
                   withQuestions
                     (filter (λ q, Question.id q ≠ qId) (QuestionGroup.questions group))
                     group]> (tempQuestionGroups s)) s)
  end.

(** [q.correctAnswer = newAnswer] on the first question that carries
    [qId]; [None] when no question carries it. *)
Fixpoint setAnswer (qId newAnswer : string) (questions : list Question.t)
  : option (list Question.t) :=
  match questions with
  | [] => None
  | q :: rest =>
      if String.eqb (Question.id q) qId
      then Some (Question.mk (Question.id q) (Question.text q) (Question.type q)
                   (Question.options q) (Some newAnswer) (Question.maxSelection q)
                 :: rest)
      else (q ::.) <$> setAnswer qId newAnswer rest
  end.

(** [updateQuestionAnswer(groupIndex, qId, newAnswer)] *)
Definition updateQuestionAnswer (groupIndex : nat) (qId newAnswer : string)
    (s : State) : option State :=
  match tempQuestionGroups s !! groupIndex with
  | None => None
  | Some group =>
      match setAnswer qId newAnswer (QuestionGroup.questions group) with
      | Some questions =>
          Some (withGroups
                  (<[groupIndex := withQuestions questions group]>
                     (tempQuestionGroups s)) s)
      | None => Some s
      end
  end.

(** [addHeadingToGroup(groupIndex)] *)
Definition addHeadingToGroup (groupIndex : nat) (s : State) : option State :=
  if negb (Js.truthy (Some (Js.trim (tempHeadingInput s)))) then Some s
  else
    match tempQuestionGroups s !! groupIndex with
    | None => None
    | Some group =>
        Some {| tempQuestionGroups :=
                  <[groupIndex :=
                      withHeadingList
                        (default [] (QuestionGroup.headingList group)
                         ++ [tempHeadingInput s]) group]> (tempQuestionGroups s);
                activeGroupIndex := activeGroupIndex s;
                tempQuestionText := tempQuestionText s;
                tempMcqOptions := tempMcqOptions s;
                tempOptionInput := tempOptionInput s;
                tempCorrectAnswer := tempCorrectAnswer s;
                tempMaxSelection := tempMaxSelection s;
                tempHeadingInput := "";
                tempMatchOptionInput := tempMatchOptionInput s |}
    end.

(** [removeHeadingFromGroup(groupIndex, headingIdx)] *)
Definition removeHeadingFromGroup (groupIndex headingIdx : nat) (s : State)
  : option State :=
  match tempQuestionGroups s !! groupIndex with
  | None => None
  | Some group =>
      match QuestionGroup.headingList group with
      | Some headings =>
          Some (withGroups
                  (<[groupIndex :=
                       withHeadingList (Js.spliceOut headingIdx headings) group]>
                     (tempQuestionGroups s)) s)
      | None => Some s
      end
  end.

End QuestionBuilder.

(** ** Editing an assignment (teacher portal and App) *)

Module AssignmentEditor.

(** [handleEditAssignment(assignment)] *)
Definition handleEditAssignment (assignment : Assignment.t)
    (s : TeacherPortal.State) : TeacherPortal.State :=
  let writingTaskType :=
    if bool_decide (Assignment.type assignment = WRITING)
       && negb (Js.truthy (Assignment.writingTaskType assignment))
    then Some "TASK_1" else Assignment.writingTaskType assignment in
  {| TeacherPortal.classes := TeacherPortal.classes s;
     TeacherPortal.selectedClassId := TeacherPortal.selectedClassId s;
     TeacherPortal.viewingGroupId := TeacherPortal.viewingGroupId s;
     TeacherPortal.showAssignmentModal := true;
     TeacherPortal.editingAssignmentId := Some (Assignment.id assignment);
     TeacherPortal.newAssignment :=
       PartialAssignment.mk (Some (Assignment.id assignment))
         (Some (Assignment.classId assignment)) (Assignment.groupId assignment)
         (Some (Assignment.title assignment)) (Some (Assignment.type assignment))
         (Some (Assignment.description assignment))
         (Some (Assignment.dueDate assignment)) (Assignment.timeLimit assignment)
         (Assignment.passageContent assignment)
         (Assignment.questionGroups assignment) (Assignment.videoUrl assignment)
         writingTaskType (Assignment.writingPrompt assignment)
         (Assignment.writingImage assignment) (Assignment.questions assignment);
     TeacherPortal.tempQuestionGroups :=
       default [] (Assignment.questionGroups assignment) |}.

(** [handleUpdateAssignment(assignment)] of [App]: the document written
    with [setDoc], which replaces the document of that identifier, and its
    identifier; [None] when nothing is written. *)
Definition handleUpdateAssignment (assignment : AssignmentData.t)
  : option (string * AssignmentData.t) :=
  if Js.truthy (Some (AssignmentData.id assignment))
  then Some (AssignmentData.id assignment, assignment) else None.

(** The assignment that the subscription to the store delivers for a
    document, [{ id: d.id, ...d.data() }]; [None] for a document without a
    type. *)
Definition loaded (doc : string * AssignmentData.t) : option Assignment.t :=
  let d := doc.2 in
  match AssignmentData.type d with
  | Some type =>
      Some (Assignment.mk doc.1 (AssignmentData.classId d)
              (AssignmentData.groupId d) (AssignmentData.title d) type
              (AssignmentData.description d) (AssignmentData.dueDate d)
              (AssignmentData.timeLimit d) (AssignmentData.passageContent d)
              (Some (AssignmentData.questionGroups d))
              (AssignmentData.videoUrl d) (AssignmentData.writingTaskType d)
              (AssignmentData.writingPrompt d) (AssignmentData.writingImage d)
              None)
  | None => None
  end.

End AssignmentEditor.

(** ** Saving a class and the events of its schedule *)

Module CalendarEvent.
Inductive EventType := CLASS | EXAM | DEADLINE | HOLIDAY.

Record t := mk {
  id : string;
  classId : string;
  title : string;
  date : string;
  startTime : option string;
  endTime : option string;
  type : EventType;
}.
End CalendarEvent.

Module ClassForm.

Inductive Effect :=
| alert (message : string)
| onUpdateClassSchedule (classId newName newScheduleString : string)
    (scheduleItems : list ScheduleSlot.t) (description : option string)
| onAddClass (classGroup : ClassGroup.t)
| onAddEvent (event : CalendarEvent.t).

Section WithClock.

(** [isoDate d] is [nextDate.toISOString().split('T')[0]] for the date
    whose local day is [d]; [today k] is the day of the call [new Date()]
    made for the slot [k], [now] the text of [Date.now()] when the class
    identifier is made and [eventNow k i] when the identifier of an event
    is made. *)
Variable isoDate : Z → string.
Variable today : nat → Z.
Variable now : string.
Variable eventNow : nat → nat → string.

(** The twelve weekly events made for the slot [k] of a new class. *)
Definition slotEvents (classId name : string) (k : nat) (slot : ScheduleSlot.t)
  : list CalendarEvent.t :=
  let nextDate := ClassSchedule.getNextDayOfWeek (today k) (ScheduleSlot.day slot) in
  (λ i : nat,
     CalendarEvent.mk
       ("evt_auto_" +:+ classId +:+ "_" +:+ ScheduleSlot.day slot +:+ "_"
        +:+ pretty i +:+ "_" +:+ eventNow k i)
       classId (name +:+ " (Class)")
       (isoDate (nextDate + 7 * Z.of_nat i))
       (Some (ScheduleSlot.startTime slot)) (Some (ScheduleSlot.endTime slot))
       CalendarEvent.CLASS) <$> seq 0 12.


End WithClock.




End ClassForm.

(** ** Deleting a class ([handleDeleteClass], App) *)

Module Session.
Record t := mk {
  id : string;
  classId : string;
  title : string;
  description : option string;
}.
End Session.

Module Material.
Record t := mk {
  id : string;
  sessionId : string;
  title : string;
  type : string;
  url : string;
}.
End Material.

(** The collections of the store. *)
Module Store.
Record t := mk {
  classes : list ClassGroup.t;
  events : list CalendarEvent.t;
  sessions : list Session.t;
  materials : list Material.t;
  assignments : list Assignment.t;
  assignmentGroups : list AssignmentGroup.t;
  submissions : list Submission.t;
  users : list User.t;  (* the documents with role STUDENT *)
}.

Inductive Collection :=
| Classes | Events | Sessions | Materials | Assignments | AssignmentGroups
| Submissions | Users.

(** The writes of a batch. *)
Inductive Write :=
| delete (collection : Collection) (id : string)
| updateEnrolled (id : string) (enrolledClassIds : list string)
| updateClass (id name schedule description : string)
| setEvent (event : CalendarEvent.t).

(** A collection without the document of an identifier. *)
Definition without {A} (getId : A → string) (id : string) (docs : list A)
  : list A :=
  filter (λ d, getId d ≠ id) docs.

(** The store after one write of a committed batch. *)
Definition apply (w : Write) (st : t) : t :=
  match w with
  | delete Classes i =>
      mk (without ClassGroup.id i (classes st)) (events st) (sessions st)
        (materials st) (assignments st) (assignmentGroups st) (submissions st)
        (users st)
  | delete Events i =>
      mk (classes st) (without CalendarEvent.id i (events st)) (sessions st)
        (materials st) (assignments st) (assignmentGroups st) (submissions st)
        (users st)
  | delete Sessions i =>
      mk (classes st) (events st) (without Session.id i (sessions st))
        (materials st) (assignments st) (assignmentGroups st) (submissions st)
        (users st)
  | delete Materials i =>
      mk (classes st) (events st) (sessions st)
        (without Material.id i (materials st)) (assignments st)
        (assignmentGroups st) (submissions st) (users st)
  | delete Assignments i =>
      mk (classes st) (events st) (sessions st) (materials st)
        (without Assignment.id i (assignments st)) (assignmentGroups st)
        (submissions st) (users st)
  | delete AssignmentGroups i =>
      mk (classes st) (events st) (sessions st) (materials st) (assignments st)
        (without AssignmentGroup.id i (assignmentGroups st)) (submissions st)
        (users st)
  | delete Submissions i =>
      mk (classes st) (events st) (sessions st) (materials st) (assignments st)
        (assignmentGroups st) (without Submission.id i (submissions st))
        (users st)
  | delete Users i =>
      mk (classes st) (events st) (sessions st) (materials st) (assignments st)
        (assignmentGroups st) (submissions st) (without User.id i (users st))
  | updateEnrolled i ids =>
      mk (classes st) (events st) (sessions st) (materials st) (assignments st)
        (assignmentGroups st) (submissions st)
        (UserStore.updated (i, ids) (users st))
  | updateClass i name schedule description =>
      mk ((λ c, if decide (ClassGroup.id c = i)
                then ClassGroup.mk i name schedule (Some description)
                else c) <$> classes st)
        (events st) (sessions st) (materials st) (assignments st)
        (assignmentGroups st) (submissions st) (users st)
  | setEvent event =>
      mk (classes st)
        (without CalendarEvent.id (CalendarEvent.id event) (events st)
         ++ [event])
        (sessions st) (materials st) (assignments st) (assignmentGroups st)
        (submissions st) (users st)
  end.

(** The store after a batch has been committed. *)
Definition commit (batch : list Write) (st : t) : t :=
  foldl (λ st w, apply w st) st batch.

End Store.

Module DeleteClass.
Import Store.

(** [handleDeleteClass(classId)]: the writes put in the batch.  The events,
    sessions, assignments and folders of the class are read from the store;
    the materials, submissions and students are those of the state of
    [App]. *)
Definition handleDeleteClass (classId : string) (store : Store.t)
    (materials : list Material.t) (submissions : list Submission.t)
    (students : list User.t) : list Write :=
  let eventsSnap :=
    filter (λ e, CalendarEvent.classId e = classId) (Store.events store) in
  let sessionsSnap :=
    filter (λ x, Session.classId x = classId) (Store.sessions store) in
  let sessionIds := Session.id <$> sessionsSnap in
  let classMaterialIds :=
    Material.id <$>
      filter (λ m, Js.includes (Material.sessionId m) sessionIds = true) materials in
  let assignmentsSnap :=
    filter (λ a, Assignment.classId a = classId) (Store.assignments store) in
  let assignmentIds := Assignment.id <$> assignmentsSnap in
  let groupsSnap :=
    filter (λ g, AssignmentGroup.classId g = classId)
      (Store.assignmentGroups store) in
  let classSubmissionIds :=
    Submission.id <$>
      filter (λ x, Js.includes (Submission.assignmentId x) assignmentIds = true)
        submissions in
  let classStudents :=
    filter (λ u, StudentViews.isEnrolled u classId = true) students in
  [delete Classes classId]
  ++ (delete Events ∘ CalendarEvent.id <$> eventsSnap)
  ++ (delete Sessions ∘ Session.id <$> sessionsSnap)
  ++ (delete Materials <$> classMaterialIds)
  ++ (delete Assignments ∘ Assignment.id <$> assignmentsSnap)
  ++ (delete AssignmentGroups ∘ AssignmentGroup.id <$> groupsSnap)
  ++ (delete Submissions <$> classSubmissionIds)
  ++ ((λ u, updateEnrolled (User.id u)
              (match User.enrolledClassIds u with
               | Some ids => filter (λ id, id ≠ classId) ids
               | None => []
               end)) <$> classStudents).

(** The store after the class has been deleted, when the state of [App] is
    that of the store. *)
Definition deleted (classId : string) (store : Store.t) : Store.t :=
  commit (handleDeleteClass classId store (Store.materials store)
            (Store.submissions store) (Store.users store)) store.

(** Every material belongs to a session of the store and every submission
    to an assignment of the store. *)
Definition linked (store : Store.t) : Prop :=
  Forall (λ m, Material.sessionId m ∈ Session.id <$> Store.sessions store)
    (Store.materials store)
  ∧ Forall (λ x, Submission.assignmentId x ∈ Assignment.id <$> Store.assignments store)
      (Store.submissions store).

(** The documents of a collection carry distinct identifiers. *)
Definition distinctIds (store : Store.t) : Prop :=
  NoDup (CalendarEvent.id <$> Store.events store)
  ∧ NoDup (Session.id <$> Store.sessions store)
  ∧ NoDup (Material.id <$> Store.materials store)
  ∧ NoDup (Assignment.id <$> Store.assignments store)
  ∧ NoDup (AssignmentGroup.id <$> Store.assignmentGroups store)
  ∧ NoDup (Submission.id <$> Store.submissions store)
  ∧ NoDup (User.id <$> Store.users store).

End DeleteClass.

(** ** Rendering a notes-completion group ([NotesCompletionRenderer],
    StudentPortal.tsx) *)

Module NotesCompletionRenderer.

(** The nodes put in place of a text node: a text node, or the wrapper of
    a question, which holds the number [globalIdx + 1] and the input of the
    question; the wrapper has the identifier [question-<globalIdx>]. *)
Inductive Node :=
| createTextNode (data : string)
| wrapper (globalIdx : nat) (questionId : string) (value : string).

(** [wrapper.id] *)
Definition wrapperId (globalIdx : nat) : string :=
  "question-" +:+ pretty globalIdx.

(** [span.innerText] *)
Definition number (globalIdx : nat) : string := pretty (globalIdx + 1).

Section Render.
Context (questions : list Question.t) (startGlobalIndex : nat)
        (answers : gmap string string).

(** The input of the question at [qIndex]. *)
Definition input (qIndex : nat) (q : Question.t) : Node :=
  wrapper (startGlobalIndex + qIndex) (Question.id q)
    (Js.orEmpty (answers !! Question.id q)).

(** What takes the place of the match [m0]: the input of the next
    question, or the match itself when the questions have run out. *)
Definition replacement (qIndex : nat) (m0 : string) : Node * nat :=
  match questions !! qIndex with
  | Some q => (input qIndex q, S qIndex)
  | None => (createTextNode m0, qIndex)
  end.

(** [text.substring(lastIndex, match.index)], appended when it is not
    empty. *)
Definition textBetween (between : string) : list Node :=
  match between with
  | "" => []
  | _ => [createTextNode between]
  end.

(** The loop over [regex.exec(text)].  [between] is the text from
    [lastIndex] to the current position and [skip] counts the characters of
    the previous match that are still ahead.  Returns the children of the
    fragment and the new [qIndex]. *)
Fixpoint execLoop (skip : nat) (between : string) (text : string)
    (qIndex : nat) : list Node * nat :=
  match text with
  | "" => (textBetween between, qIndex)
  | String c text' =>
      match skip with
      | S k => execLoop k between text' qIndex
      | 0 =>
          if Ascii.eqb c "[" then
            match TeacherPortal.closeBracket text' with
            | Some (inner, _) =>
                let '(node, qIndex') :=
                  replacement qIndex ("[" +:+ inner +:+ "]") in
                let '(fragment, qIndex'') :=
                  execLoop (S (String.length inner)) "" text' qIndex' in
                (textBetween between ++ node :: fragment, qIndex'')
            | None => execLoop 0 (between +:+ String c "") text' qIndex
            end
          else execLoop 0 (between +:+ String c "") text' qIndex
      end
  end.

(** [node.nodeValue.match(/\[(.*?)\]/)] *)
Definition hasMatch (text : string) : bool :=
  match TeacherPortal.matchAll text with
  | [] => false
  | _ => true
  end.

(** The text nodes of the container after the effect has run, from the
    values of its text nodes in document order: a text node with a match is
    replaced by its fragment, the others stay. *)
Fixpoint renderFrom (qIndex : nat) (textNodes : list string) : list Node :=
  match textNodes with
  | [] => []
  | text :: textNodes' =>
      if hasMatch text then
        let '(fragment, qIndex') := execLoop 0 "" text qIndex in
        fragment ++ renderFrom qIndex' textNodes'
      else createTextNode text :: renderFrom qIndex textNodes'
  end.

Definition render (textNodes : list string) : list Node :=
  renderFrom 0 textNodes.

(** The questions that get an input when [n] matches are met from
    [qIndex] on. *)
Definition served (qIndex n : nat) : list Question.t :=
  take n (drop qIndex questions).

End Render.

Definition isInput (n : Node) : bool :=
  match n with
  | wrapper _ _ _ => true
  | createTextNode _ => false
  end.

(** [textContent] of the container: the values of its text nodes put
    together. *)
Definition textContent (textNodes : list string) : string :=
  foldr String.append "" textNodes.

(** The inputs among the nodes ([querySelectorAll('input')]). *)
Definition inputs (nodes : list Node) : list Node :=
  filter (λ n, isInput n = true) nodes.

(** The text of the nodes when the wrappers are replaced, from left to
    right, by the given texts. *)
Fixpoint restore (ms : list string) (nodes : list Node) : string :=
  match nodes with
  | [] => ""
  | createTextNode s :: nodes' => s +:+ restore ms nodes'
  | wrapper _ _ _ :: nodes' =>
      match ms with
      | m :: ms' => m +:+ restore ms' nodes'
      | [] => restore [] nodes'
      end
  end.

End NotesCompletionRenderer.

(** ** The question panel of a reading assignment ([AssignmentViewer],
    StudentPortal.tsx) *)

Module ReadingPanel.

(** What the panel renders: the header of a group, a question rendered by
    [renderSingleQuestion], under the identifier [question-<globalIndex>],
    or the notes of a group handed to [NotesCompletionRenderer]. *)
Inductive Element :=
| renderGroupHeader (group : QuestionGroup.t) (startIdx endIdx : Z)
| renderSingleQuestion (q : Question.t) (idx globalIndex : nat)
    (group : QuestionGroup.t)
| notesCompletionRenderer (content : string) (questions : list Question.t)
    (startGlobalIndex : nat).





(** The questions an element shows, each with the index it is shown
    under: [globalIndex], or [startGlobalIndex] plus the position among the
    questions of the notes. *)
Definition shown (e : Element) : list (nat * Question.t) :=
  match e with
  | renderGroupHeader _ _ _ => []
  | renderSingleQuestion q _ globalIndex _ => [(globalIndex, q)]
  | notesCompletionRenderer _ questions startGlobalIndex =>
      imap (λ i q, (startGlobalIndex + i, q)) questions
  end.


End ReadingPanel.

(** ** Changing the schedule of a class ([handleUpdateClassSchedule], App) *)

Module UpdateClassSchedule.
Import Store.

Section WithClock.

(** [todayIso] is [new Date().toISOString().split('T')[0]], [today k] the
    day of the call [new Date()] made for the slot [k], [isoDate d] the
    text [nextDate.toISOString().split('T')[0]] for the date whose local day
    is [d], and [newId k i] the identifier of the document made by
    [doc(collection(db, 'events'))] for the week [i] of the slot [k]. *)
Variable isoDate : Z → string.
Variable todayIso : string.
Variable today : nat → Z.
Variable newId : nat → nat → string.

(** [e.classId === classId && e.date >= today && e.type === 'CLASS'] *)
Definition isFutureEvent (classId : string) (e : CalendarEvent.t) : bool :=
  String.eqb (CalendarEvent.classId e) classId
  && String.leb todayIso (CalendarEvent.date e)
  && match CalendarEvent.type e with
     | CalendarEvent.CLASS => true
     | _ => false
     end.

(** The twelve weekly events set for the slot [k]. *)
Definition slotEvents (classId newName : string) (k : nat)
    (slot : ScheduleSlot.t) : list CalendarEvent.t :=
  let nextDate := ClassSchedule.getNextDayOfWeek (today k) (ScheduleSlot.day slot) in
  (λ i : nat,
     CalendarEvent.mk (newId k i) classId (newName +:+ " (Class)")
       (isoDate (nextDate + 7 * Z.of_nat i))
       (Some (ScheduleSlot.startTime slot)) (Some (ScheduleSlot.endTime slot))
       CalendarEvent.CLASS) <$> seq 0 12.

(** The events set by the batch. *)
Definition regenerated (classId newName : string)
    (scheduleItems : list ScheduleSlot.t) : list CalendarEvent.t :=
  concat (imap (slotEvents classId newName) scheduleItems).

(** [handleUpdateClassSchedule(classId, newName, newScheduleString,
    scheduleItems, description)]: the writes put in the batch; [events] is
    the state of [App]. *)
Definition handleUpdateClassSchedule (classId newName newScheduleString : string)
    (scheduleItems : list ScheduleSlot.t) (description : option string)
    (events : list CalendarEvent.t) : list Write :=
  let futureEvents := filter (λ e, isFutureEvent classId e = true) events in
  updateClass classId newName newScheduleString (Js.orEmpty description)
  :: (delete Events ∘ CalendarEvent.id <$> futureEvents)
  ++ (setEvent <$> regenerated classId newName scheduleItems).

End WithClock.

End UpdateClassSchedule.

(** * Properties *)

(** ** Facts about the string and array primitives *)

Section SortFacts.
Context {A : Type} (compareFn : A → A → comparison).

Lemma insert_sorted_Permutation x l :
  Js.insert_sorted compareFn x l ≡ₚ x :: l.
Proof.
  induction l as [|y l IH]; simpl; [done|].
  destruct (compareFn x y); try done.
  rewrite IH. apply Permutation_swap.
Qed.

Lemma sortBy_Permutation l : Js.sortBy compareFn l ≡ₚ l.
Proof.
  induction l as [|x l IH]; simpl; [done|].
  by rewrite insert_sorted_Permutation, IH.
Qed.

Lemma sortBy_length l : length (Js.sortBy compareFn l) = length l.
Proof. by rewrite sortBy_Permutation. Qed.

Local Abbreviation cmp_le := (Js.cmp_le compareFn).

Hypothesis cmp_total : ∀ x y, compareFn x y = Gt → compareFn y x ≠ Gt.

Lemma insert_sorted_Sorted x l :
  Sorted cmp_le l → Sorted cmp_le (Js.insert_sorted compareFn x l).
Proof.
  induction 1 as [|y l Hl IH Hhd]; simpl; [by repeat constructor|].
  destruct (compareFn x y) eqn:Hxy.
  - constructor; [by constructor|]. constructor. unfold Js.cmp_le. by rewrite Hxy.
  - constructor; [by constructor|]. constructor. unfold Js.cmp_le. by rewrite Hxy.
  - constructor; [done|].
    destruct Hhd as [|z l Hyz]; simpl.
    + constructor. by apply cmp_total.
    + destruct (compareFn x z); constructor; try done; by apply cmp_total.
Qed.

Lemma sortBy_Sorted l : Sorted cmp_le (Js.sortBy compareFn l).
Proof.
  induction l as [|x l IH]; simpl; [constructor|].
  by apply insert_sorted_Sorted.
Qed.

Lemma sortBy_sorted_id l : Sorted cmp_le l → Js.sortBy compareFn l = l.
Proof.
  induction 1 as [|x l Hl IH Hhd]; simpl; [done|].
  rewrite IH. destruct Hhd as [|y l Hxy]; simpl; [done|].
  unfold Js.cmp_le in Hxy. by destruct (compareFn x y).
Qed.
End SortFacts.

Lemma string_cmp_le x y : Js.cmp_le String.compare x y ↔ String.le x y.
Proof.
  unfold Js.cmp_le, String.le, String.leb.
  destruct (String.compare x y); simpl; split; intros H.
  all: first [exact I | discriminate | contradiction | congruence].
Qed.

Lemma string_compare_total x y :
  String.compare x y = Gt → String.compare y x ≠ Gt.
Proof. rewrite (String.compare_antisym x y). by destruct (String.compare y x). Qed.

Lemma Sorted_iff {A} (R1 R2 : relation A) l :
  (∀ x y, R1 x y ↔ R2 x y) → Sorted R1 l ↔ Sorted R2 l.
Proof.
  intros HR. split; induction 1 as [|x l Hl IH Hhd]; constructor; try done;
    destruct Hhd; constructor; by apply HR.
Qed.

Lemma sort_Sorted l : Sorted String.le (Js.sort l).
Proof.
  eapply Sorted_iff; [intros; symmetry; apply string_cmp_le|].
  apply sortBy_Sorted, string_compare_total.
Qed.

Lemma sort_Permutation l : Js.sort l ≡ₚ l.
Proof. apply sortBy_Permutation. Qed.

Lemma sort_sorted_id l : Sorted String.le l → Js.sort l = l.
Proof.
  intros Hl. apply sortBy_sorted_id.
  eapply Sorted_iff; [apply string_cmp_le|done].
Qed.

Lemma sort_unique l k : Sorted String.le l → l ≡ₚ k → Js.sort k = l.
Proof.
  intros Hl Hlk. apply (Sorted_unique String.le); [apply sort_Sorted|done|].
  by rewrite sort_Permutation.
Qed.

Lemma includes_elem_of x l : Js.includes x l = true ↔ x ∈ l.
Proof.
  unfold Js.includes. rewrite existsb_exists. split.
  - intros (y & Hy & ->%String.eqb_eq). by apply list_elem_of_In.
  - intros Hx. exists x. split; [by apply list_elem_of_In|apply String.eqb_refl].
Qed.

(** ** Splitting and joining *)

Local Abbreviation noComma := Js.noComma.

Lemma append_cons c s t : String c s +:+ t = String c (s +:+ t).
Proof. reflexivity. Qed.

Lemma append_nil_l t : "" +:+ t = t.
Proof. reflexivity. Qed.

Lemma join_cons2 sep x y l :
  Js.join sep (x :: y :: l) = x +:+ sep +:+ Js.join sep (y :: l).
Proof. reflexivity. Qed.

Lemma split_noComma x : noComma x → Js.split "," x = [x].
Proof.
  unfold Js.noComma. induction x as [|c x IH]; simpl; [done|].
  intros [Hc Hx]%andb_prop. apply negb_true_iff in Hc. rewrite Hc.
  by rewrite IH.
Qed.

Lemma split_append x s :
  noComma x → Js.split "," (x +:+ String "," s) = x :: Js.split "," s.
Proof.
  unfold Js.noComma. induction x as [|c x IH]; simpl; [done|].
  intros [Hc Hx]%andb_prop. apply negb_true_iff in Hc.
  rewrite Hc. by rewrite IH.
Qed.

Lemma split_join l :
  l ≠ [] → Forall noComma l → Js.split "," (Js.join "," l) = l.
Proof.
  induction l as [|x [|y l] IH]; intros Hne Hl; [done| |].
  - simpl. apply split_noComma. by inversion Hl.
  - rewrite join_cons2. inversion Hl as [|?? Hx Hl']; subst.
    change ("," +:+ Js.join "," (y :: l)) with (String "," (Js.join "," (y :: l))).
    rewrite split_append by done. f_equal. by apply IH.
Qed.

Lemma isLetter_noComma x : Encoding.isLetter x → noComma x.
Proof.
  intros (c & -> & Hc). unfold noComma. simpl.
  rewrite andb_true_r. apply negb_true_iff. by apply Ascii.eqb_neq.
Qed.

Lemma join_letters_nonempty l :
  l ≠ [] → Forall Encoding.isLetter l → Js.join "," l ≠ "".
Proof.
  destruct l as [|x [|y l]]; intros Hne Hl; [done| |];
    inversion Hl as [|?? (c & -> & _) _]; subst; done.
Qed.

Lemma currentSelection_join l :
  Forall Encoding.isLetter l →
  TeacherPortal.currentSelection (Some (Js.join "," l)) = l.
Proof.
  intros Hl. unfold TeacherPortal.currentSelection. simpl.
  destruct (decide (l = [])) as [->|Hne]; [done|].
  pose proof (join_letters_nonempty l Hne Hl) as Hj.
  apply String.eqb_neq in Hj. rewrite Hj. simpl.
  apply split_join; [done|].
  eapply Forall_impl; [done|]. apply isLetter_noComma.
Qed.

(** ** Strict order on strings *)

Lemma string_compare_refl s : String.compare s s = Eq.
Proof.
  pose proof (String.compare_antisym s s) as H.
  destruct (String.compare s s); simpl in H; congruence.
Qed.

Lemma string_compare_Lt a b :
  String.compare a b = Lt ↔ String.le a b ∧ a ≠ b.
Proof.
  unfold String.le, String.leb. split.
  - intros H. rewrite H. split; [done|].
    intros ->. by rewrite string_compare_refl in H.
  - intros [Hle Hne]. destruct (String.compare a b) eqn:Hc; [|done..].
    by apply String.compare_eq_iff in Hc.
Qed.

Global Instance string_lt_trans :
  Transitive (λ a b, String.compare a b = Lt).
Proof.
  intros a b c [Hab Hne1]%string_compare_Lt [Hbc Hne2]%string_compare_Lt.
  apply string_compare_Lt. split; [by etrans|].
  intros ->. apply Hne1. by apply (anti_symm String.le).
Qed.

Lemma strictlySorted_Sorted l :
  Encoding.strictlySorted l → Sorted String.le l.
Proof.
  induction 1 as [|x l Hl IH Hhd]; constructor; [done|].
  destruct Hhd as [|y l Hxy]; constructor.
  by apply string_compare_Lt in Hxy as [? _].
Qed.

Lemma strictlySorted_NoDup l : Encoding.strictlySorted l → NoDup l.
Proof.
  intros Hl. apply Sorted_StronglySorted in Hl; [|apply _].
  induction Hl as [|x l Hl IH Hall]; constructor; [|done].
  intros Hx. rewrite Forall_forall in Hall. specialize (Hall x Hx).
  by rewrite string_compare_refl in Hall.
Qed.

Lemma Sorted_NoDup_strictlySorted l :
  Sorted String.le l → NoDup l → Encoding.strictlySorted l.
Proof.
  induction 1 as [|x l Hl IH Hhd]; intros Hnd; [constructor|].
  inversion Hnd as [|?? Hx Hnd']; subst. constructor; [by apply IH|].
  destruct Hhd as [|y l Hxy]; constructor.
  apply string_compare_Lt. split; [done|]. intros ->. apply Hx. by left.
Qed.

Lemma Sorted_le_filter (P : string → Prop) `{∀ x, Decision (P x)} l :
  Sorted String.le l → Sorted String.le (filter P l).
Proof.
  intros Hl. apply Sorted_StronglySorted in Hl; [|apply _].
  apply StronglySorted_Sorted.
  induction Hl as [|x l Hl IH Hall]; [constructor|].
  rewrite filter_cons. case_decide; [|done].
  constructor; [done|]. rewrite Forall_forall in *.
  intros y [_ Hy]%list_elem_of_filter. by apply Hall.
Qed.

(** ** The multi-select toggle *)

Section Toggle.
Import TeacherPortal Encoding.

Variable letter : string.
Hypothesis letter_ok : isLetter letter.

Lemma filter_ne_id (l : list string) :
  letter ∉ l → filter (λ y, y ≠ letter) l = l.
Proof.
  induction l as [|y l IH]; intros Hx; [done|].
  rewrite filter_cons. rewrite not_elem_of_cons in Hx. destruct Hx as [Hne Hx].
  case_decide as Hd; [by rewrite IH|]. by destruct Hd.
Qed.

Lemma remove_add_Permutation (l : list string) :
  NoDup l → letter ∈ l → l ≡ₚ filter (λ y, y ≠ letter) l ++ [letter].
Proof.
  intros Hnd Hx. apply NoDup_Permutation; [done| |].
  - apply NoDup_app. split_and!.
    + by apply NoDup_filter.
    + intros y [Hy _]%list_elem_of_filter ->%list_elem_of_singleton. done.
    + apply NoDup_singleton.
  - intros y. rewrite elem_of_app, list_elem_of_filter, list_elem_of_singleton.
    destruct (decide (y = letter)) as [->|Hne]; [tauto|].
    split; [intros Hy; left; by split|intros [[_ Hy]|Hy]; [done|by destruct Hne]].
Qed.

(** Toggling a selected letter removes it. *)
Lemma toggle_remove (st : option string) l :
  currentSelection st = l → Forall isLetter l → strictlySorted l →
  letter ∈ l →
  let l' := filter (λ y, y ≠ letter) l in
  toggleMcqCorrectAnswer letter st
    = (if decide (l' = []) then None else Some (Js.join "," l'))
  ∧ currentSelection (toggleMcqCorrectAnswer letter st) = l'
  ∧ Forall isLetter l' ∧ strictlySorted l' ∧ letter ∉ l'.
Proof.
  intros Hcur Hlet Hs Hx l'.
  assert (Forall isLetter l') as Hlet'.
  { rewrite Forall_forall in *. intros y [_ Hy]%list_elem_of_filter. auto. }
  assert (Sorted String.le l') as Hs'.
  { by apply Sorted_le_filter, strictlySorted_Sorted. }
  assert (toggleMcqCorrectAnswer letter st
          = if decide (l' = []) then None else Some (Js.join "," l')) as Heq.
  { unfold toggleMcqCorrectAnswer. rewrite Hcur.
    apply includes_elem_of in Hx. rewrite Hx. fold l'.
    destruct l' as [|y k] eqn:Hl'; [done|].
    rewrite bool_decide_true by done. rewrite decide_False by done.
    by rewrite sort_sorted_id. }
  split_and!; try done.
  - rewrite Heq. case_decide as Hl'; [by rewrite Hl'|].
    by apply currentSelection_join.
  - apply Sorted_NoDup_strictlySorted; [done|].
    by apply NoDup_filter, strictlySorted_NoDup.
  - by intros [? _]%list_elem_of_filter.
Qed.

(** Toggling an unselected letter adds it at its sorted position. *)
Lemma toggle_add (st : option string) l :
  currentSelection st = l → Forall isLetter l → strictlySorted l →
  letter ∉ l →
  let l' := Js.sort (l ++ [letter]) in
  toggleMcqCorrectAnswer letter st = Some (Js.join "," l')
  ∧ currentSelection (toggleMcqCorrectAnswer letter st) = l'
  ∧ Forall isLetter l' ∧ strictlySorted l' ∧ letter ∈ l'
  ∧ filter (λ y, y ≠ letter) l' = l.
Proof.
  intros Hcur Hlet Hs Hx l'.
  assert (l' ≡ₚ l ++ [letter]) as Hp by apply sort_Permutation.
  assert (Forall isLetter l') as Hlet'.
  { rewrite Hp. apply Forall_app. split; [done|]. by constructor. }
  assert (toggleMcqCorrectAnswer letter st = Some (Js.join "," l')) as Heq.
  { unfold toggleMcqCorrectAnswer. rewrite Hcur.
    destruct (Js.includes letter l) eqn:Hinc; [|done].
    by apply includes_elem_of in Hinc. }
  split_and!; try done.
  - rewrite Heq. by apply currentSelection_join.
  - apply Sorted_NoDup_strictlySorted; [apply sort_Sorted|].
    rewrite Hp. apply NoDup_app. split_and!.
    + by apply strictlySorted_NoDup.
    + by intros y Hy ->%list_elem_of_singleton.
    + apply NoDup_singleton.
  - rewrite Hp. set_solver.
  - apply (Sorted_unique String.le).
    + apply Sorted_le_filter, sort_Sorted.
    + by apply strictlySorted_Sorted.
    + rewrite Hp, filter_app, filter_ne_id by done.
      rewrite filter_cons, decide_False by (by intros ?).
      by rewrite filter_nil, app_nil_r.
Qed.

Lemma wellEncoded_selection st :
  wellEncoded st →
  ∃ l, currentSelection st = l ∧ Forall isLetter l ∧ strictlySorted l
       ∧ (st = None ∨ st = Some (Js.join "," l)).
Proof.
  intros [->|(l & Hlet & Hs & ->)].
  - exists []. split_and!; [done|constructor|constructor|by left].
  - exists l. split_and!; [by apply currentSelection_join|done|done|by right].
Qed.

End Toggle.

(** C10.  The multi-select toggle keeps the answer key well encoded:
    from [null] or the comma-joined string of a sorted duplicate-free list
    of letters, toggling a letter gives [null] or such a string again.
    Toggling the same letter twice restores the selection, and restores the
    stored value itself unless that was the empty string (the empty
    selection is then stored as [null]). *)
Theorem toggleMcqCorrectAnswer_encoding (letter : string) (st : option string) :
  Encoding.isLetter letter → Encoding.wellEncoded st →
  Encoding.wellEncoded (TeacherPortal.toggleMcqCorrectAnswer letter st)
  ∧ TeacherPortal.currentSelection
      (TeacherPortal.toggleMcqCorrectAnswer letter
         (TeacherPortal.toggleMcqCorrectAnswer letter st))
    = TeacherPortal.currentSelection st
  ∧ (st ≠ Some "" →
     TeacherPortal.toggleMcqCorrectAnswer letter
       (TeacherPortal.toggleMcqCorrectAnswer letter st) = st).
Proof.
  intros Hletter (l & Hcur & Hlet & Hs & Hst)%wellEncoded_selection.
  destruct (decide (letter ∈ l)) as [Hin|Hnin].
  - destruct (toggle_remove letter st l Hcur Hlet Hs Hin)
      as (Heq & Hcur' & Hlet' & Hs' & Hnin').
    destruct (toggle_add letter Hletter _ _ Hcur' Hlet' Hs' Hnin')
      as (Heq2 & Hcur2 & _).
    assert (Js.sort (filter (λ y, y ≠ letter) l ++ [letter]) = l) as Hback.
    { apply sort_unique; [by apply strictlySorted_Sorted|].
      apply remove_add_Permutation; [by apply strictlySorted_NoDup|done]. }
    rewrite Hback in Heq2, Hcur2. split_and!.
    + rewrite Heq. case_decide; [by left|]. right. eauto.
    + by rewrite Hcur2, Hcur.
    + intros _. rewrite Heq2. destruct Hst as [-> | ->]; [|done].
      unfold TeacherPortal.currentSelection in Hcur. simpl in Hcur.
      subst l. by apply elem_of_nil in Hin.
  - destruct (toggle_add letter Hletter st l Hcur Hlet Hs Hnin)
      as (Heq & Hcur' & Hlet' & Hs' & Hin' & Hfil).
    destruct (toggle_remove letter _ _ Hcur' Hlet' Hs' Hin')
      as (Heq2 & Hcur2 & _).
    rewrite Hfil in Heq2, Hcur2. split_and!.
    + rewrite Heq. right. eauto.
    + by rewrite Hcur2, Hcur.
    + intros Hne. rewrite Heq2. case_decide as Hl.
      * rewrite Hl in Hst. destruct Hst as [-> | ->]; [done|]. by destruct Hne.
      * destruct Hst as [-> | ->]; [|done].
        unfold TeacherPortal.currentSelection in Hcur. by simpl in Hcur.
Qed.

Lemma toggleMcqCorrectAnswer_encoding_witness :
  Encoding.wellEncoded (TeacherPortal.toggleMcqCorrectAnswer "A" (Some "B,C"))
  ∧ TeacherPortal.toggleMcqCorrectAnswer "A"
      (TeacherPortal.toggleMcqCorrectAnswer "A" (Some "B,C")) = Some "B,C".
Proof.
  assert (Encoding.isLetter "A") as HA.
  { exists "A"%char. split; [reflexivity|discriminate]. }
  assert (Encoding.wellEncoded (Some "B,C")) as HBC.
  { right. exists ["B"; "C"]. split_and!; [|repeat constructor|reflexivity].
    repeat constructor.
    - exists "B"%char. split; [reflexivity|discriminate].
    - exists "C"%char. split; [reflexivity|discriminate]. }
  destruct (toggleMcqCorrectAnswer_encoding "A" (Some "B,C") HA HBC)
    as (Hwf & _ & Hback).
  split; [exact Hwf|]. apply Hback. discriminate.
Defined.

(** ** Trimming and lower-casing *)





(** ** Normalised multi-select answers *)

Lemma split_nonempty sep s : Js.split sep s ≠ [].
Proof.
  destruct s as [|c s]; simpl; [done|].
  destruct (Ascii.eqb c sep); [done|]. by destruct (Js.split sep s).
Qed.





(** ** The grading loop *)

Section Grading.
Import StudentPortal.
Variable answers : gmap string string.

Lemma isMultiSelect_rule q :
  isMultiSelect q = true ↔ GradingSpec.ruleOf q = GradingSpec.MultiSelect.
Proof.
  unfold isMultiSelect, GradingSpec.ruleOf.
  destruct (decide (Question.type q = "MCQ"
                    ∧ (1 < default 1 (Question.maxSelection q))%Z))
    as [[Ht Hn]|Hno].
  - split; [done|intros _]. rewrite Ht. simpl.
    destruct (Question.maxSelection q) as [n|]; simpl in *; [|lia].
    destruct (Z.eqb_spec n 0); [lia|]. by apply Z.ltb_lt.
  - split; [|by case_decide]. intros [Ht Hn]%andb_prop. destruct Hno.
    apply String.eqb_eq in Ht. apply Z.ltb_lt in Hn. split; [done|].
    destruct (Question.maxSelection q) as [n|]; simpl in *; [|lia].
    destruct (Z.eqb_spec n 0); lia.
Qed.

(** The comparison made by the loop is the one the contract names. *)
Lemma compareAnswers_agree q s c :
  compareAnswers q s c = true ↔ GradingSpec.agree q s c.
Proof.
  unfold compareAnswers, GradingSpec.agree.
  pose proof (isMultiSelect_rule q) as Hm.
  destruct (isMultiSelect q).
  - rewrite (proj1 Hm eq_refl). apply String.eqb_eq.
  - assert (GradingSpec.ruleOf q ≠ GradingSpec.MultiSelect) as Hne.
    { intros Hr. by apply Hm in Hr. }
    unfold GradingSpec.ruleOf in *. case_decide; [done|].
    destruct (String.eqb_spec (Question.type q) "FILL_IN_BLANKS") as [Hf|Hf];
      simpl.
    { rewrite decide_True by by left. apply String.eqb_eq. }
    destruct (String.eqb_spec (Question.type q) "NOTES_COMPLETION") as [Hn|Hn].
    { rewrite decide_True by by right. apply String.eqb_eq. }
    rewrite decide_False by (by intros [?|?]). apply String.eqb_eq.
Qed.

Lemma gradeStep_report_other st q i :
  i ≠ Question.id q → report (gradeStep answers st q) !! i = report st !! i.
Proof. intros Hi. simpl. by rewrite lookup_insert_ne. Qed.

Lemma foldl_gradeStep_report_notin qs st i :
  i ∉ Question.id <$> qs →
  report (foldl (gradeStep answers) st qs) !! i = report st !! i.
Proof.
  revert st. induction qs as [|q qs IH]; intros st Hi; [done|].
  rewrite fmap_cons, not_elem_of_cons in Hi. destruct Hi as [Hne Hi].
  simpl foldl. rewrite IH by done. by apply gradeStep_report_other.
Qed.

(** The entry stored under an identifier is the result of the last
    question carrying it. *)
Lemma gradeAll_report_last pre q post :
  Question.id q ∉ Question.id <$> post →
  report (gradeAll answers (pre ++ q :: post)) !! Question.id q
    = Some (gradeQuestion answers q).
Proof.
  intros Hq. unfold gradeAll. rewrite foldl_app. simpl foldl.
  rewrite foldl_gradeStep_report_notin by done.
  simpl. by rewrite lookup_insert_eq.
Qed.


Lemma foldl_gradeStep_correctCount qs st :
  correctCount (foldl (gradeStep answers) st qs)
    = correctCount st
      + length (filter (λ q, QuestionResult.isCorrect (gradeQuestion answers q) = true) qs).
Proof.
  revert st. induction qs as [|x qs IH]; intros st; simpl foldl.
  - rewrite filter_nil. simpl. lia.
  - rewrite IH, filter_cons.
    change (correctCount (gradeStep answers st x))
      with (if QuestionResult.isCorrect (gradeQuestion answers x)
            then S (correctCount st) else correctCount st).
    destruct (QuestionResult.isCorrect (gradeQuestion answers x)).
    + rewrite decide_True by done. simpl. lia.
    + rewrite decide_False by done. lia.
Qed.
End Grading.

Section Submit.
Import StudentPortal.

Lemma autoGrade_graded a answers :
  Assignment.type a = READING ∨ Assignment.type a = LISTENING →
  autoGrade a answers
    = (GRADED,
       Some (gradeString (correctCount (gradeAll answers (allQuestions a)))
                         (length (allQuestions a))),
       Some (report (gradeAll answers (allQuestions a)))).
Proof. intros Ht. unfold autoGrade. by rewrite bool_decide_true. Qed.

Lemma autoGrade_ungraded a answers :
  Assignment.type a = WRITING ∨ Assignment.type a = SPEAKING →
  autoGrade a answers = (SUBMITTED, None, None).
Proof.
  intros Ht. unfold autoGrade. rewrite bool_decide_false; [done|].
  intros [H|H]; destruct Ht as [Ht|Ht]; congruence.
Qed.

Lemma handleSubmit_selected submissionId user metadata s a :
  selectedAssignment s = Some a →
  ∃ s', handleSubmit submissionId user metadata s
        = ([buildSubmission submissionId user a (answers s)
              (transcriptions s) metadata], s').
Proof. intros Ha. unfold handleSubmit. rewrite Ha. eauto. Qed.

Lemma buildSubmission_fields submissionId user a answers trs metadata :
  Submission.status (buildSubmission submissionId user a answers trs metadata)
    = (autoGrade a answers).1.1
  ∧ Submission.grade (buildSubmission submissionId user a answers trs metadata)
    = (autoGrade a answers).1.2
  ∧ Submission.report (buildSubmission submissionId user a answers trs metadata)
    = (autoGrade a answers).2.
Proof. unfold buildSubmission. by destruct (autoGrade a answers) as [[??]?]. Qed.
End Submit.

(** ** Multi-select answers are compared as multisets *)

Lemma every_trimStart p s :
  Js.every p s = true → Js.every p (Js.trimStart s) = true.
Proof.
  induction s as [|c s IH]; simpl; [done|].
  intros [Hc Hs]%andb_prop. destruct (Js.isWhiteSpace c); [auto|].
  simpl. by rewrite Hc, Hs.
Qed.

Lemma every_trimEnd p s :
  Js.every p s = true → Js.every p (Js.trimEnd s) = true.
Proof.
  induction s as [|c s IH]; simpl; [done|].
  intros [Hc Hs]%andb_prop. specialize (IH Hs).
  destruct (Js.trimEnd s) as [|d t].
  - destruct (Js.isWhiteSpace c); simpl; [done|by rewrite Hc].
  - simpl in *. by rewrite Hc, IH.
Qed.

Lemma trim_noComma s : Js.noComma s → Js.noComma (Js.trim s).
Proof. intros Hs. by apply every_trimEnd, every_trimStart. Qed.

Lemma split_all_noComma s : Forall Js.noComma (Js.split "," s).
Proof.
  induction s as [|c s IH]; simpl; [by repeat constructor|].
  destruct (Ascii.eqb c ",") eqn:Hc; [by constructor|].
  pose proof (split_nonempty "," s) as Hne.
  destruct (Js.split "," s) as [|w ws]; [done|].
  inversion IH as [|?? Hw Hws]; subst. constructor; [|done].
  unfold Js.noComma in *. simpl. by rewrite Hc, Hw.
Qed.

Lemma trimmed_elements_noComma s :
  Forall Js.noComma (Js.trim <$> Js.split "," s).
Proof.
  apply Forall_fmap. eapply Forall_impl; [apply split_all_noComma|].
  intros x Hx. by apply trim_noComma.
Qed.

(** Two answers normalise to the same string exactly when their trimmed
    elements are the same up to order. *)
Lemma normalise_Permutation s c :
  GradingSpec.normalise s = GradingSpec.normalise c
  ↔ Js.trim <$> Js.split "," s ≡ₚ Js.trim <$> Js.split "," c.
Proof.
  unfold GradingSpec.normalise.
  set (A := Js.trim <$> Js.split "," s). set (B := Js.trim <$> Js.split "," c).
  assert (∀ x, Js.sort (Js.trim <$> Js.split "," x) ≠ []) as Hne.
  { intros x Hx. apply (f_equal length) in Hx.
    unfold Js.sort in Hx. rewrite sortBy_length, length_fmap in Hx.
    pose proof (split_nonempty "," x). by destruct (Js.split "," x). }
  assert (∀ x, Forall Js.noComma (Js.sort (Js.trim <$> Js.split "," x))) as Hnc.
  { intros x. rewrite sort_Permutation. apply trimmed_elements_noComma. }
  split.
  - intros Heq. apply (f_equal (Js.split ",")) in Heq.
    rewrite !split_join in Heq by (apply Hne || apply Hnc).
    by rewrite <- (sort_Permutation A), <- (sort_Permutation B), Heq.
  - intros Hp. f_equal. apply sort_unique; [apply sort_Sorted|].
    by rewrite sort_Permutation.
Qed.

(** The scenarios of the contract. *)
Example multiSelect_D_A :
  StudentPortal.compareAnswers
    (Question.mk "q" "t" "MCQ" (Some ["w"; "x"; "y"; "z"]) (Some "A,D") (Some 2%Z))
    "D,A" "A,D" = true.
Proof. reflexivity. Qed.

Example textFill_Paris :
  StudentPortal.compareAnswers
    (Question.mk "q" "t" "FILL_IN_BLANKS" None (Some "Paris") None)
    "paris" "Paris" = true.
Proof. reflexivity. Qed.

(** C1.  In a graded READING or LISTENING submission the report entry of a
    question holds the trimmed student answer and the trimmed key, and
    [isCorrect] is decided by the rule of the question's type: equality of
    the split, trimmed, sorted and rejoined strings for a multi-select MCQ,
    equality of the lower-cased strings for FILL_IN_BLANKS and
    NOTES_COMPLETION, plain equality otherwise.  (The entry stored under
    an identifier is that of the last question carrying it.) *)
Theorem handleSubmit_isCorrect_per_type
    (submissionId : string) (user : User.t)
    (metadata : option SubmissionMetadata) (s : StudentPortal.State)
    (a : Assignment.t) (pre post : list Question.t) (q : Question.t) :
  StudentPortal.selectedAssignment s = Some a →
  Assignment.type a = READING ∨ Assignment.type a = LISTENING →
  StudentPortal.allQuestions a = pre ++ q :: post →
  Question.id q ∉ Question.id <$> post →
  ∃ sub s' rep r,
    StudentPortal.handleSubmit submissionId user metadata s = ([sub], s')
    ∧ Submission.status sub = GRADED
    ∧ Submission.report sub = Some rep
    ∧ rep !! Question.id q = Some r
    ∧ QuestionResult.studentAnswer r
      = Js.trim (Js.orEmpty (StudentPortal.answers s !! Question.id q))
    ∧ QuestionResult.correctAnswer r
      = Js.trim (Js.orEmpty (Question.correctAnswer q))
    ∧ (QuestionResult.isCorrect r = true ↔
       GradingSpec.agree q (QuestionResult.studentAnswer r)
         (QuestionResult.correctAnswer r)).
Proof.
  intros Ha Ht Hqs Hq.
  destruct (handleSubmit_selected submissionId user metadata s a Ha) as [s' Hs].
  destruct (buildSubmission_fields submissionId user a (StudentPortal.answers s)
              (StudentPortal.transcriptions s) metadata) as (Hst & _ & Hrep).
  rewrite autoGrade_graded in Hst, Hrep by done. simpl in Hst, Hrep.
  eexists _, s', _, (StudentPortal.gradeQuestion (StudentPortal.answers s) q).
  split_and!; [exact Hs|exact Hst|exact Hrep| |done|done|].
  - rewrite Hqs. by apply gradeAll_report_last.
  - apply compareAnswers_agree.
Qed.

Lemma handleSubmit_isCorrect_per_type_witness :
  let q := Question.mk "q1" "The writer agrees." "TRUE_FALSE_NG" None
             (Some "NOT GIVEN") None in
  let a := Assignment.mk "a1" "c1" None "Passage 1" READING "" "2026-01-01"
             None None
             (Some [QuestionGroup.mk "g1" "TRUE_FALSE_NG" None "" None None None [q]])
             None None None None None in
  let s := StudentPortal.Build_State (Some a) {["q1" := "not given"]} []
             false None 0 None false in
  ∃ sub s' rep r,
    StudentPortal.handleSubmit "sub1" (User.mk "u1" "Ann" None) None s = ([sub], s')
    ∧ Submission.report sub = Some rep
    ∧ rep !! "q1" = Some r
    ∧ QuestionResult.studentAnswer r = "not given"
    ∧ QuestionResult.correctAnswer r = "NOT GIVEN"
    ∧ QuestionResult.isCorrect r = false.
Proof.
  intros q a s.
  destruct (handleSubmit_isCorrect_per_type "sub1" (User.mk "u1" "Ann" None) None
              s a [] [] q eq_refl (or_introl eq_refl) eq_refl)
    as (sub & s' & rep & r & Hs & _ & Hrep & Hr & Hsa & Hca & Hok).
  { simpl. apply not_elem_of_nil. }
  exists sub, s', rep, r. split_and!; try done.
  destruct (QuestionResult.isCorrect r); [|done].
  destruct Hok as [Hok _]. specialize (Hok eq_refl).
  rewrite Hsa, Hca in Hok. vm_compute in Hok. discriminate Hok.
Defined.





Lemma list_bind_concat {A B} (f : A → list B) (l : list A) :
  l ≫= f = concat (f <$> l).
Proof. induction l as [|x l IH]; [done|]. rewrite fmap_cons. simpl. by rewrite <- IH. Qed.

(** C3 (amended).  A READING or LISTENING submission is GRADED and its
    grade is ["<correct>/<total>"], where [total] is the number of
    questions graded, answered or not: the concatenation of the questions
    of all question groups when the assignment has question groups, and
    otherwise its own top-level question list.  A WRITING or SPEAKING
    submission is SUBMITTED with neither grade nor report. *)
Theorem handleSubmit_grade_denominator
    (submissionId : string) (user : User.t)
    (metadata : option SubmissionMetadata) (s : StudentPortal.State)
    (a : Assignment.t) :
  StudentPortal.selectedAssignment s = Some a →
  ∃ sub s',
    StudentPortal.handleSubmit submissionId user metadata s = ([sub], s')
    ∧ (Assignment.type a = READING ∨ Assignment.type a = LISTENING →
       Submission.status sub = GRADED
       ∧ is_Some (Submission.report sub)
       ∧ ∃ correct,
           correct
           = length (filter
               (λ q, QuestionResult.isCorrect
                       (StudentPortal.gradeQuestion (StudentPortal.answers s) q)
                     = true)
               (StudentPortal.allQuestions a))
           ∧ correct ≤ length (StudentPortal.allQuestions a)
           ∧ Submission.grade sub
             = Some (pretty correct +:+ "/"
                     +:+ pretty (length (StudentPortal.allQuestions a))))
    ∧ (Assignment.type a = WRITING ∨ Assignment.type a = SPEAKING →
       Submission.status sub = SUBMITTED
       ∧ Submission.grade sub = None
       ∧ Submission.report sub = None)
    ∧ (∀ gs, Assignment.questionGroups a = Some gs →
         StudentPortal.allQuestions a = concat (QuestionGroup.questions <$> gs))
    ∧ (Assignment.questionGroups a = None →
         StudentPortal.allQuestions a = default [] (Assignment.questions a)).
Proof.
  intros Ha.
  destruct (handleSubmit_selected submissionId user metadata s a Ha) as [s' Hs].
  destruct (buildSubmission_fields submissionId user a (StudentPortal.answers s)
              (StudentPortal.transcriptions s) metadata) as (Hst & Hgr & Hrep).
  eexists _, s'. split_and!; [exact Hs| | | |].
  - intros Ht. rewrite autoGrade_graded in Hst, Hgr, Hrep by done.
    simpl in Hst, Hgr, Hrep. split_and!; [done|by rewrite Hrep|].
    eexists. split; [reflexivity|]. split; [apply length_filter|].
    rewrite Hgr. unfold StudentPortal.gradeString, StudentPortal.gradeAll.
    by rewrite foldl_gradeStep_correctCount.
  - intros Ht. rewrite autoGrade_ungraded in Hst, Hgr, Hrep by done. done.
  - intros gs Hgs. unfold StudentPortal.allQuestions. rewrite Hgs.
    apply list_bind_concat.
  - intros Hgs. unfold StudentPortal.allQuestions. by rewrite Hgs.
Qed.

Lemma handleSubmit_grade_denominator_witness :
  let q1 := Question.mk "q1" "t1" "TRUE_FALSE_NG" None (Some "TRUE") None in
  let q2 := Question.mk "q2" "t2" "TRUE_FALSE_NG" None (Some "FALSE") None in
  let a := Assignment.mk "a1" "c1" None "Passage 1" READING "" "2026-01-01"
             None None
             (Some [QuestionGroup.mk "g1" "TRUE_FALSE_NG" None "" None None None
                      [q1; q2]])
             None None None None None in
  let s := StudentPortal.Build_State (Some a) {["q1" := "TRUE"]} []
             false None 0 None false in
  ∃ sub s',
    StudentPortal.handleSubmit "sub1" (User.mk "u1" "Ann" None) None s = ([sub], s')
    ∧ Submission.status sub = GRADED
    ∧ Submission.grade sub = Some "1/2".
Proof.
  intros q1 q2 a s.
  destruct (handleSubmit_grade_denominator "sub1" (User.mk "u1" "Ann" None) None
              s a eq_refl)
    as (sub & s' & Hs & Hgraded & _).
  destruct (Hgraded (or_introl eq_refl)) as (Hst & _ & correct & Hc & _ & Hgr).
  exists sub, s'. split_and!; [done|done|].
  rewrite Hgr, Hc. vm_compute. reflexivity.
Defined.

(** C3, as stated, fails on an assignment without question groups: its
    top-level question is graded, so the denominator is 1, while the
    concatenation of the questions of its (absent) groups is empty. *)
Lemma handleSubmit_grade_denominator_counterexample :
  let q := Question.mk "q1" "t1" "TRUE_FALSE_NG" None (Some "TRUE") None in
  let a := Assignment.mk "a1" "c1" None "Old quiz" READING "" "2026-01-01"
             None None None None None None None (Some [q]) in
  let s := StudentPortal.Build_State (Some a) ∅ [] false None 0 None false in
  ∃ sub s',
    StudentPortal.handleSubmit "sub1" (User.mk "u1" "Ann" None) None s = ([sub], s')
    ∧ Submission.grade sub = Some "0/1"
    ∧ length (GradingSpec.flattenedGroups a) = 0
    ∧ ∀ correct,
        Submission.grade sub
        ≠ Some (StudentPortal.gradeString correct
                  (length (GradingSpec.flattenedGroups a))).
Proof.
  intros q a s. eexists _, _. split; [reflexivity|].
  split; [vm_compute; reflexivity|]. split; [reflexivity|].
  intros correct. change (length (GradingSpec.flattenedGroups a)) with 0.
  unfold StudentPortal.gradeString.
  change (Submission.grade _) with (Some "0/1").
  change (pretty 0) with "0".
  intros [= H].
  destruct (pretty correct) as [|x [|y [|z [|w p]]]];
    vm_compute in H; discriminate H.
Qed.

(** ** The notes-completion compiler *)

Section Notes.
Import TeacherPortal NotesSpec.

Lemma string_length_append s t :
  String.length (s +:+ t) = String.length s + String.length t.
Proof. induction s as [|c s IH]; simpl; [done|]. by rewrite IH. Qed.

Lemma append_eq_length g g' a b :
  String.length g = String.length g' → g +:+ a = g' +:+ b → g = g' ∧ a = b.
Proof.
  revert g'. induction g as [|c g IH]; intros [|c' g'] Hlen Heq;
    simpl in *; try done.
  injection Heq as -> Heq. destruct (IH g') as [-> ->]; [lia|done|done].
Qed.

Lemma closeBracket_Some s x r :
  closeBracket s = Some (x, r) ↔ s = x +:+ String "]" r ∧ innerText x.
Proof.
  unfold innerText. split.
  - revert x. induction s as [|c s IH]; intros x; simpl; [done|].
    destruct (Ascii.eqb_spec c "]") as [->|Hc].
    { by intros [= <- <-]. }
    destruct (Js.isLineTerminator c) eqn:Hlt; [done|].
    destruct (closeBracket s) as [[x' r']|]; [|done].
    intros [= <- <-]. destruct (IH x' eq_refl) as [-> Hx].
    split; [done|]. simpl. rewrite Hx, Hlt.
    apply Ascii.eqb_neq in Hc. by rewrite Hc.
  - intros [-> Hx]. induction x as [|c x IH]; simpl in *.
    { done. }
    apply andb_prop in Hx as [Hc Hx]. apply andb_prop in Hc as [Hc Hlt].
    apply negb_true_iff in Hc, Hlt. rewrite Hc, Hlt. by rewrite IH.
Qed.

Lemma matchesFrom_skip x c r :
  matchesFrom (S (String.length x)) (x +:+ String c r) = matchesFrom 0 r.
Proof. induction x as [|d x IH]; simpl; [done|]. exact IH. Qed.

(** The matcher, one character at a time. *)
Lemma matchAll_cons c s :
  matchAll (String c s)
  = if Ascii.eqb c "[" then
      match closeBracket s with
      | Some (x, r) => ("[" +:+ x +:+ "]", x) :: matchAll r
      | None => matchAll s
      end
    else matchAll s.
Proof.
  unfold matchAll. simpl. destruct (Ascii.eqb c "["); [|done].
  destruct (closeBracket s) as [[x r]|] eqn:Hcb; [|done].
  apply closeBracket_Some in Hcb as [-> _]. by rewrite matchesFrom_skip.
Qed.

Lemma matchAll_nil : matchAll "" = [].
Proof. done. Qed.

Lemma tokenAt_empty g x rest : ¬ tokenAt "" g x rest.
Proof. intros [H _]. by destruct g. Qed.

Lemma tokenAt_cons c s g x rest :
  tokenAt (String c s) (String c g) x rest ↔ tokenAt s g x rest.
Proof.
  unfold tokenAt. split; intros [H Hx]; (split; [|done]).
  - by injection H.
  - by rewrite H.
Qed.

Lemma tokenAt_head s x rest :
  tokenAt s "" x rest ↔ ∃ s', s = String "[" s' ∧ closeBracket s' = Some (x, rest).
Proof.
  unfold tokenAt. split.
  - intros [-> Hx]. eexists. split; [reflexivity|]. by apply closeBracket_Some.
  - intros (s' & -> & [-> Hx]%closeBracket_Some). done.
Qed.

Lemma tokenAt_inv c s g x rest :
  tokenAt (String c s) g x rest →
  (g = "" ∧ c = "["%char ∧ closeBracket s = Some (x, rest))
  ∨ (∃ g', g = String c g' ∧ tokenAt s g' x rest).
Proof.
  intros Ht. destruct g as [|d g].
  - left. apply tokenAt_head in Ht as (s' & [= -> ->] & Hcb). done.
  - right. destruct Ht as [[= <- ->] Hx]. exists g. done.
Qed.

(** A character at which no token starts can be put in front. *)
Lemma tokens_skip c s xs :
  (∀ x rest, ¬ tokenAt (String c s) "" x rest) →
  tokens s xs → tokens (String c s) xs.
Proof.
  intros Hhead Hs. inversion Hs as [? Hnone|? g x rest xs' Hfirst Hrest]; subst.
  - apply tokens_nil. intros g x rest Ht.
    apply tokenAt_inv in Ht as [(-> & -> & Hcb)|(g' & -> & Ht)].
    + eapply Hhead. apply tokenAt_head. eauto.
    + by eapply Hnone.
  - apply tokens_cons with (g := String c g) (rest := rest); [|done].
    destruct Hfirst as [Ht Hmin]. split; [by apply tokenAt_cons|].
    intros g' x' rest' Ht'.
    apply tokenAt_inv in Ht' as [(-> & -> & Hcb)|(g'' & -> & Ht')].
    + exfalso. eapply Hhead. apply tokenAt_head. eauto.
    + simpl. apply le_n_S. by eapply Hmin.
Qed.

Lemma tokens_matchAll_bounded n s :
  String.length s ≤ n → tokens s ((λ m, m.2) <$> matchAll s).
Proof.
  revert s. induction n as [|n IH]; intros [|c s] Hlen; simpl in Hlen;
    try lia.
  - apply tokens_nil. intros ???. apply tokenAt_empty.
  - apply tokens_nil. intros ???. apply tokenAt_empty.
  - rewrite matchAll_cons. destruct (Ascii.eqb_spec c "[") as [->|Hc].
    + destruct (closeBracket s) as [[x r]|] eqn:Hcb.
      * rewrite fmap_cons. simpl.
        apply tokens_cons with (g := "") (rest := r).
        -- split; [apply tokenAt_head; eauto|]. intros. simpl. lia.
        -- apply IH. apply closeBracket_Some in Hcb as [-> _].
           rewrite string_length_append in Hlen. simpl in Hlen. lia.
      * apply tokens_skip; [|apply IH; lia].
        intros x rest (s' & [= <-] & Hcb')%tokenAt_head. congruence.
    + apply tokens_skip; [|apply IH; lia].
      intros x rest (s' & [= -> _] & _)%tokenAt_head. done.
Qed.

Lemma tokens_matchAll s : tokens s ((λ m, m.2) <$> matchAll s).
Proof. by apply (tokens_matchAll_bounded (String.length s)). Qed.

Lemma firstToken_unique s g x rest g' x' rest' :
  firstToken s g x rest → firstToken s g' x' rest' →
  x = x' ∧ rest = rest'.
Proof.
  intros [Ht Hmin] [Ht' Hmin'].
  assert (String.length g = String.length g') as Hlen.
  { apply Nat.le_antisymm; [by eapply Hmin|by eapply Hmin']. }
  destruct Ht as [Hs Hx], Ht' as [Hs' Hx']. rewrite Hs in Hs'.
  apply append_eq_length in Hs' as [_ Heq]; [|done].
  injection Heq as Heq.
  assert (closeBracket (x +:+ String "]" rest) = Some (x, rest)) as H1.
  { by apply closeBracket_Some. }
  assert (closeBracket (x +:+ String "]" rest) = Some (x', rest')) as H2.
  { apply closeBracket_Some. split; [exact Heq|done]. }
  rewrite H1 in H2. by injection H2.
Qed.

Lemma tokens_unique s xs ys : tokens s xs → tokens s ys → xs = ys.
Proof.
  intros Hxs. revert ys.
  induction Hxs as [s Hnone|s g x rest xs Hfirst Hrest IH]; intros ys Hys.
  - inversion Hys as [|? g x rest ys' [Ht _] _]; subst; [done|].
    by destruct (Hnone g x rest).
  - inversion Hys as [? Hnone|? g' x' rest' ys' Hfirst' Hrest']; subst.
    + destruct Hfirst as [Ht _]. by destruct (Hnone g x rest).
    + destruct (firstToken_unique _ _ _ _ _ _ _ Hfirst Hfirst') as [<- <-].
      f_equal. by apply IH.
Qed.

Lemma matchesFrom_shape k s :
  matchesFrom k s
  = (λ x, ("[" +:+ x +:+ "]", x)) <$> ((λ m, m.2) <$> matchesFrom k s).
Proof.
  revert k. induction s as [|c s IH]; intros k; simpl; [done|].
  destruct k as [|k]; [|apply IH].
  destruct (Ascii.eqb c "["); [|apply IH].
  destruct (closeBracket s) as [[x r]|]; [|apply IH].
  rewrite !fmap_cons. simpl. f_equal. apply IH.
Qed.

Lemma generatedQuestions_tokens mkId content :
  generatedQuestions mkId content
  = imap (λ i x, questionOf (mkId i) x) ((λ m, m.2) <$> matchAll content).
Proof.
  unfold generatedQuestions, matchAll.
  rewrite (matchesFrom_shape 0 content) at 1.
  by rewrite !imap_fmap.
Qed.

Lemma imap_sameQuestion (f f' : nat → string) xs :
  Forall2 sameQuestion (imap (λ i x, questionOf (f i) x) xs)
                       (imap (λ i x, questionOf (f' i) x) xs).
Proof.
  revert f f'. induction xs as [|x xs IH]; intros f f'; simpl; constructor.
  - done.
  - apply (IH (f ∘ S) (f' ∘ S)).
Qed.
End Notes.

(** C2 (amended).  The notes-completion compiler makes exactly one question
    per bracketed token [[x]] whose inner text [x] holds no line terminator
    (an opening bracket that is not closed on its line starts no token), in
    left-to-right order: its text is the token with its brackets, its
    [correctAnswer] the inner text, its type NOTES_COMPLETION.  The tokens
    of a text are determined by the text alone, so compiling twice, or with
    the identifiers of the preview instead of those drawn when saving, gives
    the same number of questions with the same texts and answers in the
    same order. *)
Theorem notes_compiler_tokens (mkId : nat → string) (content : string) :
  ∃ xs,
    NotesSpec.tokens content xs
    ∧ (∀ ys, NotesSpec.tokens content ys → ys = xs)
    ∧ TeacherPortal.generatedQuestions mkId content
      = imap (λ i x, NotesSpec.questionOf (mkId i) x) xs
    ∧ (xs = [] → TeacherPortal.generatedQuestions mkId content = [])
    ∧ (∀ mkId',
         Forall2 NotesSpec.sameQuestion
           (TeacherPortal.generatedQuestions mkId content)
           (TeacherPortal.generatedQuestions mkId' content))
    ∧ Forall2 NotesSpec.sameQuestion
        (TeacherPortal.generatedQuestions TeacherPortal.previewId content)
        (TeacherPortal.generatedQuestions mkId content).
Proof.
  exists ((λ m, m.2) <$> TeacherPortal.matchAll content). split_and!.
  - apply tokens_matchAll.
  - intros ys Hys. eapply tokens_unique; [done|apply tokens_matchAll].
  - apply generatedQuestions_tokens.
  - intros Hnil. by rewrite generatedQuestions_tokens, Hnil.
  - intros mkId'. rewrite !generatedQuestions_tokens. apply imap_sameQuestion.
  - rewrite !generatedQuestions_tokens. apply imap_sameQuestion.
Qed.

(** The scenario of the contract. *)
Example notes_compiler_sun_east :
  TeacherPortal.generatedQuestions TeacherPortal.previewId
    "The [sun] rises in the [east]."
  = [Question.mk "q_prev_0" "[sun]" "NOTES_COMPLETION" None (Some "sun") None;
     Question.mk "q_prev_1" "[east]" "NOTES_COMPLETION" None (Some "east") None].
Proof. vm_compute. reflexivity. Qed.

(** C2, as stated, fails on a bracketed text that spans a line break: the
    text holds one bracketed token, and the compiler makes no question. *)
Lemma notes_compiler_counterexample :
  let content := "[north" +:+ String "010" "south]" in
  NotesSpec.bracketedAt content "" ("north" +:+ String "010" "south") ""
  ∧ TeacherPortal.generatedQuestions TeacherPortal.previewId content = [].
Proof. split; [split|]; vm_compute; reflexivity. Qed.

(** ** Saving an assignment *)

Section Save.
Import TeacherPortal.

Variable now : string.
Variable freshId : nat → nat → string.

(** What a save that reaches persistence hands over. *)
Lemma handleSaveAssignment_persisted s d s' :
  handleSaveAssignment now freshId s = ([onAddAssignment d], s')
  ∨ handleSaveAssignment now freshId s = ([onUpdateAssignment d], s') →
  AssignmentData.questionGroups d
  = imap (λ g, processGroup (freshId g)) (tempQuestionGroups s).
Proof.
  unfold handleSaveAssignment.
  destruct (_ || _); [by intros [?|?]|].
  destruct (_ && _); [by intros [?|?]|].
  destruct (Js.truthy (editingAssignmentId s)); intros [[= <- _]|[= <- _]]; done.
Qed.

Lemma processGroup_compiled mkId grp content :
  QuestionGroup.type grp = "NOTES_COMPLETION" →
  QuestionGroup.content grp = Some content → content ≠ "" →
  QuestionGroup.questions (processGroup mkId grp)
  = generatedQuestions mkId content
  ∧ QuestionGroup.content (processGroup mkId grp) = Some content
  ∧ QuestionGroup.type (processGroup mkId grp) = "NOTES_COMPLETION".
Proof.
  intros Ht Hc Hne. unfold processGroup. rewrite Ht, Hc. simpl.
  apply String.eqb_neq in Hne. rewrite Hne. done.
Qed.

Lemma processGroup_unchanged mkId grp :
  QuestionGroup.type grp ≠ "NOTES_COMPLETION"
  ∨ QuestionGroup.content grp = None ∨ QuestionGroup.content grp = Some "" →
  processGroup mkId grp = grp.
Proof.
  unfold processGroup. intros [Ht|[Hc|Hc]].
  - apply String.eqb_neq in Ht. by rewrite Ht.
  - rewrite Hc. simpl. by rewrite andb_false_r.
  - rewrite Hc. simpl. by rewrite andb_false_r.
Qed.

End Save.

(** C5 (amended).  In the assignment handed to persistence, every question
    group of type NOTES_COMPLETION whose content is not empty has as its
    questions the fresh output of the compiler over that content, whatever
    questions it held before; every other group, a NOTES_COMPLETION group
    with empty or absent content included, is saved as it is. *)
Theorem handleSaveAssignment_notes_groups
    (now : string) (freshId : nat → nat → string)
    (s s' : TeacherPortal.State) (d : AssignmentData.t) :
  TeacherPortal.handleSaveAssignment now freshId s
    = ([TeacherPortal.onAddAssignment d], s')
  ∨ TeacherPortal.handleSaveAssignment now freshId s
    = ([TeacherPortal.onUpdateAssignment d], s') →
  length (AssignmentData.questionGroups d)
  = length (TeacherPortal.tempQuestionGroups s)
  ∧ ∀ g grp,
      TeacherPortal.tempQuestionGroups s !! g = Some grp →
      ∃ saved,
        AssignmentData.questionGroups d !! g = Some saved
        ∧ (∀ content,
             QuestionGroup.type grp = "NOTES_COMPLETION" →
             QuestionGroup.content grp = Some content → content ≠ "" →
             QuestionGroup.questions saved
             = TeacherPortal.generatedQuestions (freshId g) content
             ∧ QuestionGroup.content saved = Some content)
        ∧ (QuestionGroup.type grp ≠ "NOTES_COMPLETION"
           ∨ QuestionGroup.content grp = None
           ∨ QuestionGroup.content grp = Some "" →
           saved = grp).
Proof.
  intros Hsave. apply handleSaveAssignment_persisted in Hsave. rewrite Hsave.
  split; [by rewrite length_imap|].
  intros g grp Hg. exists (TeacherPortal.processGroup (freshId g) grp).
  split_and!.
  - by rewrite list_lookup_imap, Hg.
  - intros content Ht Hc Hne.
    by destruct (processGroup_compiled (freshId g) grp content Ht Hc Hne) as (? & ? & _).
  - apply processGroup_unchanged.
Qed.

Lemma handleSaveAssignment_notes_groups_witness :
  let stale := Question.mk "q_old" "[moon]" "NOTES_COMPLETION" None (Some "moon") None in
  let grp := QuestionGroup.mk "qg_1" "NOTES_COMPLETION" (Some "Questions")
               "Complete the notes below." (Some "The [sun] rises.")
               None None [stale] in
  let draft := PartialAssignment.mk None None None (Some "Passage 1")
                 (Some READING) None (Some "2026-01-01") None None None None
                 None None None None in
  let s := TeacherPortal.Build_State [] (Some "c1") None true None draft [grp] in
  let freshId := λ g i : nat, "q_" +:+ pretty g +:+ "_" +:+ pretty i in
  ∃ d s' saved,
    TeacherPortal.handleSaveAssignment "1767225600000" freshId s
      = ([TeacherPortal.onAddAssignment d], s')
    ∧ AssignmentData.questionGroups d !! 0 = Some saved
    ∧ QuestionGroup.questions saved
      = [Question.mk "q_0_0" "[sun]" "NOTES_COMPLETION" None (Some "sun") None].
Proof.
  intros stale grp draft s freshId.
  assert (∃ d s', TeacherPortal.handleSaveAssignment "1767225600000" freshId s
                  = ([TeacherPortal.onAddAssignment d], s')) as (d & s' & Hsave).
  { eexists _, _. vm_compute. reflexivity. }
  destruct (handleSaveAssignment_notes_groups "1767225600000" freshId s s' d
              (or_introl Hsave)) as [_ Hgroups].
  destruct (Hgroups 0 grp eq_refl) as (saved & Hsaved & Hgen & _).
  exists d, s', saved. split_and!; [done|done|].
  destruct (Hgen "The [sun] rises." eq_refl eq_refl) as [-> _]; [discriminate|].
  vm_compute. reflexivity.
Defined.

(** C5, as stated, fails for a NOTES_COMPLETION group without content: the
    compiler would give no question, and the group is saved with the
    question it held. *)
Lemma handleSaveAssignment_notes_groups_counterexample :
  let stale := Question.mk "q_old" "[moon]" "NOTES_COMPLETION" None (Some "moon") None in
  let grp := QuestionGroup.mk "qg_1" "NOTES_COMPLETION" (Some "Questions")
               "Complete the notes below." None None None [stale] in
  let draft := PartialAssignment.mk None None None (Some "Passage 1")
                 (Some READING) None (Some "2026-01-01") None None None None
                 None None None None in
  let s := TeacherPortal.Build_State [] (Some "c1") None true None draft [grp] in
  let freshId := λ g i : nat, "q_" +:+ pretty g +:+ "_" +:+ pretty i in
  ∃ d s' saved,
    TeacherPortal.handleSaveAssignment "1767225600000" freshId s
      = ([TeacherPortal.onAddAssignment d], s')
    ∧ AssignmentData.questionGroups d !! 0 = Some saved
    ∧ QuestionGroup.type saved = "NOTES_COMPLETION"
    ∧ QuestionGroup.questions saved = [stale]
    ∧ TeacherPortal.generatedQuestions (freshId 0)
        (Js.orEmpty (QuestionGroup.content saved)) = []
    ∧ QuestionGroup.questions saved
      ≠ TeacherPortal.generatedQuestions (freshId 0)
          (Js.orEmpty (QuestionGroup.content saved)).
Proof.
  intros stale grp draft s freshId. eexists _, _, _.
  split; [vm_compute; reflexivity|].
  split; [reflexivity|]. split_and!; try reflexivity. discriminate.
Qed.

Lemma sameQuestion_refl (qs : list Question.t) :
  Forall2 NotesSpec.sameQuestion qs qs.
Proof. induction qs; constructor; [done|done]. Qed.

(** The preview and the save process a group alike, up to the identifiers
    of the generated questions. *)
Lemma processGroup_sameQuestion mkId mkId' grp :
  Forall2 NotesSpec.sameQuestion
    (QuestionGroup.questions (TeacherPortal.processGroup mkId grp))
    (QuestionGroup.questions (TeacherPortal.processGroup mkId' grp)).
Proof.
  unfold TeacherPortal.processGroup.
  destruct (_ && _); [|apply sameQuestion_refl].
  simpl. rewrite !generatedQuestions_tokens. apply imap_sameQuestion.
Qed.

(** What the preview shows is what the save stores: group by group the
    same questions, in the same order, with the same texts and answers. *)
Lemma preview_agrees_with_save now freshId s d s' :
  TeacherPortal.handleSaveAssignment now freshId s
    = ([TeacherPortal.onAddAssignment d], s')
  ∨ TeacherPortal.handleSaveAssignment now freshId s
    = ([TeacherPortal.onUpdateAssignment d], s') →
  ∃ shown,
    PartialAssignment.questionGroups (TeacherPortal.getPreviewAssignment s)
    = Some shown
    ∧ Forall2
        (λ g g', Forall2 NotesSpec.sameQuestion
                   (QuestionGroup.questions g) (QuestionGroup.questions g'))
        shown (AssignmentData.questionGroups d).
Proof.
  intros Hsave. apply handleSaveAssignment_persisted in Hsave. rewrite Hsave.
  eexists. split; [reflexivity|]. clear Hsave.
  generalize (TeacherPortal.tempQuestionGroups s) as groups. intros groups.
  revert freshId. induction groups as [|grp groups IH]; intros freshId; simpl.
  - constructor.
  - constructor; [apply processGroup_sameQuestion|].
    apply (IH (freshId ∘ S)).
Qed.

(** C7 (amended).  Saving stops with a message, persists nothing and
    leaves the draft as it is when the title or the due date is missing,
    when no class identifier is at hand (neither a selected class nor one in
    the draft), or when a WRITING assignment has no prompt; otherwise
    exactly one assignment is handed to persistence, added when no
    assignment is being edited and updated otherwise.  Whether the class
    identifier names an existing class is not looked at. *)
Theorem handleSaveAssignment_validation
    (now : string) (freshId : nat → nat → string) (s : TeacherPortal.State) :
  let n := TeacherPortal.newAssignment s in
  let classId :=
    TeacherPortal.orElse (TeacherPortal.selectedClassId s)
      (PartialAssignment.classId n) in
  let missing :=
    Js.truthy (PartialAssignment.title n) = false
    ∨ Js.truthy (PartialAssignment.dueDate n) = false
    ∨ Js.truthy classId = false in
  let noPrompt :=
    PartialAssignment.type n = Some WRITING
    ∧ Js.truthy (PartialAssignment.writingPrompt n) = false in
  (missing →
   TeacherPortal.handleSaveAssignment now freshId s
   = ([TeacherPortal.alert
         "Please fill in Title, Due Date, and ensure Class is selected"], s))
  ∧ (¬ missing → noPrompt →
     TeacherPortal.handleSaveAssignment now freshId s
     = ([TeacherPortal.alert "Please enter an essay prompt"], s))
  ∧ (¬ missing → ¬ noPrompt →
     ∃ d s',
       TeacherPortal.handleSaveAssignment now freshId s
       = ([if Js.truthy (TeacherPortal.editingAssignmentId s)
           then TeacherPortal.onUpdateAssignment d
           else TeacherPortal.onAddAssignment d], s')
       ∧ Some (AssignmentData.classId d) = classId
       ∧ Some (AssignmentData.title d) = PartialAssignment.title n
       ∧ Some (AssignmentData.dueDate d) = PartialAssignment.dueDate n
       ∧ TeacherPortal.classes s' = TeacherPortal.classes s).
Proof.
  intros n classId missing noPrompt. unfold TeacherPortal.handleSaveAssignment.
  fold n. fold classId.
  destruct (Js.truthy (PartialAssignment.title n)) eqn:Ht;
  destruct (Js.truthy (PartialAssignment.dueDate n)) eqn:Hd;
  destruct (Js.truthy classId) eqn:Hc; simpl;
    try (split_and!; [done|intros Hm; destruct Hm; unfold missing; tauto..]).
  assert (¬ missing) as Hok by (unfold missing; intros [?|[?|?]]; congruence).
  split; [done|].
  destruct (decide (PartialAssignment.type n = Some WRITING)) as [Hw|Hw].
  - rewrite bool_decide_true by done. simpl.
    destruct (Js.truthy (PartialAssignment.writingPrompt n)) eqn:Hp; simpl.
    + split; [by intros _ [_ ?]|]. intros _ _. eexists _, _.
      split; [reflexivity|]. simpl.
      destruct (PartialAssignment.title n) as [t|]; [|done].
      destruct (PartialAssignment.dueDate n) as [dd|]; [|done].
      destruct classId as [c|]; done.
    + split; [done|]. intros _ Hn. destruct Hn. done.
  - rewrite bool_decide_false by done. simpl.
    split; [by intros _ [? _]|]. intros _ _. eexists _, _.
    split; [reflexivity|]. simpl.
    destruct (PartialAssignment.title n) as [t|]; [|done].
    destruct (PartialAssignment.dueDate n) as [dd|]; [|done].
    destruct classId as [c|]; done.
Qed.

Lemma handleSaveAssignment_validation_witness :
  let draft := PartialAssignment.mk None None None None (Some WRITING) None
                 (Some "2026-01-01") None None None None None None None None in
  let s := TeacherPortal.Build_State [] (Some "c1") None true None draft [] in
  TeacherPortal.handleSaveAssignment "1767225600000" (λ _ _, "q_0") s
  = ([TeacherPortal.alert
        "Please fill in Title, Due Date, and ensure Class is selected"], s).
Proof.
  intros draft s.
  destruct (handleSaveAssignment_validation "1767225600000" (λ _ _, "q_0") s)
    as (Hmissing & _).
  apply Hmissing. left. reflexivity.
Defined.

(** C7, as stated, fails for a class identifier that names no existing
    class: the assignment is handed to persistence all the same. *)
Lemma handleSaveAssignment_validation_counterexample :
  let draft := PartialAssignment.mk None None None (Some "Passage 1")
                 (Some READING) None (Some "2026-01-01") None None None None
                 None None None None in
  let s := TeacherPortal.Build_State
             [ClassGroup.mk "c1" "Morning class" "Mondays 09:00 - 10:30" None]
             (Some "c9") None true None draft [] in
  (¬ ∃ c, c ∈ TeacherPortal.classes s ∧ ClassGroup.id c = "c9")
  ∧ ∃ d s',
      TeacherPortal.handleSaveAssignment "1767225600000" (λ _ _, "q_0") s
      = ([TeacherPortal.onAddAssignment d], s')
      ∧ AssignmentData.classId d = "c9".
Proof.
  intros draft s. split.
  - intros (c & Hc & Hid). apply list_elem_of_singleton in Hc. by subst c.
  - eexists _, _. split; [vm_compute; reflexivity|reflexivity].
Qed.

(** ** Changing the type of a question group *)

(** C6 (amended).  Changing the type of a question group sets the type and
    the instruction that goes with it, and keeps the auxiliary lists: a
    heading list or option list that is present is preserved with the data
    entered for the old type.  A list is set to empty only when it is
    absent and the new type uses it ([headingList] for MATCHING_HEADINGS,
    [matchOptions] for MATCHING_FEATURES and MATCHING_SENTENCE_ENDINGS).
    The other groups, and the questions, content, title and identifier of
    the group, are left as they are. *)
Theorem handleGroupTypeChange_keeps_lists
    (index : nat) (newType : string) (groups : list QuestionGroup.t)
    (g : QuestionGroup.t) :
  groups !! index = Some g →
  ∃ g',
    TeacherPortal.handleGroupTypeChange index newType groups
    = Some (<[index := g']> groups)
    ∧ QuestionGroup.type g' = newType
    ∧ QuestionGroup.instruction g'
      = default "" (TeacherPortal.QUESTION_TYPE_INSTRUCTIONS !! newType)
    ∧ (∀ l, QuestionGroup.headingList g = Some l →
            QuestionGroup.headingList g' = Some l)
    ∧ (∀ l, QuestionGroup.matchOptions g = Some l →
            QuestionGroup.matchOptions g' = Some l)
    ∧ (QuestionGroup.headingList g = None →
       QuestionGroup.headingList g'
       = if decide (newType = "MATCHING_HEADINGS") then Some [] else None)
    ∧ (QuestionGroup.matchOptions g = None →
       QuestionGroup.matchOptions g'
       = if decide (newType = "MATCHING_FEATURES"
                    ∨ newType = "MATCHING_SENTENCE_ENDINGS")
         then Some [] else None)
    ∧ QuestionGroup.id g' = QuestionGroup.id g
    ∧ QuestionGroup.title g' = QuestionGroup.title g
    ∧ QuestionGroup.content g' = QuestionGroup.content g
    ∧ QuestionGroup.questions g' = QuestionGroup.questions g.
Proof.
  intros Hg. unfold TeacherPortal.handleGroupTypeChange. rewrite Hg.
  eexists. split; [reflexivity|]. simpl. split_and!; try done.
  - intros l Hl. rewrite Hl. rewrite bool_decide_true by eauto.
    by rewrite andb_false_r.
  - intros l Hl. rewrite Hl. rewrite bool_decide_true by eauto.
    by rewrite andb_false_r.
  - intros Hl. rewrite Hl. rewrite bool_decide_false by (by intros [??]).
    rewrite andb_true_r.
    destruct (String.eqb_spec newType "MATCHING_HEADINGS");
      [by rewrite decide_True|by rewrite decide_False].
  - intros Hl. rewrite Hl. rewrite bool_decide_false by (by intros [??]).
    rewrite andb_true_r.
    destruct (String.eqb_spec newType "MATCHING_FEATURES") as [?|Hf]; simpl.
    { by rewrite decide_True by by left. }
    destruct (String.eqb_spec newType "MATCHING_SENTENCE_ENDINGS") as [?|He].
    { by rewrite decide_True by by right. }
    by rewrite decide_False by (by intros [?|?]).
Qed.

Lemma handleGroupTypeChange_keeps_lists_witness :
  let g := QuestionGroup.mk "qg_1" "MCQ" (Some "Questions")
             "Choose the correct letter, A, B, C or D." None None None [] in
  ∃ g',
    TeacherPortal.handleGroupTypeChange 0 "MATCHING_HEADINGS" [g] = Some [g']
    ∧ QuestionGroup.type g' = "MATCHING_HEADINGS"
    ∧ QuestionGroup.headingList g' = Some []
    ∧ QuestionGroup.matchOptions g' = None.
Proof.
  intros g.
  destruct (handleGroupTypeChange_keeps_lists 0 "MATCHING_HEADINGS" [g] g eq_refl)
    as (g' & Hres & Hty & _ & _ & _ & Hh & Hm & _).
  exists g'. split_and!; [exact Hres|exact Hty| |].
  - rewrite (Hh eq_refl). reflexivity.
  - rewrite (Hm eq_refl). reflexivity.
Defined.

(** C6, as stated, fails: the headings entered for a MATCHING_HEADINGS
    group are still there after the group has become an MCQ group. *)
Lemma handleGroupTypeChange_counterexample :
  let g := QuestionGroup.mk "qg_1" "MATCHING_HEADINGS" (Some "Questions 1-4")
             "Choose the correct heading for each paragraph from the list of headings below."
             None (Some ["A new theory"; "Early doubts"]) None [] in
  ∃ g',
    TeacherPortal.handleGroupTypeChange 0 "MCQ" [g] = Some [g']
    ∧ QuestionGroup.type g' = "MCQ"
    ∧ QuestionGroup.headingList g' = Some ["A new theory"; "Early doubts"]
    ∧ QuestionGroup.headingList g' ≠ Some []
    ∧ QuestionGroup.headingList g' ≠ None.
Proof.
  intros g. eexists. split; [vm_compute; reflexivity|].
  split_and!; [reflexivity|reflexivity|discriminate|discriminate].
Qed.

(** ** Rounded percentages stay within bounds *)

Section FloatBounds.
Import JsNumber.
Local Open Scope Z_scope.









(** *** Shifting a mantissa to the right *)








(** *** Rounding never passes a representable bound *)









(** *** Integers below 2^53 are represented exactly *)







(** *** A quotient of counters, times one hundred *)





Lemma toZ_round_special x :
  match x with S754_finite _ _ _ => False | _ => True end →
  toZ (round x) = 0.
Proof. by destruct x. Qed.


End FloatBounds.

(** ** Analytics *)

Section Analytics.
Import Gradebook AnalyticsSpec.

Lemma countStep_eq q c n sub :
  countStep q (c, n) sub
  = (c + (if decide (answeredCorrectly q sub) then 1 else 0),
     n + (if decide (attempted q sub) then 1 else 0)).
Proof.
  destruct (decide (answeredCorrectly q sub)) as [Hc|Hc],
           (decide (attempted q sub)) as [Ha|Ha];
    unfold countStep, answeredCorrectly, attempted in *;
    destruct (reportEntry sub q) as [r|]; simpl in *;
    try (by destruct Ha); try done;
    try (destruct Ha; by eauto);
    try (rewrite Hc; f_equal; lia);
    try (destruct (QuestionResult.isCorrect r); [done|f_equal; lia]).
  f_equal; lia.
Qed.

Lemma foldl_countStep q subs c n :
  foldl (countStep q) (c, n) subs
  = (c + length (filter (answeredCorrectly q) subs),
     n + length (filter (attempted q) subs)).
Proof.
  revert c n. induction subs as [|sub subs IH]; intros c n.
  - rewrite !filter_nil. simpl. f_equal; lia.
  - change (foldl (countStep q) (c, n) (sub :: subs))
      with (foldl (countStep q) (countStep q (c, n) sub) subs).
    rewrite countStep_eq, IH, !filter_cons.
    destruct (decide (answeredCorrectly q sub)),
             (decide (attempted q sub)); simpl; f_equal; lia.
Qed.

Lemma questionStat_counts subs q :
  let st := questionStat subs q in
  QuestionStat.question st = q
  ∧ QuestionStat.attemptCount st = length (filter (attempted q) subs)
  ∧ QuestionStat.correctCount st = length (filter (answeredCorrectly q) subs)
  ∧ QuestionStat.accuracy st
    = if decide (QuestionStat.attemptCount st = 0) then 0%Z
      else JsNumber.roundedPercent (QuestionStat.correctCount st)
             (QuestionStat.attemptCount st).
Proof.
  unfold questionStat. rewrite foldl_countStep. simpl.
  split_and!; try done.
  destruct (length (filter (attempted q) subs)) as [|k].
  - by rewrite bool_decide_false by lia.
  - rewrite bool_decide_true by lia. by rewrite decide_False.
Qed.

Lemma byAccuracy_total x y : byAccuracy x y = Gt → byAccuracy y x ≠ Gt.
Proof.
  unfold byAccuracy. rewrite (Z.compare_antisym (QuestionStat.accuracy x)).
  by destruct (_ ?= _)%Z.
Qed.

Lemma questionStats_Sorted subs qs :
  Sorted (λ x y, (QuestionStat.accuracy x ≤ QuestionStat.accuracy y)%Z)
         (questionStats subs qs).
Proof.
  eapply Sorted_iff; [|apply (sortBy_Sorted byAccuracy), byAccuracy_total].
  intros x y. unfold Js.cmp_le, byAccuracy. by rewrite Z.compare_le_iff.
Qed.

Lemma questionStats_Permutation subs qs :
  questionStats subs qs ≡ₚ questionStat subs <$> qs.
Proof. apply sortBy_Permutation. Qed.

Lemma fmap_questionStat_question subs (qs : list Question.t) :
  QuestionStat.question <$> (questionStat subs <$> qs) = qs.
Proof.
  induction qs as [|q qs IH]; [done|]. rewrite !fmap_cons, IH. f_equal.
  apply questionStat_counts.
Qed.

Variable Number : string → JsNumber.number.

Lemma analyticsData_Some sel assignments submissions students data :
  analyticsData Number sel assignments submissions students = Some data →
  ∃ id, sel = Some id ∧ id ≠ ""
    ∧ assignment data ∈ assignments
    ∧ Assignment.id (assignment data) = id
    ∧ assignmentSubmissions data
      = filter (λ s, Submission.assignmentId s = id) submissions
    ∧ gradedSubmissions data
      = filter (λ s, Submission.status s = GRADED ∧ is_Some (Submission.report s))
          (assignmentSubmissions data)
    ∧ allQuestions_ data = StudentPortal.allQuestions (assignment data)
    ∧ questionStats_ data
      = questionStats (gradedSubmissions data) (allQuestions_ data)
    ∧ averageScore_ data = averageScore Number (gradedSubmissions data)
    ∧ completionRate_ data
      = completionRate (assignmentSubmissions data) students.
Proof.
  unfold analyticsData. destruct sel as [id|]; simpl; [|done].
  destruct (String.eqb_spec id "") as [->|Hne]; simpl; [done|].
  destruct (find _ assignments) as [a|] eqn:Hfind; [|done].
  intros [= <-]. simpl. exists id.
  apply find_some in Hfind as [Hin Hid]. apply String.eqb_eq in Hid.
  split_and!; try done.
  - by apply list_elem_of_In.
  - apply list_filter_iff. intros s. unfold isGraded.
    rewrite andb_true_iff, !bool_decide_eq_true. done.
Qed.
End Analytics.

(** C8 (amended).  The per-question statistics are computed over the graded
    submissions of the assignment only (status GRADED, with a report).  For
    each question, [attemptCount] is the number of those submissions whose
    report has an entry for the question, [correctCount] the number of
    those entries marked correct, and [accuracy] is
    [Math.round(correctCount / attemptCount * 100)], or 0 without attempts.
    The statistics, one per question, come sorted by accuracy in ascending
    order.  (A submission whose report lacks the question is not counted;
    a blank answer that was graded is.) *)
Theorem analytics_question_stats
    (Number : string → JsNumber.number) (selectedAssignmentId : option string)
    (assignments : list Assignment.t) (submissions : list Submission.t)
    (students : list User.t) (data : Gradebook.AnalyticsData) :
  Gradebook.analyticsData Number selectedAssignmentId assignments submissions
    students = Some data →
  let graded := Gradebook.gradedSubmissions data in
  graded
  = filter (λ s, Submission.status s = GRADED ∧ is_Some (Submission.report s))
      (filter (λ s, Submission.assignmentId s
                    = Assignment.id (Gradebook.assignment data)) submissions)
  ∧ QuestionStat.question <$> Gradebook.questionStats_ data
    ≡ₚ StudentPortal.allQuestions (Gradebook.assignment data)
  ∧ Sorted (λ x y, (QuestionStat.accuracy x ≤ QuestionStat.accuracy y)%Z)
      (Gradebook.questionStats_ data)
  ∧ Forall
      (λ st,
         QuestionStat.attemptCount st
         = length (filter (AnalyticsSpec.attempted (QuestionStat.question st))
                     graded)
         ∧ QuestionStat.correctCount st
           = length (filter
                       (AnalyticsSpec.answeredCorrectly (QuestionStat.question st))
                       graded)
         ∧ QuestionStat.accuracy st
           = if decide (QuestionStat.attemptCount st = 0) then 0%Z
             else JsNumber.roundedPercent (QuestionStat.correctCount st)
                    (QuestionStat.attemptCount st))
      (Gradebook.questionStats_ data).
Proof.
  intros (id & _ & _ & _ & Hid & Hsubs & Hgraded & Hqs & Hstats & _)%analyticsData_Some
    graded.
  subst graded. split_and!.
  - by rewrite Hgraded, Hsubs, Hid.
  - rewrite Hstats, questionStats_Permutation, Hqs.
    by rewrite fmap_questionStat_question.
  - rewrite Hstats. apply questionStats_Sorted.
  - rewrite Hstats, questionStats_Permutation. apply Forall_fmap, Forall_forall.
    intros q _. unfold compose.
    destruct (questionStat_counts (Gradebook.gradedSubmissions data) q)
      as (Hq & Ha & Hc & Hacc).
    rewrite Hq. done.
Qed.

Lemma analytics_question_stats_witness :
  let q1 := Question.mk "q1" "t1" "TRUE_FALSE_NG" None (Some "TRUE") None in
  let q2 := Question.mk "q2" "t2" "TRUE_FALSE_NG" None (Some "FALSE") None in
  let a := Assignment.mk "a1" "c1" None "Passage 1" READING "" "2026-01-01"
             None None
             (Some [QuestionGroup.mk "g1" "TRUE_FALSE_NG" None "" None None None
                      [q1; q2]])
             None None None None None in
  let ann := User.mk "u1" "Ann" None in
  let sub :=
    StudentPortal.buildSubmission "s1" ann a
      {["q1" := "TRUE"; "q2" := "TRUE"]} [] None in
  ∃ data,
    Gradebook.analyticsData JsNumber.ofDecimal (Some "a1") [a] [sub] [ann]
    = Some data
    ∧ Gradebook.questionStats_ data
      = [QuestionStat.mk q2 0 0 1; QuestionStat.mk q1 100 1 1]
    ∧ Sorted (λ x y, (QuestionStat.accuracy x ≤ QuestionStat.accuracy y)%Z)
        (Gradebook.questionStats_ data).
Proof.
  intros q1 q2 a ann sub.
  assert (∃ data,
            Gradebook.analyticsData JsNumber.ofDecimal (Some "a1") [a] [sub]
              [ann] = Some data) as [data Hdata].
  { eexists. vm_compute. reflexivity. }
  exists data. split; [exact Hdata|]. split.
  - revert Hdata. vm_compute. intros [= <-]. reflexivity.
  - by destruct (analytics_question_stats _ _ _ _ _ _ Hdata) as (_ & _ & Hsorted & _).
Defined.

(** C8, as stated, fails for a student who never answered a question:
    auto-grading writes a report entry for the blank answer, and the
    gradebook counts it as an attempt. *)
Lemma analytics_question_stats_counterexample :
  let q := Question.mk "q1" "t1" "TRUE_FALSE_NG" None (Some "TRUE") None in
  let a := Assignment.mk "a1" "c1" None "Passage 1" READING "" "2026-01-01"
             None None
             (Some [QuestionGroup.mk "g1" "TRUE_FALSE_NG" None "" None None None [q]])
             None None None None None in
  let ann := User.mk "u1" "Ann" None in
  let sub := StudentPortal.buildSubmission "s1" ann a ∅ [] None in
  let graded := filter (λ s, Gradebook.isGraded s = true) [sub] in
  ¬ AnalyticsSpec.answered q sub
  ∧ Gradebook.questionStats graded (StudentPortal.allQuestions a)
    = [QuestionStat.mk q 0 0 1].
Proof.
  intros q a ann sub graded. split.
  - intros H. apply H. reflexivity.
  - vm_compute. reflexivity.
Qed.








(** The scenario of the contract: six graded submissions at 80 per cent. *)
Example averageScore_six_at_eighty :
  let sub := Submission.mk "s" "a1" "u1" "Ann" ∅ GRADED (Some "8/10") None None
               (Some ∅) None in
  JsNumber.toZ (Gradebook.averageScore JsNumber.ofDecimal (replicate 6 sub))
  = 80%Z.
Proof. vm_compute. reflexivity. Qed.

(** The average score follows the stored grades: a grade of 11 out of 10,
    entered by hand for a graded submission, gives 110. *)
Example averageScore_above_hundred :
  let sub := Submission.mk "s" "a1" "u1" "Ann" ∅ GRADED (Some "11/10") None None
               (Some ∅) None in
  JsNumber.toZ (Gradebook.averageScore JsNumber.ofDecimal [sub]) = 110%Z.
Proof. vm_compute. reflexivity. Qed.

(** ** Counting words *)

Local Abbreviation nonEmpty := (λ w : string, 0 < String.length w).

Lemma splitSpacesFrom_nonempty b s : Js.splitSpacesFrom b s ≠ [].
Proof.
  revert b. induction s as [|c s IH]; intros b; simpl; [done|].
  destruct (Js.isWhiteSpace c).
  - destruct b; [apply IH|done].
  - by destruct (Js.splitSpacesFrom false s).
Qed.

Lemma splitSpaces_starts s :
  length (filter nonEmpty (tail (Js.splitSpacesFrom false s)))
  = Words.starts false s
  ∧ length (filter nonEmpty (Js.splitSpacesFrom true s)) = Words.starts true s
  ∧ length (filter nonEmpty (Js.splitSpacesFrom false s)) = Words.starts true s.
Proof.
  induction s as [|c s (IH1 & IH2 & IH3)]; [done|].
  cbn [Js.splitSpacesFrom Words.starts].
  destruct (Js.isWhiteSpace c); [by rewrite filter_cons_False by (simpl; lia)|].
  pose proof (splitSpacesFrom_nonempty false s) as Hne.
  destruct (Js.splitSpacesFrom false s) as [|w ws]; [done|].
  cbn [tail] in *. rewrite filter_cons_True by (simpl; lia).
  cbn [length]. rewrite IH1. done.
Qed.

Lemma starts_trimStart s : Words.starts true (Js.trimStart s) = Words.starts true s.
Proof.
  induction s as [|c s IH]; [done|]. cbn [Js.trimStart Words.starts].
  destruct (Js.isWhiteSpace c) eqn:Hc; [done|]. cbn [Words.starts]. by rewrite Hc.
Qed.

Lemma starts_trimEnd b s : Words.starts b (Js.trimEnd s) = Words.starts b s.
Proof.
  revert b. induction s as [|c s IH]; intros b; [done|].
  cbn [Js.trimEnd Words.starts].
  destruct (Js.trimEnd s) as [|d t] eqn:Ht.
  - destruct (Js.isWhiteSpace c) eqn:Hc.
    + by rewrite <- IH.
    + cbn [Words.starts]. rewrite Hc. by rewrite <- IH.
  - cbn [Words.starts]. destruct (Js.isWhiteSpace c); by rewrite <- IH.
Qed.

Lemma starts_app b x y :
  Words.starts b (x +:+ String " " y) = Words.starts b x + Words.starts true y.
Proof.
  revert b. induction x as [|c x IH]; intros b; [done|].
  change (String c x +:+ String " " y) with (String c (x +:+ String " " y)).
  cbn [Words.starts]. destruct (Js.isWhiteSpace c); rewrite IH; lia.
Qed.

(** X1.  The word count of a text is the number of its maximal runs of
    characters that are not white space; surrounding white space does not
    count, and the count of two texts joined by a space is the sum of
    their counts. *)
Theorem getWordCount_words (text other : string) :
  AssignmentViewer.getWordCount text = Words.starts true text
  ∧ AssignmentViewer.getWordCount (text +:+ " " +:+ other)
    = AssignmentViewer.getWordCount text + AssignmentViewer.getWordCount other.
Proof.
  assert (∀ t, AssignmentViewer.getWordCount t = Words.starts true t) as H.
  { intros t. unfold AssignmentViewer.getWordCount.
    destruct t as [|c t]; [done|]. cbn [Js.truthy String.eqb negb].
    unfold Js.splitSpaces.
    destruct (splitSpaces_starts (Js.trim (String c t))) as (_ & _ & ->).
    unfold Js.trim. by rewrite starts_trimEnd, starts_trimStart. }
  split; [apply H|]. rewrite !H. apply starts_app.
Qed.

(** ** Decimal numerals, clock times and Roman numerals *)




Lemma pretty_nat_nonempty (n : nat) : pretty n ≠ "".
Proof.
  unfold pretty, pretty_nat, pretty, pretty_N. case_decide as H0; [done|].
  destruct (decide (0 < N.of_nat n)%N) as [Hx|Hx]; [|lia].
  rewrite pretty_N_go_step by done.
  generalize (N.of_nat n `div` 10)%N (pretty_N_char (N.of_nat n `mod` 10)).
  clear. intros x c.
  assert (∀ s, s ≠ "" → pretty_N_go x s ≠ "") as H; [|by apply H].
  induction (N.lt_wf_0 x) as [y _ IH]; intros s Hs.
  destruct (decide (0 < y)%N) as [Hy|Hy].
  - rewrite pretty_N_go_step by done. apply IH; [by apply N.div_lt|done].
  - replace y with 0%N by lia. by rewrite pretty_N_go_0.
Qed.











(** ** Selecting the options of a multiple-choice question *)

Section Options.
Import OptionLetters Encoding.

Lemma selection_current q answers l :
  selection q answers l →
  (if Js.truthy (Some (Js.orEmpty (answers !! Question.id q)))
   then Js.split "," (Js.orEmpty (answers !! Question.id q)) else []) = l.
Proof.
  intros (Heq & Hlet & _). rewrite Heq.
  apply (currentSelection_join l Hlet).
Qed.

Lemma clicked_wellEncoded max letter l :
  isLetter letter → Forall isLetter l → strictlySorted l →
  Forall isLetter (clicked max letter l) ∧ strictlySorted (clicked max letter l).
Proof.
  intros Hletter Hlet Hs. unfold clicked. repeat case_decide; [|done|].
  - split.
    + rewrite Forall_forall in *. intros y [_ Hy]%list_elem_of_filter. auto.
    + apply Sorted_NoDup_strictlySorted.
      * by apply Sorted_le_filter, strictlySorted_Sorted.
      * by apply NoDup_filter, strictlySorted_NoDup.
  - assert (Js.sort (l ++ [letter]) ≡ₚ l ++ [letter]) as Hp
      by apply sort_Permutation.
    split.
    + rewrite Hp. apply Forall_app. split; [done|]. by constructor.
    + apply Sorted_NoDup_strictlySorted; [apply sort_Sorted|].
      rewrite Hp. apply NoDup_app. split_and!.
      * by apply strictlySorted_NoDup.
      * by intros y Hy ->%list_elem_of_singleton.
      * apply NoDup_singleton.
Qed.

Lemma clicked_length max letter l :
  (Z.of_nat (length l) ≤ max)%Z →
  (Z.of_nat (length (clicked max letter l)) ≤ max)%Z.
Proof.
  intros Hl. unfold clicked. repeat case_decide; [|done|].
  - pose proof (length_filter (λ x, x ≠ letter) l). lia.
  - unfold Js.sort. rewrite sortBy_length, length_app. simpl. lia.
Qed.

(** A click on an option of a question with several answers. *)
Lemma onChange_multi q letter answers l :
  AssignmentViewer.isMulti q = true → isLetter letter →
  selection q answers l →
  selection q (AssignmentViewer.onChange q letter answers)
    (clicked (AssignmentViewer.maxSelectionOr1 q) letter l)
  ∧ ∀ i, i ≠ Question.id q →
      AssignmentViewer.onChange q letter answers !! i = answers !! i.
Proof.
  intros Hmulti Hletter Hsel.
  pose proof (selection_current _ _ _ Hsel) as Hcur.
  destruct Hsel as (Heq & Hlet & Hs).
  destruct (clicked_wellEncoded (AssignmentViewer.maxSelectionOr1 q) letter l)
    as [Hlet' Hs']; [done..|].
  unfold AssignmentViewer.onChange. rewrite Hmulti. cbv zeta. rewrite Hcur.
  unfold selection, clicked in *.
  destruct (decide (letter ∈ l)) as [Hin|Hnin].
  - apply includes_elem_of in Hin. rewrite Hin. split.
    + by rewrite lookup_insert_eq.
    + intros i Hi. by rewrite lookup_insert_ne.
  - destruct (Js.includes letter l) eqn:Hinc;
      [by apply includes_elem_of in Hinc|].
    case_decide as Hmax.
    + apply Z.leb_le in Hmax. rewrite Hmax. done.
    + apply Z.leb_nle in Hmax. rewrite Hmax. split.
      * by rewrite lookup_insert_eq.
      * intros i Hi. by rewrite lookup_insert_ne.
Qed.

End Options.

(** X4.  A click on an option of a question with several answers flips
    that option in the stored answer, which stays a sorted comma-joined list
    of letters without duplicates; a click on a further option when
    [maxSelection] options are selected changes nothing, so a selection
    within the limit stays within it.  The answers to the other questions
    are left as they are. *)
Theorem onChange_selection (q : Question.t) (letter : string)
    (answers : gmap string string) (l : list string) :
  AssignmentViewer.isMulti q = true → Encoding.isLetter letter →
  OptionLetters.selection q answers l →
  let max := AssignmentViewer.maxSelectionOr1 q in
  let l' := OptionLetters.clicked max letter l in
  OptionLetters.selection q (AssignmentViewer.onChange q letter answers) l'
  ∧ (∀ x, x ≠ letter → x ∈ l' ↔ x ∈ l)
  ∧ ((letter ∈ l ∨ Z.of_nat (length l) < max)%Z → letter ∈ l' ↔ letter ∉ l)
  ∧ ((Z.of_nat (length l) ≤ max)%Z → (Z.of_nat (length l') ≤ max)%Z)
  ∧ ∀ i, i ≠ Question.id q →
      AssignmentViewer.onChange q letter answers !! i = answers !! i.
Proof.
  intros Hmulti Hletter Hsel max l'.
  destruct (onChange_multi q letter answers l Hmulti Hletter Hsel) as [H1 H2].
  split_and!; [done| | |apply clicked_length|done].
  - intros x Hx. unfold l', OptionLetters.clicked. repeat case_decide; [|done|].
    + rewrite list_elem_of_filter. tauto.
    + rewrite sort_Permutation, elem_of_app, list_elem_of_singleton. tauto.
  - intros Hok. unfold l', OptionLetters.clicked.
    destruct (decide (letter ∈ l)) as [Hin|Hnin].
    + rewrite list_elem_of_filter. tauto.
    + rewrite decide_False by (destruct Hok; [done|fold max; lia]).
      rewrite sort_Permutation, elem_of_app, list_elem_of_singleton. tauto.
Qed.

Lemma onChange_selection_witness :
  let q := Question.mk "q1" "Which two?" "MCQ" (Some ["w"; "x"; "y"; "z"])
             (Some "A,C") (Some 2%Z) in
  OptionLetters.selection q (AssignmentViewer.onChange q "A" {["q1" := "C"]})
    ["A"; "C"]
  ∧ AssignmentViewer.onChange q "B" (AssignmentViewer.onChange q "A" {["q1" := "C"]})
    = {["q1" := "A,C"]}.
Proof.
  intros q.
  assert (Encoding.isLetter "A") as HA.
  { exists "A"%char. split; [reflexivity|discriminate]. }
  assert (Encoding.isLetter "C") as HC.
  { exists "C"%char. split; [reflexivity|discriminate]. }
  assert (OptionLetters.selection q {["q1" := "C"]} ["C"]) as Hsel.
  { split_and!; [reflexivity|by repeat constructor|repeat constructor]. }
  destruct (onChange_selection q "A" {["q1" := "C"]} ["C"] eq_refl HA Hsel)
    as (H1 & _).
  split; [exact H1|]. vm_compute. reflexivity.
Defined.

(** ** Clicks of the teacher and of the student *)

Section Clicks.
Import OptionLetters Encoding.

Lemma isOptionLetter_isLetter x : isOptionLetter x → isLetter x.
Proof.
  intros (i & Hi & ->). exists (ascii_of_nat (65 + i)). split; [done|].
  intros Heq. apply (f_equal nat_of_ascii) in Heq.
  rewrite nat_ascii_embedding in Heq by lia.
  change (nat_of_ascii ",") with 44 in Heq. lia.
Qed.

Lemma indexOfLetter_toLetter i : i < 26 → indexOfLetter (TeacherPortal.toLetter i) = i.
Proof.
  intros Hi. unfold indexOfLetter, TeacherPortal.toLetter.
  rewrite nat_ascii_embedding by lia. lia.
Qed.

Lemma toLetter_Permutation (xs ys : list nat) :
  Forall (λ i, i < 26) xs → Forall (λ i, i < 26) ys →
  TeacherPortal.toLetter <$> xs ≡ₚ TeacherPortal.toLetter <$> ys → xs ≡ₚ ys.
Proof.
  intros Hxs Hys Hp.
  assert (∀ zs, Forall (λ i, i < 26) zs →
            indexOfLetter <$> (TeacherPortal.toLetter <$> zs) = zs) as Hback.
  { induction 1 as [|z zs Hz _ IH]; [done|].
    cbn [fmap list_fmap]. rewrite indexOfLetter_toLetter by done.
    f_equal. exact IH. }
  rewrite <- (Hback xs Hxs), <- (Hback ys Hys). by rewrite Hp.
Qed.

Lemma toLetter_NoDup (xs : list nat) :
  Forall (λ i, i < 26) xs → NoDup xs → NoDup (TeacherPortal.toLetter <$> xs).
Proof.
  intros Hxs Hnd. induction Hnd as [|x xs Hx Hnd IH]; [constructor|].
  inversion Hxs as [|?? Hx26 Hxs']; subst.
  cbn [fmap list_fmap]. constructor; [|by apply IH].
  intros (y & Heq & Hy)%list_elem_of_fmap. rewrite Forall_forall in Hxs'.
  apply (f_equal indexOfLetter) in Heq.
  rewrite !indexOfLetter_toLetter in Heq by auto. by subst.
Qed.

Lemma toLetter_isOptionLetter (xs : list nat) :
  Forall (λ i, i < 26) xs → Forall isOptionLetter (TeacherPortal.toLetter <$> xs).
Proof.
  intros Hxs. apply Forall_fmap. eapply Forall_impl; [done|].
  intros i Hi. by exists i.
Qed.

Lemma lettersOf_wellEncoded xs :
  Forall (λ i, i < 26) xs → NoDup xs →
  Forall isOptionLetter (lettersOf xs) ∧ strictlySorted (lettersOf xs).
Proof.
  intros Hxs Hnd. unfold lettersOf. split.
  - rewrite sort_Permutation. by apply toLetter_isOptionLetter.
  - apply Sorted_NoDup_strictlySorted; [apply sort_Sorted|].
    rewrite sort_Permutation. by apply toLetter_NoDup.
Qed.

Lemma lettersOf_snoc xs i :
  Js.sort (lettersOf xs ++ [TeacherPortal.toLetter i]) = lettersOf (xs ++ [i]).
Proof.
  symmetry. apply sort_unique; [apply sort_Sorted|].
  unfold lettersOf. rewrite fmap_app. cbn [fmap list_fmap].
  by rewrite !sort_Permutation.
Qed.

Lemma lettersOf_notin xs i :
  Forall (λ i, i < 26) xs → i < 26 → i ∉ xs →
  TeacherPortal.toLetter i ∉ lettersOf xs.
Proof.
  intros Hxs Hi Hnin. unfold lettersOf. rewrite sort_Permutation.
  intros (y & Heq & Hy)%list_elem_of_fmap. rewrite Forall_forall in Hxs.
  apply (f_equal indexOfLetter) in Heq.
  rewrite !indexOfLetter_toLetter in Heq by auto. by subst.
Qed.

(** The key after the clicks of the teacher on distinct options. *)
Lemma keyClicks_letters xs :
  Forall (λ i, i < 26) xs → NoDup xs →
  TeacherPortal.currentSelection (keyClicks xs) = lettersOf xs
  ∧ Js.orEmpty (keyClicks xs) = Js.join "," (lettersOf xs).
Proof.
  induction xs as [|i xs IH] using rev_ind; intros Hxs Hnd; [done|].
  apply Forall_app in Hxs as [Hxs Hi]. inversion Hi as [|?? Hi26 _]; subst.
  apply NoDup_app in Hnd as (Hnd & Hnin & _).
  destruct (IH Hxs Hnd) as [Hcur _].
  destruct (lettersOf_wellEncoded xs Hxs Hnd) as [Hopt Hs].
  assert (Forall isLetter (lettersOf xs)) as Hlet.
  { eapply Forall_impl; [done|]. apply isOptionLetter_isLetter. }
  unfold keyClicks. rewrite foldl_snoc. fold (keyClicks xs).
  destruct (toggle_add (TeacherPortal.toLetter i)
              (isOptionLetter_isLetter _ (ex_intro _ i (conj Hi26 eq_refl)))
              (keyClicks xs) (lettersOf xs) Hcur Hlet Hs)
    as (Heq & Hcur' & _).
  { apply lettersOf_notin; [done..|]. intros Hin. apply (Hnin i Hin). by left. }
  rewrite lettersOf_snoc in Heq, Hcur'. split; [done|]. by rewrite Heq.
Qed.

(** The answer after the clicks of the student on distinct options, within
    the limit. *)
Lemma clicks_letters q xs answers :
  AssignmentViewer.isMulti q = true →
  Forall (λ i, i < 26) xs → NoDup xs →
  (Z.of_nat (length xs) ≤ AssignmentViewer.maxSelectionOr1 q)%Z →
  answers !! Question.id q = None →
  selection q (clicks q xs answers) (lettersOf xs).
Proof.
  intros Hmulti. induction xs as [|i xs IH] using rev_ind;
    intros Hxs Hnd Hlen Hnone.
  { unfold selection, clicks, lettersOf. cbn. rewrite Hnone.
    split_and!; [done|constructor|constructor]. }
  apply Forall_app in Hxs as [Hxs Hi]. inversion Hi as [|?? Hi26 _]; subst.
  apply NoDup_app in Hnd as (Hnd & Hnin & _).
  rewrite length_app in Hlen. simpl in Hlen.
  specialize (IH Hxs Hnd ltac:(lia) Hnone).
  unfold clicks. rewrite foldl_snoc. fold (clicks q xs answers).
  destruct (onChange_multi q (TeacherPortal.toLetter i) _ _ Hmulti
              (isOptionLetter_isLetter _ (ex_intro _ i (conj Hi26 eq_refl))) IH)
    as [Hsel _].
  unfold clicked in Hsel.
  rewrite decide_False in Hsel.
  2:{ apply lettersOf_notin; [done..|]. intros Hin. apply (Hnin i Hin). by left. }
  rewrite decide_False in Hsel.
  2:{ unfold lettersOf, Js.sort. rewrite sortBy_length, length_fmap. lia. }
  by rewrite lettersOf_snoc in Hsel.
Qed.

(** After any clicks the selection holds option letters, within the
    limit. *)
Lemma clicks_within_limit q xs answers :
  AssignmentViewer.isMulti q = true →
  Forall (λ i, i < 26) xs → answers !! Question.id q = None →
  ∃ l, selection q (clicks q xs answers) l ∧ Forall isOptionLetter l
       ∧ (Z.of_nat (length l) ≤ AssignmentViewer.maxSelectionOr1 q)%Z.
Proof.
  intros Hmulti. induction xs as [|i xs IH] using rev_ind; intros Hxs Hnone.
  { exists []. split_and!; [|constructor|].
    - unfold selection, clicks. cbn. rewrite Hnone.
      split_and!; [done|constructor|constructor].
    - unfold AssignmentViewer.isMulti in Hmulti. apply Z.ltb_lt in Hmulti.
      simpl. lia. }
  apply Forall_app in Hxs as [Hxs Hi]. inversion Hi as [|?? Hi26 _]; subst.
  destruct (IH Hxs Hnone) as (l & Hsel & Hopt & Hlen).
  unfold clicks. rewrite foldl_snoc. fold (clicks q xs answers).
  assert (isOptionLetter (TeacherPortal.toLetter i)) as Hio by by exists i.
  destruct (onChange_multi q (TeacherPortal.toLetter i) _ _ Hmulti
              (isOptionLetter_isLetter _ Hio) Hsel) as [Hsel' _].
  eexists. split_and!; [exact Hsel'| |by apply clicked_length].
  unfold clicked. repeat case_decide; [|done|].
  - rewrite Forall_forall in *. intros y [_ Hy]%list_elem_of_filter. auto.
  - rewrite sort_Permutation. apply Forall_app. split; [done|]. by constructor.
Qed.

Local Abbreviation noSpace := (λ c : ascii, negb (Js.isWhiteSpace c)).

Lemma trimStart_noSpace c s :
  Js.isWhiteSpace c = false → Js.trimStart (String c s) = String c s.
Proof. intros Hc. simpl. by rewrite Hc. Qed.

Lemma trimEnd_noSpace s : Js.every noSpace s = true → Js.trimEnd s = s.
Proof.
  induction s as [|c s IH]; [done|]. simpl.
  intros [Hc Hs]%andb_prop. apply negb_true_iff in Hc.
  rewrite (IH Hs). destruct s; [by rewrite Hc|done].
Qed.

Lemma trim_noSpace s : Js.every noSpace s = true → Js.trim s = s.
Proof.
  intros Hs. unfold Js.trim. destruct s as [|c s]; [done|].
  pose proof Hs as [Hc _]%andb_prop. apply negb_true_iff in Hc.
  rewrite trimStart_noSpace by done. by apply trimEnd_noSpace.
Qed.

Lemma every_append p x y :
  Js.every p (x +:+ y) = Js.every p x && Js.every p y.
Proof.
  induction x as [|c x IH]; [done|].
  change (String c x +:+ y) with (String c (x +:+ y)). simpl.
  by rewrite IH, andb_assoc.
Qed.

Lemma isOptionLetter_noSpace x : isOptionLetter x → Js.every noSpace x = true.
Proof.
  intros (i & Hi & ->).
  assert (forallb (λ i, Js.every noSpace (TeacherPortal.toLetter i)) (seq 0 26)
          = true) as H by (vm_compute; reflexivity).
  rewrite forallb_forall in H. apply H, in_seq. lia.
Qed.

Lemma join_noSpace l :
  Forall isOptionLetter l → Js.every noSpace (Js.join "," l) = true.
Proof.
  induction l as [|x [|y l] IH]; intros Hl; [done| |].
  - simpl. apply isOptionLetter_noSpace. by inversion Hl.
  - rewrite join_cons2. inversion Hl as [|?? Hx Hl']; subst.
    rewrite !every_append, (isOptionLetter_noSpace x Hx), (IH Hl'). done.
Qed.

Lemma fmap_trim_letters l :
  Forall isOptionLetter l → Js.trim <$> l = l.
Proof.
  induction 1 as [|x l Hx _ IH]; [done|]. cbn [fmap list_fmap].
  rewrite trim_noSpace by by apply isOptionLetter_noSpace.
  f_equal. exact IH.
Qed.

(** A selection is its own normal form. *)
Lemma sortedAnswer_letters l :
  Forall isOptionLetter l → strictlySorted l →
  StudentPortal.sortedAnswer (Js.trim (Js.join "," l)) = Js.join "," l.
Proof.
  intros Hl Hs. rewrite trim_noSpace by by apply join_noSpace.
  destruct (decide (l = [])) as [->|Hne]; [done|].
  unfold StudentPortal.sortedAnswer. rewrite split_join; [|done|].
  - rewrite fmap_trim_letters by done.
    by rewrite sort_sorted_id by by apply strictlySorted_Sorted.
  - eapply Forall_impl; [done|].
    intros x Hx. by apply isLetter_noComma, isOptionLetter_isLetter.
Qed.

Lemma join_letters_inj l k :
  Forall isLetter l → Forall isLetter k →
  Js.join "," l = Js.join "," k → l = k.
Proof.
  intros Hl Hk Heq.
  rewrite <- (currentSelection_join l Hl), <- (currentSelection_join k Hk).
  by rewrite Heq.
Qed.

(** Grading a selection against a key. *)
Lemma gradeQuestion_selection q answers l k :
  Question.type q = "MCQ" → AssignmentViewer.isMulti q = true →
  selection q answers l → Forall isOptionLetter l →
  Js.orEmpty (Question.correctAnswer q) = Js.join "," k →
  Forall isOptionLetter k → strictlySorted k →
  QuestionResult.isCorrect (StudentPortal.gradeQuestion answers q)
  = bool_decide (l = k).
Proof.
  intros Htype Hmulti (Hans & _ & Hs) Hl Hkey Hk Hsk.
  unfold StudentPortal.gradeQuestion. cbn [QuestionResult.isCorrect].
  unfold StudentPortal.compareAnswers, StudentPortal.isMultiSelect.
  rewrite Htype. cbn [String.eqb andb].
  change (String.eqb "MCQ" "MCQ") with true. cbn [andb].
  unfold AssignmentViewer.isMulti, AssignmentViewer.maxSelectionOr1 in Hmulti.
  rewrite Hmulti.
  unfold StudentPortal.studentAnsOf, StudentPortal.correctAnsOf.
  rewrite Hans, Hkey, !sortedAnswer_letters by done.
  destruct (decide (l = k)) as [->|Hne].
  - rewrite bool_decide_true by done. apply String.eqb_refl.
  - rewrite bool_decide_false by done. apply String.eqb_neq.
    intros Heq. apply Hne. apply join_letters_inj; [| |done];
      (eapply Forall_impl; [done|apply isOptionLetter_isLetter]).
Qed.

End Clicks.

(** X5.  When the teacher sets the key of a question with several answers
    by clicking distinct options, and the student answers by clicking
    distinct options within the limit, the answer is graded correct exactly
    when the student clicked the options of the key, in whatever order. *)
Theorem clicks_graded (q : Question.t) (answers : gmap string string)
    (key chosen : list nat) :
  Question.type q = "MCQ" → AssignmentViewer.isMulti q = true →
  Forall (λ i, i < 26) key → NoDup key →
  Forall (λ i, i < 26) chosen → NoDup chosen →
  (Z.of_nat (length chosen) ≤ AssignmentViewer.maxSelectionOr1 q)%Z →
  Question.correctAnswer q = OptionLetters.keyClicks key →
  answers !! Question.id q = None →
  QuestionResult.isCorrect
    (StudentPortal.gradeQuestion (OptionLetters.clicks q chosen answers) q)
  = true
  ↔ chosen ≡ₚ key.
Proof.
  intros Htype Hmulti Hkey Hnk Hch Hnc Hlen Hq Hnone.
  destruct (keyClicks_letters key Hkey Hnk) as [_ Hk].
  pose proof (clicks_letters q chosen answers Hmulti Hch Hnc Hlen Hnone) as Hsel.
  destruct (lettersOf_wellEncoded key Hkey Hnk) as [Hok Hsk].
  destruct (lettersOf_wellEncoded chosen Hch Hnc) as [Hoc _].
  rewrite <- Hq in Hk.
  rewrite (gradeQuestion_selection q _ _ _ Htype Hmulti Hsel Hoc Hk Hok Hsk).
  rewrite bool_decide_eq_true. unfold OptionLetters.lettersOf. split.
  - intros Heq. apply toLetter_Permutation; [done..|].
    by rewrite <- (sort_Permutation (_ <$> chosen)), Heq, sort_Permutation.
  - intros Hp. apply sort_unique; [apply sort_Sorted|].
    by rewrite sort_Permutation, Hp.
Qed.

Lemma clicks_graded_witness :
  let q := Question.mk "q1" "Which two?" "MCQ" (Some ["w"; "x"; "y"; "z"])
             (Some "A,D") (Some 2%Z) in
  QuestionResult.isCorrect
    (StudentPortal.gradeQuestion (OptionLetters.clicks q [3; 0] ∅) q) = true.
Proof.
  intros q.
  apply (clicks_graded q ∅ [0; 3] [3; 0]).
  - reflexivity.
  - reflexivity.
  - repeat constructor; lia.
  - apply (bool_decide_unpack _). vm_compute. exact I.
  - repeat constructor; lia.
  - apply (bool_decide_unpack _). vm_compute. exact I.
  - by vm_compute.
  - reflexivity.
  - reflexivity.
  - apply Permutation_swap.
Defined.

(** X6.  A key that holds more letters than [maxSelection] cannot be
    matched: whatever options the student clicks, and however often, the
    answer is graded incorrect. *)
Theorem clicks_key_beyond_limit (q : Question.t) (answers : gmap string string)
    (key chosen : list nat) :
  Question.type q = "MCQ" → AssignmentViewer.isMulti q = true →
  Forall (λ i, i < 26) key → NoDup key →
  (AssignmentViewer.maxSelectionOr1 q < Z.of_nat (length key))%Z →
  Forall (λ i, i < 26) chosen →
  Question.correctAnswer q = OptionLetters.keyClicks key →
  answers !! Question.id q = None →
  QuestionResult.isCorrect
    (StudentPortal.gradeQuestion (OptionLetters.clicks q chosen answers) q)
  = false.
Proof.
  intros Htype Hmulti Hkey Hnk Hmax Hch Hq Hnone.
  destruct (keyClicks_letters key Hkey Hnk) as [_ Hk].
  destruct (lettersOf_wellEncoded key Hkey Hnk) as [Hok Hsk].
  destruct (clicks_within_limit q chosen answers Hmulti Hch Hnone)
    as (l & Hsel & Hol & Hlen).
  rewrite <- Hq in Hk.
  rewrite (gradeQuestion_selection q _ _ _ Htype Hmulti Hsel Hol Hk Hok Hsk).
  apply bool_decide_eq_false. intros ->.
  unfold OptionLetters.lettersOf, Js.sort in Hlen.
  rewrite sortBy_length, length_fmap in Hlen. lia.
Qed.

Lemma clicks_key_beyond_limit_witness :
  let q := Question.mk "q1" "Which two?" "MCQ" (Some ["w"; "x"; "y"; "z"])
             (Some "A,B,D") (Some 2%Z) in
  QuestionResult.isCorrect
    (StudentPortal.gradeQuestion (OptionLetters.clicks q [0; 1; 3] ∅) q) = false.
Proof.
  intros q.
  apply (clicks_key_beyond_limit q ∅ [0; 1; 3] [0; 1; 3]).
  - reflexivity.
  - reflexivity.
  - repeat constructor; lia.
  - apply (bool_decide_unpack _). vm_compute. exact I.
  - by vm_compute.
  - repeat constructor; lia.
  - reflexivity.
  - reflexivity.
Defined.

(** ** Class schedules *)

Example parsedItems_two_slots :
  ClassSchedule.parsedItems "Mondays 09:00 - 10:30, Fridays 14:00 - 15:30"
  = [ScheduleSlot.mk "Monday" "09:00" "10:30";
     ScheduleSlot.mk "Friday" "14:00" "15:30"].
Proof. vm_compute. reflexivity. Qed.

Section Schedule.
Import ClassSchedule ScheduleSpec.

Lemma append_assoc (x y z : string) : (x +:+ y) +:+ z = x +:+ (y +:+ z).
Proof.
  induction x as [|c x IH]; [done|].
  change (String c (x +:+ y) +:+ z = String c (x +:+ (y +:+ z))).
  change (String c ((x +:+ y) +:+ z) = String c (x +:+ (y +:+ z))).
  by rewrite IH.
Qed.

Lemma every_impl (p q : ascii → bool) s :
  (∀ c, p c = true → q c = true) → Js.every p s = true → Js.every q s = true.
Proof.
  intros Hpq. induction s as [|c s IH]; [done|]. simpl.
  intros [Hc Hs]%andb_prop. by rewrite (Hpq c Hc), (IH Hs).
Qed.

(** Cutting at a comma followed by a space. *)
Lemma prefix_separator rest :
  String.prefix ", " (String "," (String " " rest)) = true.
Proof. by destruct rest. Qed.

Lemma prefix_other c x : c ≠ ","%char → String.prefix ", " (String c x) = false.
Proof.
  intros Hc. cbn [String.prefix].
  by destruct (ascii_dec "," c) as [Heq|_]; [destruct Hc|].
Qed.

Lemma splitOn_noComma x : Js.noComma x → Js.splitOn ", " x = [x].
Proof.
  unfold Js.noComma, Js.splitOn. induction x as [|c x IH]; [done|].
  cbn [Js.every]. intros [Hc Hx]%andb_prop.
  apply negb_true_iff, Ascii.eqb_neq in Hc.
  cbn [Js.splitFrom]. by rewrite prefix_other, (IH Hx).
Qed.

Lemma splitOn_append x rest :
  Js.noComma x →
  Js.splitOn ", " (x +:+ ", " +:+ rest) = x :: Js.splitOn ", " rest.
Proof.
  unfold Js.noComma, Js.splitOn. induction x as [|c x IH].
  - intros _. change ("" +:+ ", " +:+ rest) with (String "," (String " " rest)).
    cbn [Js.splitFrom]. by rewrite prefix_separator.
  - cbn [Js.every]. intros [Hc Hx]%andb_prop.
    apply negb_true_iff, Ascii.eqb_neq in Hc.
    change (String c x +:+ ", " +:+ rest) with (String c (x +:+ ", " +:+ rest)).
    cbn [Js.splitFrom]. by rewrite prefix_other, (IH Hx).
Qed.

Lemma splitOn_join l :
  l ≠ [] → Forall Js.noComma l → Js.splitOn ", " (Js.join ", " l) = l.
Proof.
  induction l as [|x [|y l] IH]; intros Hne Hl; [done| |].
  - simpl. apply splitOn_noComma. by inversion Hl.
  - rewrite join_cons2. inversion Hl as [|?? Hx Hl']; subst.
    rewrite splitOn_append by done. f_equal. by apply IH.
Qed.

Lemma isClockTime_inv t :
  isClockTime t = true →
  ∃ a b d e, t = String a (String b (String ":" (String d (String e ""))))
    ∧ Js.isDigit a = true ∧ Js.isDigit b = true ∧ Js.isDigit d = true
    ∧ Js.isDigit e = true.
Proof.
  destruct t as [|a [|b [|c [|d [|e [|??]]]]]]; try done. simpl.
  intros Ht. repeat (apply andb_prop in Ht as [Ht ?]).
  exists a, b, d, e. split_and!; try done.
  f_equal. f_equal. f_equal. by apply Ascii.eqb_eq.
Qed.

Lemma matchTime_clockTime t rest :
  isClockTime t = true → matchTime (t +:+ rest) = Some (t, rest).
Proof.
  intros (a & b & d & e & -> & Ha & Hb & Hd & He)%isClockTime_inv.
  simpl. by rewrite Ha, Hb, Hd, He.
Qed.

Lemma matchTime_clockTime_end t :
  isClockTime t = true → matchTime t = Some (t, "").
Proof.
  intros (a & b & d & e & -> & Ha & Hb & Hd & He)%isClockTime_inv.
  simpl. by rewrite Ha, Hb, Hd, He.
Qed.

Lemma span_append p x c rest :
  Js.every p x = true → p c = false →
  Js.span p (x +:+ String c rest) = (x, String c rest).
Proof.
  intros Hx Hc. induction x as [|d x IH]; simpl; [by rewrite Hc|].
  simpl in Hx. apply andb_prop in Hx as [Hd Hx]. by rewrite Hd, (IH Hx).
Qed.

Lemma dropFinalS_append x : ClassSchedule.dropFinalS (x +:+ "s") = Some x.
Proof.
  induction x as [|c x IH]; [done|].
  change (String c x +:+ "s") with (String c (x +:+ "s")).
  cbn [dropFinalS]. rewrite IH. by destruct x.
Qed.

Lemma matchSlot_formattedSlot item :
  wellFormed item → matchSlot (formattedSlot item) = Some item.
Proof.
  destruct item as [day st et]. intros (Hne & Hday & Hst & Het). simpl in *.
  unfold matchSlot, formattedSlot. simpl.
  replace (day +:+ "s " +:+ st +:+ " - " +:+ et)
    with ((day +:+ "s") +:+ String " " (st +:+ " - " +:+ et))
    by by rewrite append_assoc.
  rewrite span_append; [|by rewrite every_append, Hday|done].
  rewrite dropFinalS_append, bool_decide_false by done.
  rewrite matchTime_clockTime by done. simpl.
  by rewrite matchTime_clockTime_end.
Qed.

Lemma trimEnd_last x c :
  Js.isWhiteSpace c = false → Js.trimEnd (x +:+ String c "") = x +:+ String c "".
Proof.
  intros Hc. induction x as [|d x IH]; simpl; [by rewrite Hc|].
  rewrite IH. by destruct x.
Qed.

Lemma isAsciiLetter_noSpace c :
  Js.isAsciiLetter c = true → Js.isWhiteSpace c = false.
Proof.
  unfold Js.isAsciiLetter, Js.isWhiteSpace. intros H%bool_decide_eq_true.
  apply bool_decide_eq_false. rewrite !elem_of_cons, elem_of_nil. lia.
Qed.

Lemma isDigit_noSpace c : Js.isDigit c = true → Js.isWhiteSpace c = false.
Proof.
  unfold Js.isDigit, Js.isWhiteSpace. intros H%bool_decide_eq_true.
  apply bool_decide_eq_false. rewrite !elem_of_cons, elem_of_nil. lia.
Qed.

Lemma trim_formattedSlot item :
  wellFormed item → Js.trim (formattedSlot item) = formattedSlot item.
Proof.
  destruct item as [day st et]. intros (Hne & Hday & Hst & Het). simpl in *.
  unfold formattedSlot, Js.trim. simpl.
  destruct day as [|c day]; [done|].
  simpl in Hday. apply andb_prop in Hday as [Hc _].
  change (String c day +:+ "s " +:+ st +:+ " - " +:+ et)
    with (String c (day +:+ "s " +:+ st +:+ " - " +:+ et)).
  rewrite trimStart_noSpace by by apply isAsciiLetter_noSpace.
  apply isClockTime_inv in Het as (a & b & d & e & -> & _ & _ & _ & He).
  replace (String c (day +:+ "s " +:+ st +:+ " - " +:+
             String a (String b (String ":" (String d (String e ""))))))
    with ((String c (day +:+ "s " +:+ st +:+ " - " +:+
             String a (String b (String ":" (String d "")))))
          +:+ String e "").
  { apply trimEnd_last. by apply isDigit_noSpace. }
  change (String c ?x +:+ ?y) with (String c (x +:+ y)). f_equal.
  by rewrite !append_assoc.
Qed.

Lemma formattedSlot_noComma item :
  wellFormed item → Js.noComma (formattedSlot item).
Proof.
  destruct item as [day st et]. intros (Hne & Hday & Hst & Het). simpl in *.
  unfold formattedSlot, Js.noComma. simpl.
  apply isClockTime_inv in Hst as (a & b & d & e & -> & Ha & Hb & Hd & He).
  apply isClockTime_inv in Het as (a' & b' & d' & e' & -> & Ha' & Hb' & Hd' & He').
  rewrite !every_append. simpl.
  assert (∀ c, Js.isDigit c = true → negb (Ascii.eqb c ",") = true) as Hdig.
  { intros c Hc. apply negb_true_iff, Ascii.eqb_neq. intros ->. done. }
  rewrite (every_impl Js.isAsciiLetter _ day); [|  |done].
  - by rewrite !Hdig.
  - intros c Hc. apply negb_true_iff, Ascii.eqb_neq. intros ->. done.
Qed.

Lemma parsedItems_formattedSchedule items :
  Forall wellFormed items → parsedItems (formattedSchedule items) = items.
Proof.
  intros Hitems. unfold parsedItems, formattedSchedule.
  destruct (decide (items = [])) as [->|Hne]; [done|].
  rewrite splitOn_join.
  - induction Hitems as [|item items Hitem _ IH]; [done|].
    cbn [fmap list_fmap omap list_omap].
    rewrite trim_formattedSlot, matchSlot_formattedSlot by done.
    destruct items as [|item' items]; [done|]. f_equal. by apply IH.
  - by destruct items.
  - apply Forall_fmap. eapply Forall_impl; [done|]. apply formattedSlot_noComma.
Qed.

End Schedule.

(** X7.  The text under which the slots of a class are stored is read back
    as the same slots when the class is edited: for slots whose day is a
    word of letters and whose times have the form [hh:mm], and at least one
    slot, the form shows the slots that were saved. *)
Theorem schedule_round_trip (c : ClassGroup.t) (s : ClassSchedule.State)
    (items : list ScheduleSlot.t) :
  Forall ScheduleSpec.wellFormed items → items ≠ [] →
  ClassGroup.schedule c = ClassSchedule.formattedSchedule items →
  ClassSchedule.scheduleItems (ClassSchedule.openClassModalForEdit (Some c) s)
  = items.
Proof.
  intros Hitems Hne Hc. unfold ClassSchedule.openClassModalForEdit.
  cbn [ClassSchedule.scheduleItems].
  rewrite Hc, parsedItems_formattedSchedule by done.
  rewrite bool_decide_true; [done|]. destruct items; [done|simpl; lia].
Qed.

Lemma schedule_round_trip_witness :
  let items := [ScheduleSlot.mk "Monday" "09:00" "10:30";
                ScheduleSlot.mk "Thursday" "18:15" "19:45"] in
  let c := ClassGroup.mk "c1" "Evening class"
             "Mondays 09:00 - 10:30, Thursdays 18:15 - 19:45" None in
  let s := ClassSchedule.Build_State None None None [] "Monday" "09:00" "10:30"
             false in
  ClassSchedule.scheduleItems (ClassSchedule.openClassModalForEdit (Some c) s)
  = items.
Proof.
  intros items c s. apply (schedule_round_trip c s items).
  - repeat constructor; done.
  - discriminate.
  - reflexivity.
Defined.

Lemma indexOf_days dayName :
  Js.indexOf dayName ClassSchedule.days = (-1)%Z
  ∨ (0 ≤ Js.indexOf dayName ClassSchedule.days < 7)%Z.
Proof.
  unfold ClassSchedule.days. cbn [Js.indexOf].
  repeat (destruct (String.eqb _ dayName); [right; by vm_compute|]).
  left. reflexivity.
Qed.

(** X8.  The next occurrence of a day of the week lies one to seven days
    ahead, never on the day itself, and falls on the day asked for.  A name
    that is no day of the week gives the Saturday of the same week, the day
    itself included. *)
Theorem getNextDayOfWeek_weekday (date : Z) (dayName : string) :
  let target := Js.indexOf dayName ClassSchedule.days in
  let next := ClassSchedule.getNextDayOfWeek date dayName in
  ((0 ≤ target)%Z →
     (date < next ≤ date + 7)%Z ∧ ClassSchedule.getDay next = target)
  ∧ (target = (-1)%Z →
     (date ≤ next < date + 7)%Z ∧ ClassSchedule.getDay next = 6%Z).
Proof.
  intros target next.
  pose proof (indexOf_days dayName) as Ht. fold target in Ht.
  unfold next, ClassSchedule.getNextDayOfWeek, ClassSchedule.getDay.
  fold target. cbv zeta.
  pose proof (Z.mod_pos_bound (date + 4) 7 ltac:(lia)) as Hm.
  pose proof (Z.div_mod (date + 4) 7 ltac:(lia)) as Hd.
  set (m := ((date + 4) `mod` 7)%Z) in *.
  set (k := ((date + 4) `div` 7)%Z) in *.
  split.
  - intros H0. destruct (Z.leb_spec (target - m) 0) as [Hle|Hgt].
    + split; [lia|]. symmetry. apply (Z.mod_unique_pos _ _ (k + 1)); lia.
    + split; [lia|]. symmetry. apply (Z.mod_unique_pos _ _ k); lia.
  - intros ->. rewrite (proj2 (Z.leb_le _ _)) by lia.
    split; [lia|]. symmetry. apply (Z.mod_unique_pos _ _ k); lia.
Qed.

Lemma getNextDayOfWeek_weekday_witness :
  ClassSchedule.getNextDayOfWeek 20759 "Monday" = 20766%Z
  ∧ ClassSchedule.getDay 20766 = 1%Z.
Proof.
  destruct (getNextDayOfWeek_weekday 20759 "Monday") as [H _].
  destruct (H ltac:(by vm_compute)) as [_ Hday].
  split; [by vm_compute|exact Hday].
Defined.

(** ** Folders *)

(** A list whose keys increase strictly is the only sorted arrangement of
    its elements. *)
Lemma fmap_eq_Permutation {A} (key : A → Z) (l k : list A) :
  key <$> l = key <$> k → l ≡ₚ k → NoDup (key <$> k) → l = k.
Proof.
  revert k. induction l as [|x l IH]; intros [|y k] Heq Hp Hnd; try done.
  cbn [fmap list_fmap] in Heq, Hnd. injection Heq as Hxy Heq.
  apply NoDup_cons in Hnd as [Hy Hnd].
  assert (x = y) as ->.
  { assert (x ∈ y :: k) as [->|Hx]%elem_of_cons by (rewrite <- Hp; by left); [done|].
    destruct Hy. rewrite <- Hxy. apply list_elem_of_fmap. by exists x. }
  f_equal. apply IH; [done| |done]. by apply (Permutation_cons_inv Hp).
Qed.

Lemma sortBy_strictly_increasing {A} (key : A → Z) (l k : list A) :
  Sorted Z.lt (key <$> l) → k ≡ₚ l →
  Js.sortBy (λ a b, (key a ?= key b)%Z) k = l.
Proof.
  intros Hl Hp. set (cmp := λ a b, (key a ?= key b)%Z).
  assert (Sorted Z.le (key <$> Js.sortBy cmp k)) as Hs.
  { assert (Sorted (Js.cmp_le cmp) (Js.sortBy cmp k)) as H.
    { apply sortBy_Sorted. intros x y. unfold cmp.
      rewrite !Z.compare_gt_iff. lia. }
    induction H as [|x s Hs IH Hhd]; [constructor|].
    cbn [fmap list_fmap]. constructor; [done|].
    destruct Hhd as [|y s Hxy]; constructor.
    unfold Js.cmp_le, cmp in Hxy. by apply Z.compare_le_iff. }
  assert (NoDup (key <$> l)) as Hnd.
  { apply Sorted_StronglySorted in Hl; [|apply _].
    induction Hl as [|x s Hs' IH Hall]; constructor; [|done].
    intros Hx. rewrite Forall_forall in Hall. specialize (Hall x Hx). lia. }
  apply (fmap_eq_Permutation key); [|by rewrite sortBy_Permutation|done].
  apply (Sorted_unique Z.le); [done| |by rewrite sortBy_Permutation, Hp].
  clear -Hl. induction Hl as [|x s Hs IH Hhd]; constructor; [done|].
  destruct Hhd; constructor. lia.
Qed.

Section Folders.
Import Folders FolderStore.

Lemma orderOr0_withOrder i g :
  orderOr0 (AssignmentGroup.withOrder i g) = i.
Proof.
  unfold orderOr0. simpl. destruct (Z.eqb_spec i 0); congruence.
Qed.

Lemma placed_keys_from (n : nat) groups :
  orderOr0 <$> imap (λ index g, AssignmentGroup.withOrder (Z.of_nat (n + index)) g) groups
  = Z.of_nat <$> seq n (length groups).
Proof.
  revert n. induction groups as [|g groups IH]; intros n; [done|].
  cbn [imap length seq fmap list_fmap].
  rewrite orderOr0_withOrder, Nat.add_0_r. f_equal.
  rewrite <- (IH (S n)). f_equal. apply imap_ext. intros i x _. simpl.
  by rewrite Nat.add_succ_r.
Qed.

Lemma seq_sorted n len : Sorted Z.lt (Z.of_nat <$> seq n len).
Proof.
  revert n. induction len as [|len IH]; intros n; [constructor|].
  cbn [seq fmap list_fmap]. constructor; [apply IH|].
  destruct len; constructor. lia.
Qed.

Lemma placed_sorted groups : Sorted Z.lt (orderOr0 <$> placed groups).
Proof.
  unfold placed. pose proof (placed_keys_from 0 groups) as H.
  cbn [Nat.add] in H. rewrite H. apply seq_sorted.
Qed.

(** What a committed batch of reorder updates does to a document. *)
Lemma committed_reorder_from (n : nat) groups docs :
  NoDup (AssignmentGroup.id <$> groups) →
  committed (imap (λ index g, (AssignmentGroup.id g, Z.of_nat (n + index))) groups) docs
  = (λ g, match list_find (λ h, AssignmentGroup.id h = AssignmentGroup.id g) groups with
          | Some (i, _) => AssignmentGroup.withOrder (Z.of_nat (n + i)) g
          | None => g
          end) <$> docs.
Proof.
  revert n docs. induction groups as [|h t IH]; intros n docs Hnd.
  { cbn. by rewrite list_fmap_id. }
  cbn [fmap list_fmap] in Hnd. apply NoDup_cons in Hnd as [Hh Hnd].
  cbn [imap committed foldl]. fold (committed
    (imap ((λ index g, (AssignmentGroup.id g, Z.of_nat (n + index))) ∘ S) t)
    (update (AssignmentGroup.id h, Z.of_nat (n + 0)) docs)).
  rewrite (imap_ext _ (λ index g, (AssignmentGroup.id g, Z.of_nat (S n + index))))
    by (intros; simpl; by rewrite Nat.add_succ_r).
  rewrite (IH (S n) _ Hnd). unfold update. rewrite <- list_fmap_compose.
  apply list_fmap_ext. intros _ g _. cbn [compose fst snd list_find].
  destruct (decide (AssignmentGroup.id g = AssignmentGroup.id h)) as [Heq|Hne].
  - rewrite decide_True by done. cbn [AssignmentGroup.withOrder AssignmentGroup.id].
    destruct (list_find _ t) as [[i y]|] eqn:Hfind; [|done].
    apply list_find_Some in Hfind as (Hy & Hid & _). destruct Hh.
    apply list_elem_of_fmap. exists y. split; [congruence|].
    by eapply list_elem_of_lookup_2.
  - rewrite decide_False by done.
    destruct (list_find _ t) as [[i y]|]; [|done]. simpl.
    by rewrite Nat.add_succ_r.
Qed.

Lemma committed_reorder groups docs :
  NoDup (AssignmentGroup.id <$> groups) →
  committed (handleReorderAssignmentGroups groups) docs
  = (λ g, match list_find (λ h, AssignmentGroup.id h = AssignmentGroup.id g) groups with
          | Some (i, _) => AssignmentGroup.withOrder (Z.of_nat i) g
          | None => g
          end) <$> docs.
Proof. apply (committed_reorder_from 0). Qed.

Lemma reorder_placed groups :
  NoDup (AssignmentGroup.id <$> groups) →
  (λ g, match list_find (λ h, AssignmentGroup.id h = AssignmentGroup.id g) groups with
        | Some (i, _) => AssignmentGroup.withOrder (Z.of_nat i) g
        | None => g
        end) <$> groups
  = placed groups.
Proof.
  intros Hnd. apply list_eq. intros i. unfold placed.
  rewrite list_lookup_fmap, list_lookup_imap.
  destruct (groups !! i) as [g|] eqn:Hg; [|done]. simpl.
  assert (list_find (λ h, AssignmentGroup.id h = AssignmentGroup.id g) groups
          = Some (i, g)) as ->; [|done].
  apply list_find_Some. split_and!; [done..|].
  intros j y Hy Hji Hid.
  assert (j = i); [|lia].
  apply (NoDup_lookup _ _ _ (AssignmentGroup.id g) Hnd);
    rewrite list_lookup_fmap; [by rewrite Hy, <- Hid|by rewrite Hg].
Qed.

Lemma reorder_keeps_class c groups g :
  AssignmentGroup.classId
    (match list_find (λ h, AssignmentGroup.id h = AssignmentGroup.id g) groups with
     | Some (i, _) => AssignmentGroup.withOrder (Z.of_nat i) g
     | None => g
     end) = c
  ↔ AssignmentGroup.classId g = c.
Proof. by destruct (list_find _ groups) as [[??]|]. Qed.

Lemma filter_fmap_keeps {A} (P : A → Prop) `{!∀ x, Decision (P x)}
    (f : A → A) (l : list A) :
  (∀ x, P (f x) ↔ P x) → filter P (f <$> l) = f <$> filter P l.
Proof.
  intros Hf. induction l as [|x l IH]; [done|].
  cbn [fmap list_fmap]. rewrite !filter_cons.
  destruct (decide (P x)) as [Hx|Hx].
  - rewrite decide_True by by apply Hf. cbn [fmap list_fmap]. by rewrite IH.
  - rewrite decide_False by by rewrite Hf. done.
Qed.

End Folders.

(** X9.  Dragging a folder over another place moves it there: the list
    of folders keeps its elements, the folder dragged stands at the place
    pointed at, which becomes the place dragged from, and the other folders
    keep their order. *)
Theorem handleDragOver_moves (index dragged : nat) (s : Folders.State)
    (g : AssignmentGroup.t) :
  Folders.draggedGroupIndex s = Some dragged →
  Folders.localGroups s !! dragged = Some g →
  index < length (Folders.localGroups s) →
  ∃ s', Folders.handleDragOver index s = Some s'
    ∧ Folders.localGroups s' ≡ₚ Folders.localGroups s
    ∧ Folders.localGroups s' !! index = Some g
    ∧ delete index (Folders.localGroups s') = delete dragged (Folders.localGroups s)
    ∧ Folders.draggedGroupIndex s' = Some index.
Proof.
  intros Hd Hg Hindex. unfold Folders.handleDragOver. rewrite Hd.
  case_bool_decide as Heq.
  { subst. exists s. split_and!; done. }
  rewrite Hg. eexists. split; [done|]. cbn [Folders.localGroups Folders.draggedGroupIndex].
  unfold Js.spliceIn, Js.spliceOut.
  set (rest := delete dragged (Folders.localGroups s)).
  assert (length rest = length (Folders.localGroups s) - 1) as Hlen.
  { unfold rest. rewrite length_delete; [lia|done]. }
  assert (length (take index rest) = index) as Htake.
  { rewrite length_take. lia. }
  split_and!; [| | |done].
  - rewrite <- Permutation_middle, take_drop.
    symmetry. by apply delete_Permutation.
  - rewrite lookup_app_r by lia. by rewrite Htake, Nat.sub_diag.
  - rewrite <- Htake at 1. rewrite delete_middle. apply take_drop.
Qed.

Lemma handleDragOver_moves_witness :
  let f := λ i, AssignmentGroup.mk i "c1" i None "2026-01-01T00:00:00.000Z" None in
  let s := Folders.Build_State [f "g1"; f "g2"; f "g3"] (Some 0) "" None false None in
  ∃ s', Folders.handleDragOver 2 s = Some s'
    ∧ Folders.localGroups s' = [f "g2"; f "g3"; f "g1"].
Proof.
  intros f s.
  destruct (handleDragOver_moves 2 0 s (f "g1") eq_refl eq_refl ltac:(simpl; lia))
    as (s' & Hs' & _).
  exists s'. split; [exact Hs'|].
  vm_compute in Hs'. injection Hs' as <-. reflexivity.
Defined.

(** X10.  Once the order of the folders of a class, as arranged by
    dragging, has been committed to the store, the folders are shown in
    that order, in whatever order the store delivers its documents: the
    folder at place [i] has order [i]. *)
Theorem reorder_round_trip (classId : string) (docs stored shown : list AssignmentGroup.t)
    (s : Folders.State) :
  classId ≠ "" →
  NoDup (AssignmentGroup.id <$> docs) →
  shown ≡ₚ filter (λ g, AssignmentGroup.classId g = classId) docs →
  stored ≡ₚ FolderStore.committed (Folders.handleReorderAssignmentGroups shown) docs →
  Folders.localGroups (Folders.syncLocalGroups (Some classId) stored s)
  = FolderStore.placed shown.
Proof.
  intros Hc Hnd Hshown Hstored. unfold Folders.syncLocalGroups.
  apply String.eqb_neq in Hc. cbn [Js.truthy Js.orEmpty default]. rewrite Hc.
  cbn [negb Folders.localGroups].
  assert (NoDup (AssignmentGroup.id <$> shown)) as Hnd'.
  { rewrite Hshown. clear -Hnd. induction docs as [|g docs IH]; [constructor|].
    cbn [fmap list_fmap] in Hnd. apply NoDup_cons in Hnd as [Hg Hnd].
    rewrite filter_cons. case_decide; [|by apply IH].
    cbn [fmap list_fmap]. constructor; [|by apply IH].
    intros (y & Hy & [_ Hin]%list_elem_of_filter)%list_elem_of_fmap.
    apply Hg, list_elem_of_fmap. by exists y. }
  apply (sortBy_strictly_increasing Folders.orderOr0); [apply placed_sorted|].
  rewrite Hstored, committed_reorder by done.
  rewrite filter_fmap_keeps by (intros; apply reorder_keeps_class).
  rewrite <- Hshown. by rewrite reorder_placed.
Qed.

Lemma reorder_round_trip_witness :
  let f := λ i o, AssignmentGroup.mk i "c1" i None "2026-01-01T00:00:00.000Z" o in
  let other := AssignmentGroup.mk "g9" "c2" "Mock tests" None "2026-01-01T00:00:00.000Z" None in
  let docs := [f "g1" (Some 0%Z); other; f "g2" (Some 1%Z); f "g3" (Some 2%Z)] in
  let shown := [f "g3" (Some 2%Z); f "g1" (Some 0%Z); f "g2" (Some 1%Z)] in
  let s := Folders.Build_State shown None "" None false None in
  Folders.localGroups
    (Folders.syncLocalGroups (Some "c1")
       (FolderStore.committed (Folders.handleReorderAssignmentGroups shown) docs) s)
  = [f "g3" (Some 0%Z); f "g1" (Some 1%Z); f "g2" (Some 2%Z)].
Proof.
  intros f other docs shown s.
  apply (reorder_round_trip "c1" docs _ shown s).
  - discriminate.
  - apply (bool_decide_unpack _). vm_compute. exact I.
  - change (filter _ docs) with [f "g1" (Some 0%Z); f "g2" (Some 1%Z); f "g3" (Some 2%Z)].
    apply (Permutation_app_comm [f "g3" (Some 2%Z)] [f "g1" (Some 0%Z); f "g2" (Some 1%Z)]).
  - reflexivity.
Defined.

(** ** Values handed to the store *)

Example sanitize_drops_undefined :
  Sanitize.sanitizeForFirestore
    (VObject 1 [("title", VString "Week 1"); ("description", VUndefined);
                ("order", VNumber (JsNumber.ofZ 2))])
  = VObject () [("title", VString "Week 1"); ("order", VNumber (JsNumber.ofZ 2))].
Proof. reflexivity. Qed.

(** An object that occurs twice is kept at its first occurrence only. *)
Example sanitize_shared_object :
  let shared := VObject 2 [("text", VString "x")] in
  Sanitize.sanitizeForFirestore (VArray 1 [shared; shared])
  = VArray () [VObject () [("text", VString "x")]].
Proof. reflexivity. Qed.

Section Sanitize.
Import Sanitize.
#[local] Set Warnings "-clear-no-such-hyp".

Lemma JsValue_induction {R} (P : JsValue R → Prop) :
  P VUndefined → P VNull → (∀ b, P (VBool b)) → (∀ n, P (VNumber n)) →
  (∀ s, P (VString s)) → (∀ sec nano, P (VTimestamp sec nano)) →
  (∀ ref items, Forall P items → P (VArray ref items)) →
  (∀ ref fields, Forall (λ kx, P kx.2) fields → P (VObject ref fields)) →
  ∀ v, P v.
Proof.
  intros Hu Hn Hb Hnum Hs Ht Harr Hobj. fix IH 1.
  intros [| |b|n|s|sec nano|ref items|ref fields].
  - exact Hu.
  - exact Hn.
  - apply Hb.
  - apply Hnum.
  - apply Hs.
  - apply Ht.
  - apply Harr. induction items as [|x items IHitems]; constructor;
      [apply IH|exact IHitems].
  - apply Hobj. induction fields as [|[k x] fields IHfields]; constructor;
      [apply IH|exact IHfields].
Qed.

(** The result of the traversal has no [undefined] inside. *)
Lemma sanitize_defined_inside v seen :
  defined_inside (sanitize v seen).1 = true.
Proof.
  revert seen. induction v as [| | | | | |ref items IH|ref fields IH]
    using JsValue_induction; intros seen; try done.
  - cbn [sanitize]. case_decide; [done|]. generalize ({[ref]} ∪ seen).
    intros seen0.
    assert (Forall (λ y, defined_inside y = true)
              (mapItems sanitize items seen0).1) as Hall.
    { revert seen0. induction IH as [|x items Hx _ IHitems]; intros seen0;
        [constructor|].
      cbn [mapItems]. specialize (Hx seen0).
      destruct (sanitize x seen0) as [y seen1].
      specialize (IHitems seen1).
      destruct (mapItems sanitize items seen1) as [ys seen2].
      by constructor. }
    destruct (mapItems sanitize items seen0) as [ys seen'].
    cbn [fst defined_inside] in *.
    apply forallb_forall. intros y [Hy Hdef]%filter_In.
    rewrite Hdef. rewrite Forall_forall in Hall. apply Hall.
    by apply list_elem_of_In.
  - cbn [sanitize]. case_decide; [done|]. generalize ({[ref]} ∪ seen).
    intros seen0.
    assert (Forall (λ ky, isDefined ky.2 && defined_inside ky.2 = true)
              (eachField sanitize fields seen0).1) as Hall.
    { revert seen0. induction IH as [|[k x] fields Hx _ IHfields]; intros seen0;
        [constructor|].
      cbn [eachField]. specialize (Hx seen0). cbn [snd] in Hx.
      destruct (sanitize x seen0) as [y seen1].
      specialize (IHfields seen1).
      destruct (eachField sanitize fields seen1) as [ys seen2].
      cbn [fst] in *. destruct (isDefined y) eqn:Hy; [|done].
      constructor; [|done]. cbn [snd]. by rewrite Hy. }
    destruct (eachField sanitize fields seen0) as [ys seen'].
    cbn [fst defined_inside] in *.
    apply forallb_forall. intros ky Hky%list_elem_of_In.
    rewrite Forall_forall in Hall. by apply Hall.
Qed.

Lemma sanitize_isDefined v : isDefined (sanitize v ∅).1 = isDefined v.
Proof.
  destruct v as [| | | | | |ref items|ref fields]; try done.
  - cbn [sanitize]. rewrite decide_False by set_solver.
    by repeat match goal with |- context [let '(_, _) := ?x in _] => destruct x end.
  - cbn [sanitize]. rewrite decide_False by set_solver.
    by repeat match goal with |- context [let '(_, _) := ?x in _] => destruct x end.
Qed.

End Sanitize.

(** X11.  What [sanitizeForFirestore] returns holds no [undefined]: none
    as an element of an array or as a field of an object, at any depth; the
    result itself is [undefined] only when the value given is. *)
Theorem sanitizeForFirestore_defined (obj : JsValue nat) :
  Sanitize.defined_inside (Sanitize.sanitizeForFirestore obj) = true
  ∧ Sanitize.isDefined (Sanitize.sanitizeForFirestore obj)
    = Sanitize.isDefined obj.
Proof.
  split; [apply sanitize_defined_inside|apply sanitize_isDefined].
Qed.

Section SanitizeTree.
Import Sanitize.
#[local] Set Warnings "-clear-no-such-hyp".

Lemma isDefined_plain {R} (v : JsValue R) : isDefined (plain v) = isDefined v.
Proof. by destruct v. Qed.

Lemma filter_isDefined_plain {R} (items : list (JsValue R)) :
  forallb (λ x, isDefined x && defined_inside x) items = true →
  List.filter isDefined (List.map plain items) = List.map plain items.
Proof.
  induction items as [|x items IH]; [done|]. cbn [forallb List.map List.filter].
  intros [[Hx _]%andb_prop Hrest]%andb_prop.
  by rewrite isDefined_plain, Hx, IH.
Qed.

(** A value without [undefined] inside, in which no array or object occurs
    twice, is copied as it is. *)
Lemma sanitize_tree v seen :
  NoDup (refs v) → (∀ r, r ∈ refs v → r ∉ seen) → defined_inside v = true →
  sanitize v seen = (plain v, list_to_set (refs v) ∪ seen).
Proof.
  revert seen. induction v as [| | | | | |ref items IH|ref fields IH]
    using JsValue_induction; intros seen Hnd Hfresh Hdef;
    try (cbn; f_equal; set_solver).
  - cbn [refs] in Hnd, Hfresh. apply NoDup_cons in Hnd as [Href Hnd].
    cbn [sanitize]. rewrite decide_False by (apply Hfresh; by left).
    cbn [defined_inside] in Hdef.
    assert (∀ seen0, (∀ r, r ∈ flat_map refs items → r ∉ seen0) →
              mapItems sanitize items seen0
              = (List.map plain items, list_to_set (flat_map refs items) ∪ seen0))
      as Hmap.
    { clear Href Hfresh. induction IH as [|x items Hx _ IHitems]; intros seen0 Hfresh.
      { cbn. f_equal. set_solver. }
      cbn [flat_map] in Hnd, Hfresh. apply NoDup_app in Hnd as (Hndx & Hdisj & Hnd).
      cbn [forallb] in Hdef. apply andb_prop in Hdef as [[_ Hdx]%andb_prop Hdef].
      cbn [mapItems]. rewrite Hx; [|done| |done].
      2:{ intros r Hr. apply Hfresh. rewrite elem_of_app. by left. }
      rewrite IHitems; [|done..|].
      2:{ intros r Hr. rewrite elem_of_union, elem_of_list_to_set.
          intros [Hrx|Hrs]; [by apply (Hdisj r)|].
          revert Hrs. apply Hfresh. rewrite elem_of_app. by right. }
      cbn [List.map flat_map]. f_equal. rewrite list_to_set_app_L. set_solver. }
    rewrite Hmap.
    2:{ intros r Hr. rewrite elem_of_union, elem_of_singleton.
        intros [->|Hrs]; [done|]. revert Hrs. apply Hfresh. by right. }
    cbn [plain refs]. rewrite filter_isDefined_plain by done.
    f_equal. cbn [list_to_set foldr]. set_solver.
  - cbn [refs] in Hnd, Hfresh. apply NoDup_cons in Hnd as [Href Hnd].
    cbn [sanitize]. rewrite decide_False by (apply Hfresh; by left).
    cbn [defined_inside] in Hdef.
    assert (∀ seen0, (∀ r, r ∈ flat_map (λ kx, refs kx.2) fields → r ∉ seen0) →
              eachField sanitize fields seen0
              = (List.map (λ kx, (kx.1, plain kx.2)) fields,
                 list_to_set (flat_map (λ kx, refs kx.2) fields) ∪ seen0))
      as Heach.
    { clear Href Hfresh. induction IH as [|[k x] fields Hx _ IHfields];
        intros seen0 Hfresh.
      { cbn. f_equal. set_solver. }
      cbn [flat_map snd] in Hnd, Hfresh.
      apply NoDup_app in Hnd as (Hndx & Hdisj & Hnd).
      cbn [forallb snd] in Hdef.
      apply andb_prop in Hdef as [[Hisx Hdx]%andb_prop Hdef].
      cbn [snd] in Hx.
      cbn [eachField]. rewrite Hx; [|done| |done].
      2:{ intros r Hr. apply Hfresh. rewrite elem_of_app. by left. }
      rewrite IHfields; [|done..|].
      2:{ intros r Hr. rewrite elem_of_union, elem_of_list_to_set.
          intros [Hrx|Hrs]; [by apply (Hdisj r)|].
          revert Hrs. apply Hfresh. rewrite elem_of_app. by right. }
      rewrite isDefined_plain, Hisx.
      cbn [List.map flat_map fst snd]. f_equal. rewrite list_to_set_app_L. set_solver. }
    rewrite Heach.
    2:{ intros r Hr. rewrite elem_of_union, elem_of_singleton.
        intros [->|Hrs]; [done|]. revert Hrs. apply Hfresh. by right. }
    cbn [plain refs]. f_equal. cbn [list_to_set foldr]. set_solver.
Qed.

End SanitizeTree.

(** X12.  A value that holds no [undefined] and in which no array or
    object occurs twice is handed to the store as it is. *)
Theorem sanitizeForFirestore_tree (obj : JsValue nat) :
  NoDup (Sanitize.refs obj) → Sanitize.defined_inside obj = true →
  Sanitize.sanitizeForFirestore obj = Sanitize.plain obj.
Proof.
  intros Hnd Hdef. unfold Sanitize.sanitizeForFirestore.
  rewrite sanitize_tree; [done..| |done]. set_solver.
Qed.

Lemma sanitizeForFirestore_tree_witness :
  let question := VObject 3 [("id", VString "q1"); ("text", VString "[east]");
                             ("options", VArray 4 [])] in
  let obj := VObject 1 [("title", VString "Week 1");
                        ("questions", VArray 2 [question])] in
  Sanitize.sanitizeForFirestore obj
  = VObject () [("title", VString "Week 1");
                ("questions",
                 VArray () [VObject () [("id", VString "q1");
                                        ("text", VString "[east]");
                                        ("options", VArray () [])]])].
Proof.
  intros question obj. apply (sanitizeForFirestore_tree obj).
  - apply (bool_decide_unpack _). vm_compute. exact I.
  - reflexivity.
Defined.

(** ** Students, classes and submissions *)

Section Enrolment.
Import StudentViews TeacherViews.



End Enrolment.



Section Pending.
Import TeacherViews.
Variable assignments : list Assignment.t.

Lemma belongsToClass_unique s c c' :
  belongsToClass assignments c s = true →
  belongsToClass assignments c' s = true → c = c'.
Proof.
  unfold belongsToClass. destruct (find _ assignments); [|done].
  intros H1%String.eqb_eq H2%String.eqb_eq. congruence.
Qed.

Lemma pending_indicator s (cs : list string) :
  NoDup cs →
  sum_list ((λ c, length (filter (λ s, Submission.status s = SUBMITTED
                                       ∧ belongsToClass assignments c s = true) [s]))
            <$> cs)
  ≤ length (filter (λ s, Submission.status s = SUBMITTED) [s]).
Proof.
  intros Hnd. destruct (decide (Submission.status s = SUBMITTED)) as [Hs|Hs].
  - rewrite (filter_cons_True (λ s, Submission.status s = SUBMITTED)) by done.
    cbn [length filter]. induction Hnd as [|c cs Hc Hnd IH]; [simpl; lia|].
    cbn [fmap list_fmap sum_list]. rewrite filter_cons.
    destruct (decide (Submission.status s = SUBMITTED
                      ∧ belongsToClass assignments c s = true)) as [[_ Hb]|Hb].
    + assert (sum_list ((λ c, length (filter (λ s, Submission.status s = SUBMITTED
                ∧ belongsToClass assignments c s = true) [s])) <$> cs) = 0) as ->.
      { clear IH Hnd. induction cs as [|c' cs IH]; [done|].
        cbn [fmap list_fmap sum_list]. rewrite filter_cons, decide_False.
        - rewrite IH; [done|]. intros Hin. apply Hc, elem_of_cons. by right.
        - intros [_ Hb']. apply Hc, elem_of_cons. left.
          by apply (belongsToClass_unique s). }
      simpl. lia.
    + simpl. exact IH.
  - rewrite (filter_cons_False (λ s, Submission.status s = SUBMITTED)) by done.
    cbn [length filter]. clear Hnd. induction cs as [|c cs IH]; [done|].
    cbn [fmap list_fmap sum_list]. rewrite filter_cons, decide_False by tauto.
    simpl. exact IH.
Qed.

Lemma sum_list_fmap_add {A} (f g : A → nat) (l : list A) :
  sum_list ((λ x, f x + g x) <$> l) = sum_list (f <$> l) + sum_list (g <$> l).
Proof. induction l as [|x l IH]; [done|]. rewrite !fmap_cons. simpl. lia. Qed.

End Pending.

(** X14.  A submission that waits for its grade is counted for one class
    at most, the class of the first assignment that carries its
    [assignmentId]: over distinct classes the counts of pending submissions
    add up to no more than the number of pending submissions. *)
Theorem getClassPendingCount_bounded (assignments : list Assignment.t)
    (submissions : list Submission.t) (classIds : list string) :
  NoDup classIds →
  sum_list (TeacherViews.getClassPendingCount assignments submissions <$> classIds)
  ≤ length (TeacherViews.pendingSubmissions submissions).
Proof.
  intros Hnd. unfold TeacherViews.getClassPendingCount, TeacherViews.pendingSubmissions.
  induction submissions as [|s submissions IH].
  { induction classIds as [|c cs IHc]; [done|]. simpl.
    apply NoDup_cons in Hnd as [_ Hnd]. by apply IHc. }
  change (s :: submissions) with ([s] ++ submissions).
  rewrite filter_app, length_app.
  erewrite list_fmap_ext.
  2:{ intros i c _. rewrite filter_app, length_app. reflexivity. }
  rewrite sum_list_fmap_add.
  pose proof (pending_indicator assignments s classIds Hnd). lia.
Qed.

Lemma getClassPendingCount_bounded_witness :
  let a := Assignment.mk "a1" "c1" None "Essay" WRITING "" "2026-01-01"
             None None None None None None None None in
  let sub := Submission.mk "s1" "a1" "u1" "Ann" ∅ SUBMITTED None None None None None in
  TeacherViews.getClassPendingCount [a] [sub] "c1"
  + TeacherViews.getClassPendingCount [a] [sub] "c2" ≤ 1.
Proof.
  intros a sub.
  assert (NoDup ["c1"; "c2"]) as Hnd.
  { apply (bool_decide_unpack _). vm_compute. exact I. }
  pose proof (getClassPendingCount_bounded [a] [sub] ["c1"; "c2"] Hnd) as H.
  cbn [fmap list_fmap sum_list] in H. rewrite Nat.add_0_r in H. exact H.
Defined.

Section AccessCode.
Import TeacherViews.
Variable draw : nat → string.
Variable accessCodes : list (option string).

Local Abbreviation used := (λ code : string, Some code ∈ accessCodes).

Lemma existsb_used code :
  existsb (λ a, bool_decide (a = Some code)) accessCodes = true ↔ used code.
Proof.
  rewrite existsb_exists. split.
  - intros (a & Ha & Heq%bool_decide_eq_true). subst. by apply list_elem_of_In.
  - intros H. exists (Some code). split; [by apply list_elem_of_In|].
    by apply bool_decide_eq_true.
Qed.

Lemma generateAccessCodeLoop_first rounds attempts code i :
  attempts ≤ i < attempts + rounds →
  (∀ j, attempts ≤ j < i → used (draw j)) → ¬ used (draw i) →
  generateAccessCodeLoop draw accessCodes rounds attempts code = draw i.
Proof.
  revert attempts code. induction rounds as [|rounds IH]; intros attempts code Hi Hbefore Hfree;
    [lia|].
  cbn [generateAccessCodeLoop].
  destruct (existsb _ accessCodes) eqn:Hex; cbn [negb].
  - apply existsb_used in Hex.
    assert (attempts ≠ i) by (intros ->; done).
    apply IH; [lia| |done]. intros j Hj. apply Hbefore. lia.
  - destruct (decide (attempts = i)) as [->|Hne]; [done|].
    assert (used (draw attempts)) as Hu by (apply Hbefore; lia).
    apply existsb_used in Hu. congruence.
Qed.

Lemma generateAccessCodeLoop_exhausted rounds attempts code :
  (∀ j, attempts ≤ j < attempts + rounds → used (draw j)) →
  generateAccessCodeLoop draw accessCodes rounds attempts code
  = match rounds with 0 => code | S r => draw (attempts + r) end.
Proof.
  revert attempts code. induction rounds as [|rounds IH]; intros attempts code Hall;
    [done|].
  cbn [generateAccessCodeLoop].
  assert (used (draw attempts)) as Hu by (apply Hall; lia).
  apply existsb_used in Hu. rewrite Hu. cbn [negb].
  rewrite IH by (intros j Hj; apply Hall; lia).
  destruct rounds; [by rewrite Nat.add_0_r|]. f_equal. lia.
Qed.

End AccessCode.

(** X15.  The access code generated for a new student is the first of the
    hundred codes drawn that no student has; when all hundred are taken,
    the code returned is the last one drawn, a code that a student already
    has. *)
Theorem generateAccessCode_unique (draw : nat → string)
    (accessCodes : list (option string)) :
  (∀ i, i < 100 → (∀ j, j < i → Some (draw j) ∈ accessCodes) →
        Some (draw i) ∉ accessCodes →
        TeacherViews.generateAccessCode draw accessCodes = draw i
        ∧ Some (TeacherViews.generateAccessCode draw accessCodes) ∉ accessCodes)
  ∧ ((∀ j, j < 100 → Some (draw j) ∈ accessCodes) →
     TeacherViews.generateAccessCode draw accessCodes = draw 99
     ∧ Some (TeacherViews.generateAccessCode draw accessCodes) ∈ accessCodes).
Proof.
  unfold TeacherViews.generateAccessCode. split.
  - intros i Hi Hbefore Hfree.
    rewrite (generateAccessCodeLoop_first draw accessCodes 100 0 "" i);
      [done|lia| |done].
    intros j Hj. apply Hbefore. lia.
  - intros Hall.
    rewrite (generateAccessCodeLoop_exhausted draw accessCodes 100 0 "");
      [|intros j Hj; apply Hall; lia].
    split; [done|]. apply Hall. lia.
Qed.

Lemma generateAccessCode_unique_witness :
  let draw := λ i : nat, "10000" +:+ pretty i in
  TeacherViews.generateAccessCode draw [Some "100000"; None; Some "100001"]
  = "100002".
Proof.
  intros draw.
  destruct (generateAccessCode_unique draw [Some "100000"; None; Some "100001"])
    as [H _].
  destruct (H 2) as [Heq _]; [lia| | |exact Heq].
  - intros j Hj.
    destruct j as [|[|j]]; [apply (bool_decide_unpack _); vm_compute; exact I..|lia].
  - apply (bool_decide_unpack _). vm_compute. exact I.
Defined.

Section Report.
Import StudentPortal StudentViews.

Lemma length_filter_fmap {A B} (f : A → B) (P : B → Prop)
    `{!∀ y, Decision (P y)} (l : list A) :
  length (filter P (f <$> l)) = length (filter (λ x, P (f x)) l).
Proof.
  induction l as [|x l IH]; [done|]. rewrite fmap_cons, !filter_cons.
  destruct (decide (P (f x))); simpl; by rewrite IH.
Qed.

Lemma gradeAll_report_NoDup answers qs q :
  NoDup (Question.id <$> qs) → q ∈ qs →
  report (gradeAll answers qs) !! Question.id q = Some (gradeQuestion answers q).
Proof.
  intros Hnd (pre & post & ->)%list_elem_of_split.
  apply gradeAll_report_last.
  rewrite fmap_app, fmap_cons in Hnd.
  apply NoDup_app in Hnd as (_ & _ & Hnd). by apply NoDup_cons in Hnd as [? _].
Qed.

End Report.

(** X16.  The report shown after a graded submission agrees with the
    grade: when the questions of the assignment carry distinct identifiers,
    the report has one row per question, in the order of the questions,
    each the result of grading that question, and the grade is the number
    of rows marked correct over the number of rows. *)
Theorem report_rows_agree_with_grade
    (submissionId : string) (user : User.t)
    (metadata : option SubmissionMetadata) (s : StudentPortal.State)
    (a : Assignment.t) (assignments : list Assignment.t) :
  StudentPortal.selectedAssignment s = Some a →
  Assignment.type a = READING ∨ Assignment.type a = LISTENING →
  NoDup (Question.id <$> StudentPortal.allQuestions a) →
  find (λ x, String.eqb (Assignment.id x) (Assignment.id a)) assignments = Some a →
  ∃ sub s',
    StudentPortal.handleSubmit submissionId user metadata s = ([sub], s')
    ∧ StudentPortal.showReportModal s' = true
    ∧ StudentPortal.reportSubmission s' = Some sub
    ∧ let rows := StudentViews.orderedReportItems assignments sub in
      rows = StudentPortal.gradeQuestion (StudentPortal.answers s)
               <$> StudentPortal.allQuestions a
      ∧ Submission.grade sub
        = Some (StudentPortal.gradeString
                  (length (filter (λ r, QuestionResult.isCorrect r = true) rows))
                  (length rows)).
Proof.
  intros Ha Ht Hnd Hfind.
  set (sub := StudentPortal.buildSubmission submissionId user a
                (StudentPortal.answers s) (StudentPortal.transcriptions s) metadata).
  destruct (buildSubmission_fields submissionId user a (StudentPortal.answers s)
              (StudentPortal.transcriptions s) metadata) as (Hst & Hgr & Hrep).
  fold sub in Hst, Hgr, Hrep. rewrite autoGrade_graded in Hst, Hgr, Hrep by done.
  cbn [fst snd] in Hst, Hgr, Hrep.
  assert (Submission.assignmentId sub = Assignment.id a) as Hid.
  { unfold sub, StudentPortal.buildSubmission.
    by destruct (StudentPortal.autoGrade a (StudentPortal.answers s)) as [[??]?]. }
  assert (StudentViews.orderedReportItems assignments sub
          = StudentPortal.gradeQuestion (StudentPortal.answers s)
              <$> StudentPortal.allQuestions a) as Hrows.
  { unfold StudentViews.orderedReportItems. rewrite Hid, Hfind, Hrep.
    apply Forall_fmap_ext, Forall_forall. intros q Hq. cbn [mbind option_bind].
    by rewrite gradeAll_report_NoDup. }
  exists sub. eexists. unfold StudentPortal.handleSubmit. rewrite Ha. fold sub.
  rewrite Hst, bool_decide_true by done.
  split_and!; [reflexivity|done|done|done|].
  cbv zeta. rewrite Hgr, Hrows, length_fmap, length_filter_fmap. do 2 f_equal.
  unfold StudentPortal.gradeAll. by rewrite foldl_gradeStep_correctCount.
Qed.

Lemma report_rows_agree_with_grade_witness :
  let q1 := Question.mk "q1" "t1" "TRUE_FALSE_NG" None (Some "TRUE") None in
  let q2 := Question.mk "q2" "t2" "TRUE_FALSE_NG" None (Some "FALSE") None in
  let a := Assignment.mk "a1" "c1" None "Passage 1" READING "" "2026-01-01"
             None None
             (Some [QuestionGroup.mk "g1" "TRUE_FALSE_NG" None "" None None None [q1; q2]])
             None None None None None in
  let s := StudentPortal.Build_State (Some a) {["q1" := "TRUE"; "q2" := "TRUE"]}
             [] false None 0 None false in
  ∃ sub s',
    StudentPortal.handleSubmit "sub1" (User.mk "u1" "Ann" None) None s = ([sub], s')
    ∧ Submission.grade sub = Some "1/2"
    ∧ QuestionResult.isCorrect <$> StudentViews.orderedReportItems [a] sub
      = [true; false].
Proof.
  intros q1 q2 a s.
  destruct (report_rows_agree_with_grade "sub1" (User.mk "u1" "Ann" None) None s a [a])
    as (sub & s' & Hsub & _ & _ & Hrows & Hgrade).
  - reflexivity.
  - by left.
  - apply (bool_decide_unpack _). vm_compute. exact I.
  - reflexivity.
  - exists sub, s'. split; [exact Hsub|]. cbv zeta in Hrows, Hgrade.
    rewrite Hgrade, Hrows. split; vm_compute; reflexivity.
Defined.

(** ** The table of the gradebook *)

Section Table.
Import GradebookTable.

Lemma submissionMap_snoc submissions sub studentId assignmentId :
  submissionMap (submissions ++ [sub]) !! studentId ≫= (.!! assignmentId)
  = if decide (Submission.studentId sub = studentId
               ∧ Submission.assignmentId sub = assignmentId)
    then Some sub
    else submissionMap submissions !! studentId ≫= (.!! assignmentId).
Proof.
  unfold submissionMap. rewrite foldl_snoc. unfold submissionMapStep at 1.
  set (map := foldl submissionMapStep ∅ submissions).
  destruct (decide (Submission.studentId sub = studentId)) as [<-|Hs].
  - rewrite lookup_insert_eq. cbn [mbind option_bind].
    destruct (decide (Submission.assignmentId sub = assignmentId)) as [<-|Ha].
    + rewrite decide_True by done. by rewrite lookup_insert_eq.
    + rewrite decide_False by tauto. rewrite lookup_insert_ne by done.
      by destruct (map !! Submission.studentId sub).
  - rewrite lookup_insert_ne by done. by rewrite decide_False by tauto.
Qed.

(** The cell of a student and an assignment holds the last submission of
    that student to that assignment. *)
Lemma submissionMap_last submissions studentId assignmentId :
  submissionMap submissions !! studentId ≫= (.!! assignmentId)
  = last (filter (λ sub, Submission.studentId sub = studentId
                         ∧ Submission.assignmentId sub = assignmentId)
            submissions).
Proof.
  induction submissions as [|sub submissions IH] using rev_ind; [done|].
  rewrite submissionMap_snoc, filter_app, filter_cons, filter_nil.
  case_decide.
  - by rewrite last_snoc.
  - by rewrite app_nil_r.
Qed.

End Table.


(** X18.  Grading a submission by hand marks it as graded with the grade
    and the feedback given and leaves its answers and its report as they
    are.  A WRITING or SPEAKING submission has no report, so after it has
    been graded by hand it is shown as graded in the table, with its grade,
    and is still not among the graded submissions of the analytics. *)
Theorem graded_by_hand_outside_analytics
    (Number : string → JsNumber.number)
    (submissionId grade feedback : string) (user : User.t)
    (metadata : option SubmissionMetadata) (s : StudentPortal.State)
    (a : Assignment.t) :
  StudentPortal.selectedAssignment s = Some a →
  Assignment.type a = WRITING ∨ Assignment.type a = SPEAKING →
  grade ≠ "" →
  ∃ sub s',
    StudentPortal.handleSubmit submissionId user metadata s = ([sub], s')
    ∧ let graded := App.handleGradeSubmission grade feedback sub in
      Submission.status graded = GRADED
      ∧ Submission.answers graded = StudentPortal.answers s
      ∧ Gradebook.isGraded graded = false
      ∧ (∀ getTime now,
           GradebookTable.label
             (GradebookTable.getStatus getTime now [graded] (User.id user) a)
           = grade)
      ∧ ∀ selected assignments submissions students data,
          Gradebook.analyticsData Number selected assignments submissions students
          = Some data →
          graded ∉ Gradebook.gradedSubmissions data.
Proof.
  intros Ha Ht Hgrade.
  destruct (handleSubmit_selected submissionId user metadata s a Ha) as [s' Hs'].
  eexists _, s'. split; [exact Hs'|].
  set (sub := StudentPortal.buildSubmission _ _ _ _ _ _).
  destruct (buildSubmission_fields submissionId user a (StudentPortal.answers s)
              (StudentPortal.transcriptions s) metadata) as (_ & _ & Hrep).
  fold sub in Hrep. rewrite autoGrade_ungraded in Hrep by done. cbn [snd] in Hrep.
  assert (Gradebook.isGraded (App.handleGradeSubmission grade feedback sub) = false)
    as Hng.
  { unfold Gradebook.isGraded, App.handleGradeSubmission. cbn [Submission.report].
    rewrite Hrep. rewrite (bool_decide_false (is_Some None)) by (by intros [??]).
    apply andb_false_r. }
  cbv zeta. split_and!; [done| |done| |].
  - unfold sub, StudentPortal.buildSubmission.
    by destruct (StudentPortal.autoGrade a (StudentPortal.answers s)) as [[??]?].
  - intros getTime now. unfold GradebookTable.getStatus.
    rewrite submissionMap_last.
    assert (Submission.studentId sub = User.id user
            ∧ Submission.assignmentId sub = Assignment.id a) as [Hsid Haid].
    { unfold sub, StudentPortal.buildSubmission.
      by destruct (StudentPortal.autoGrade a (StudentPortal.answers s)) as [[??]?]. }
    rewrite filter_cons_True by done. rewrite filter_nil. cbn [last].
    rewrite bool_decide_true by done. cbn [GradebookTable.label].
    unfold TeacherPortal.orElse, App.handleGradeSubmission.
    cbn [Submission.grade Js.truthy].
    apply String.eqb_neq in Hgrade. by rewrite Hgrade.
  - intros selected assignments submissions students data Hdata Hin.
    unfold Gradebook.analyticsData in Hdata.
    destruct (Js.truthy selected); [|done]. cbn [negb] in Hdata.
    destruct (find _ assignments); [|done]. injection Hdata as <-.
    cbn [Gradebook.gradedSubmissions] in Hin.
    apply list_elem_of_filter in Hin as [Hin _]. congruence.
Qed.

Lemma graded_by_hand_outside_analytics_witness :
  let a := Assignment.mk "a1" "c1" None "Essay" WRITING "" "2026-01-01"
             None None None None (Some "TASK_2") (Some "Discuss.") None None in
  let s := StudentPortal.Build_State (Some a) {["essay" := "Some people think"]}
             [] false None 0 None false in
  ∃ sub s',
    StudentPortal.handleSubmit "sub1" (User.mk "u1" "Ann" None) None s = ([sub], s')
    ∧ Gradebook.isGraded (App.handleGradeSubmission "6.5" "Good" sub) = false.
Proof.
  intros a s.
  destruct (graded_by_hand_outside_analytics (λ _, JsNumber.zero) "sub1" "6.5" "Good"
              (User.mk "u1" "Ann" None) None s a eq_refl (or_introl eq_refl))
    as (sub & s' & Hsub & _ & _ & Hng & _); [discriminate|].
  exists sub, s'. split; [exact Hsub|exact Hng].
Defined.

(** ** The builder of question groups *)

Section Builder.
Import QuestionBuilder NotesSpec.

(** The first match of the pattern is the first token of the text. *)
Lemma firstMatch_firstToken text g x rest :
  firstToken text g x rest → ∃ m0, firstMatch text = Some (m0, x).
Proof.
  intros Hfirst. unfold firstMatch.
  pose proof (tokens_matchAll text) as Htok.
  destruct (TeacherPortal.matchAll text) as [|[m0 x'] ms]; cbn [fmap list_fmap] in Htok.
  - inversion Htok as [? Hnone|]; subst. destruct Hfirst as [Ht _].
    by destruct (Hnone g x rest).
  - inversion Htok as [|? g' x'' rest' xs Hfirst' _]; subst. cbn [snd] in *.
    destruct (firstToken_unique _ _ _ _ _ _ _ Hfirst Hfirst') as [-> _].
    by exists m0.
Qed.

Lemma firstMatch_None text :
  (∀ g x rest, ¬ tokenAt text g x rest) → firstMatch text = None.
Proof.
  intros Hnone. unfold firstMatch.
  pose proof (tokens_matchAll text) as Htok.
  destruct (TeacherPortal.matchAll text) as [|[m0 x'] ms]; [done|].
  cbn [fmap list_fmap] in Htok.
  inversion Htok as [|? g' x'' rest' xs [Ht _] _]; subst.
  by destruct (Hnone _ _ _ Ht).
Qed.

End Builder.

(** X19.  A sentence added to a FILL_IN_BLANKS group gets as its key the
    text between the first pair of brackets on one line, and a student who
    gives that text is graded correct.  A sentence without such brackets,
    or with nothing between them, is refused with a message and the form
    stays as it is. *)
Theorem handleAddQuestionToGroup_fill_in_blanks (now : string)
    (groupIndex : nat) (s : QuestionBuilder.State) (group : QuestionGroup.t) :
  QuestionBuilder.tempQuestionGroups s !! groupIndex = Some group →
  QuestionGroup.type group = "FILL_IN_BLANKS" →
  QuestionBuilder.tempQuestionText s ≠ "" →
  let text := QuestionBuilder.tempQuestionText s in
  (∀ g x rest, NotesSpec.firstToken text g x rest → x ≠ "" →
     let q := Question.mk ("q_" +:+ now) text "FILL_IN_BLANKS" None (Some x) None in
     ∃ s', QuestionBuilder.handleAddQuestionToGroup now groupIndex s = Some ([], s')
       ∧ QuestionBuilder.tempQuestionGroups s'
         = <[groupIndex :=
               QuestionBuilder.withQuestions (QuestionGroup.questions group ++ [q])
                 group]> (QuestionBuilder.tempQuestionGroups s)
       ∧ QuestionBuilder.tempQuestionText s' = ""
       ∧ ∀ answers, answers !! Question.id q = Some x →
           QuestionResult.isCorrect (StudentPortal.gradeQuestion answers q) = true)
  ∧ ((∀ g x rest, ¬ NotesSpec.tokenAt text g x rest)
     ∨ (∃ g rest, NotesSpec.firstToken text g "" rest) →
     ∃ message,
       QuestionBuilder.handleAddQuestionToGroup now groupIndex s
       = Some ([TeacherPortal.alert message], s)).
Proof.
  intros Hgroup Htype Htext text.
  assert (Js.truthy (Some text) = true) as Htruthy.
  { cbn. apply negb_true_iff. by apply String.eqb_neq. }
  unfold QuestionBuilder.handleAddQuestionToGroup. fold text.
  rewrite Htruthy, Hgroup, Htype. cbn [negb].
  change (String.eqb "FILL_IN_BLANKS" "FILL_IN_BLANKS") with true.
  change (String.eqb "FILL_IN_BLANKS" "MCQ") with false. cbv zeta.
  split.
  - intros g x rest Hfirst Hx.
    destruct (firstMatch_firstToken text g x rest Hfirst) as [m0 ->].
    assert (Js.truthy (Some x) = true) as Hxt.
    { cbn. apply negb_true_iff. by apply String.eqb_neq. }
    rewrite Hxt. cbv iota. rewrite Hxt. eexists. split_and!; [reflexivity|done|done|].
    intros answers Hans. unfold StudentPortal.gradeQuestion.
    cbn [QuestionResult.isCorrect]. unfold StudentPortal.compareAnswers.
    unfold StudentPortal.isMultiSelect. cbn [Question.type].
    change (String.eqb "FILL_IN_BLANKS" "MCQ") with false.
    change (String.eqb "FILL_IN_BLANKS" "FILL_IN_BLANKS") with true.
    cbn [andb orb]. unfold StudentPortal.studentAnsOf, StudentPortal.correctAnsOf.
    rewrite Hans. cbn [Question.correctAnswer Js.orEmpty default].
    apply String.eqb_refl.
  - intros [Hnone|(g & rest & Hfirst)].
    + rewrite (firstMatch_None text Hnone). eauto.
    + destruct (firstMatch_firstToken text g "" rest Hfirst) as [m0 ->]. cbn. eauto.
Qed.

Lemma handleAddQuestionToGroup_fill_in_blanks_witness :
  let group := QuestionGroup.mk "qg_1" "FILL_IN_BLANKS" (Some "Questions")
                 "Complete the sentences below." None (Some []) (Some []) [] in
  let s := QuestionBuilder.Build_State [group] (Some 0)
             "The sun rises in the [east]." [] "" None 1 "" "" in
  ∃ s', QuestionBuilder.handleAddQuestionToGroup "1767225600000" 0 s = Some ([], s')
    ∧ QuestionGroup.questions <$> QuestionBuilder.tempQuestionGroups s'
      = [[Question.mk "q_1767225600000" "The sun rises in the [east]."
            "FILL_IN_BLANKS" None (Some "east") None]].
Proof.
  intros group s.
  destruct (handleAddQuestionToGroup_fill_in_blanks "1767225600000" 0 s group
              eq_refl eq_refl ltac:(discriminate)) as [H _].
  pose proof (tokens_matchAll "The sun rises in the [east].") as Htok.
  change ((λ m, m.2) <$> TeacherPortal.matchAll "The sun rises in the [east].")
    with ["east"] in Htok.
  inversion Htok as [|? g x rest xs Hfirst _]; subst.
  destruct (H g "east" rest Hfirst) as (s' & Hs' & Hgroups & _); [discriminate|].
  exists s'. split; [exact Hs'|]. rewrite Hgroups. reflexivity.
Defined.

(** ** Editing and saving an assignment *)

(** X20.  An assignment that is opened for editing and saved without a
    change is written to the store under its own identifier, with its
    title, type, description, due date and question groups, the
    NOTES_COMPLETION groups compiled afresh.  The document written
    replaces the old one: the folder becomes the folder being viewed, if
    any, and the top-level question list of an assignment from before the
    question groups is not written, so that such an assignment is left
    without questions. *)
Theorem edit_save_round_trip (now : string) (freshId : nat → nat → string)
    (s : TeacherPortal.State) (a : Assignment.t) :
  Assignment.id a ≠ "" → Assignment.title a ≠ "" → Assignment.dueDate a ≠ "" →
  Js.truthy (TeacherPortal.selectedClassId s) = true ∨ Assignment.classId a ≠ "" →
  (Assignment.type a = WRITING → Js.truthy (Assignment.writingPrompt a) = true) →
  ∃ d s' a',
    TeacherPortal.handleSaveAssignment now freshId
      (AssignmentEditor.handleEditAssignment a s)
    = ([TeacherPortal.onUpdateAssignment d], s')
    ∧ AssignmentEditor.handleUpdateAssignment d = Some (Assignment.id a, d)
    ∧ AssignmentEditor.loaded (Assignment.id a, d) = Some a'
    ∧ Assignment.id a' = Assignment.id a
    ∧ Assignment.title a' = Assignment.title a
    ∧ Assignment.type a' = Assignment.type a
    ∧ Assignment.description a' = Assignment.description a
    ∧ Assignment.dueDate a' = Assignment.dueDate a
    ∧ Assignment.questionGroups a'
      = Some (imap (λ g, TeacherPortal.processGroup (freshId g))
                (default [] (Assignment.questionGroups a)))
    ∧ Assignment.groupId a'
      = TeacherPortal.orElse (TeacherPortal.viewingGroupId s) None
    ∧ Assignment.questions a' = None
    ∧ (Assignment.questionGroups a = None → StudentPortal.allQuestions a' = []).
Proof.
  intros Hid Htitle Hdue Hclass Hprompt.
  apply String.eqb_neq in Hid, Htitle, Hdue.
  unfold TeacherPortal.handleSaveAssignment, AssignmentEditor.handleEditAssignment.
  cbn [TeacherPortal.newAssignment TeacherPortal.selectedClassId
       TeacherPortal.editingAssignmentId TeacherPortal.tempQuestionGroups
       TeacherPortal.viewingGroupId PartialAssignment.title
       PartialAssignment.dueDate PartialAssignment.classId PartialAssignment.type
       PartialAssignment.writingPrompt PartialAssignment.writingTaskType
       PartialAssignment.description PartialAssignment.timeLimit
       PartialAssignment.passageContent PartialAssignment.videoUrl
       PartialAssignment.writingImage].
  cbn [Js.truthy]. rewrite Htitle, Hdue, Hid. cbn [negb orb].
  assert (Js.truthy (TeacherPortal.orElse (TeacherPortal.selectedClassId s)
                       (Some (Assignment.classId a))) = true) as Hc.
  { unfold TeacherPortal.orElse.
    destruct (Js.truthy (TeacherPortal.selectedClassId s)) eqn:Hsel; [done|].
    destruct Hclass as [?|Hc]; [done|]. cbn. apply negb_true_iff.
    by apply String.eqb_neq. }
  rewrite Hc. cbn [negb].
  assert (bool_decide (Some (Assignment.type a) = Some WRITING)
          && negb (Js.truthy (Assignment.writingPrompt a)) = false) as ->.
  { case_bool_decide as Hw; [|done]. injection Hw as Hw.
    by rewrite (Hprompt Hw). }
  assert (TeacherPortal.orElse (Some (Assignment.id a)) (Some now)
          = Some (Assignment.id a)) as Hor.
  { unfold TeacherPortal.orElse. cbn [Js.truthy]. by rewrite Hid. }
  cbv zeta. rewrite Hor. cbn [Js.orEmpty default].
  eexists _, _, _. split; [reflexivity|].
  unfold AssignmentEditor.handleUpdateAssignment, AssignmentEditor.loaded.
  cbn [AssignmentData.id AssignmentData.type fst snd Js.truthy id].
  rewrite Hid. cbn [negb].
  split_and!; try reflexivity.
  intros Hnone. unfold StudentPortal.allQuestions.
  cbn [Assignment.questionGroups AssignmentData.questionGroups].
  by rewrite Hnone.
Qed.

Lemma edit_save_round_trip_witness :
  let q := Question.mk "q1" "t1" "TRUE_FALSE_NG" None (Some "TRUE") None in
  let a := Assignment.mk "a1" "c1" None "Old quiz" READING "" "2026-01-01"
             None None None None None None None (Some [q]) in
  let s := TeacherPortal.Build_State [] (Some "c1") None false None
             PartialAssignment.reset [] in
  StudentPortal.allQuestions a = [q]
  ∧ ∃ d s' a',
      TeacherPortal.handleSaveAssignment "1767225600000" (λ _ _, "q_0")
        (AssignmentEditor.handleEditAssignment a s)
      = ([TeacherPortal.onUpdateAssignment d], s')
      ∧ AssignmentEditor.loaded (Assignment.id a, d) = Some a'
      ∧ StudentPortal.allQuestions a' = [].
Proof.
  intros q a s. split; [reflexivity|].
  destruct (edit_save_round_trip "1767225600000" (λ _ _, "q_0") s a)
    as (d & s' & a' & Hsave & _ & Hload & _ & _ & _ & _ & _ & _ & _ & _ & Hlost);
    [discriminate..| |discriminate|].
  - by left.
  - exists d, s', a'. split_and!; [exact Hsave|exact Hload|by apply Hlost].
Defined.

(** ** Saving a class *)

Lemma length_concat_imap {A B} (f : nat → A → list B) (n : nat) (l : list A) :
  (∀ k x, length (f k x) = n) → length (concat (imap f l)) = n * length l.
Proof.
  intros Hf. revert f Hf. induction l as [|x l IH]; intros f Hf; simpl; [lia|].
  rewrite length_app, Hf, (IH (f ∘ S)) by (intros; apply Hf). lia.
Qed.

Lemma Forall_concat_imap {A B} (P : B → Prop) (f : nat → A → list B) (l : list A) :
  (∀ k x, Forall P (f k x)) → Forall P (concat (imap f l)).
Proof.
  intros Hf. revert f Hf. induction l as [|x l IH]; intros f Hf; simpl; [constructor|].
  apply Forall_app. split; [apply Hf|]. apply (IH (f ∘ S)). intros; apply Hf.
Qed.



(** ** Deleting a class *)

Section DeleteClassProofs.
Import Store DeleteClass.
#[local] Set Warnings "-clear-no-such-hyp".

Lemma commit_app ws1 ws2 st : commit (ws1 ++ ws2) st = commit ws2 (commit ws1 st).
Proof. apply foldl_app. Qed.

Lemma filter_all {A} (P : A → Prop) `{!∀ x, Decision (P x)} (l : list A) :
  Forall P l → filter P l = l.
Proof.
  induction 1 as [|x l Hx _ IH]; [done|]. by rewrite filter_cons_True, IH.
Qed.

Lemma filter_iff_in {A} (P Q : A → Prop)
    `{!∀ x, Decision (P x), !∀ x, Decision (Q x)} (l : list A) :
  Forall (λ x, P x ↔ Q x) l → filter P l = filter Q l.
Proof.
  induction 1 as [|x l Hx _ IH]; [done|]. rewrite !filter_cons, IH.
  destruct (decide (P x)), (decide (Q x)); tauto.
Qed.

Lemma without_all {A} (getId : A → string) (ids : list string) (docs : list A) :
  foldl (λ ds i, without getId i ds) docs ids
  = filter (λ d, getId d ∉ ids) docs.
Proof.
  revert docs. induction ids as [|i ids IH]; intros docs; cbn [foldl].
  - symmetry. apply filter_all, Forall_forall. intros d _. apply not_elem_of_nil.
  - rewrite IH. unfold without. rewrite list_filter_filter.
    apply list_filter_iff. intros d. rewrite not_elem_of_cons. tauto.
Qed.

(** Two documents of a collection with the same identifier are the same
    document. *)
Lemma same_id {A} (getId : A → string) (docs : list A) d d' :
  NoDup (getId <$> docs) → d ∈ docs → d' ∈ docs → getId d = getId d' → d = d'.
Proof.
  intros Hnd [i Hi]%list_elem_of_lookup [j Hj]%list_elem_of_lookup Heq.
  assert (i = j) by (apply (NoDup_lookup _ _ _ (getId d) Hnd);
    rewrite list_lookup_fmap; [rewrite Hi|rewrite Hj]; cbn; congruence).
  congruence.
Qed.

(** Deleting the documents selected by a predicate, by their identifiers,
    leaves the documents that the predicate does not select. *)
Lemma without_selected {A} (getId : A → string) (P : A → Prop)
    `{!∀ d, Decision (P d)} (docs : list A) :
  NoDup (getId <$> docs) →
  filter (λ d, getId d ∉ getId <$> filter P docs) docs
  = filter (λ d, ¬ P d) docs.
Proof.
  intros Hnd. apply filter_iff_in, Forall_forall. intros d Hd. split.
  - intros Hnot HP. apply Hnot. apply list_elem_of_fmap. exists d.
    split; [done|]. by apply list_elem_of_filter.
  - intros HnP (d' & Heq & [HP' Hd']%list_elem_of_filter)%list_elem_of_fmap.
    by rewrite (same_id getId docs d d' Hnd Hd Hd' Heq) in HnP.
Qed.

Lemma commit_delete_classes ids st :
  commit (delete Classes <$> ids) st
  = mk (foldl (λ ds i, without ClassGroup.id i ds) (classes st) ids) (events st)
      (sessions st) (materials st) (assignments st) (assignmentGroups st)
      (submissions st) (users st).
Proof.
  revert st. induction ids as [|i ids IH]; intros st; [by destruct st|].
  unfold commit in *. cbn [fmap list_fmap foldl]. by rewrite IH.
Qed.

Lemma commit_delete_events ids st :
  commit (delete Events <$> ids) st
  = mk (classes st) (foldl (λ ds i, without CalendarEvent.id i ds) (events st) ids)
      (sessions st) (materials st) (assignments st) (assignmentGroups st)
      (submissions st) (users st).
Proof.
  revert st. induction ids as [|i ids IH]; intros st; [by destruct st|].
  unfold commit in *. cbn [fmap list_fmap foldl]. by rewrite IH.
Qed.

Lemma commit_delete_sessions ids st :
  commit (delete Sessions <$> ids) st
  = mk (classes st) (events st)
      (foldl (λ ds i, without Session.id i ds) (sessions st) ids)
      (materials st) (assignments st) (assignmentGroups st)
      (submissions st) (users st).
Proof.
  revert st. induction ids as [|i ids IH]; intros st; [by destruct st|].
  unfold commit in *. cbn [fmap list_fmap foldl]. by rewrite IH.
Qed.

Lemma commit_delete_materials ids st :
  commit (delete Materials <$> ids) st
  = mk (classes st) (events st) (sessions st)
      (foldl (λ ds i, without Material.id i ds) (materials st) ids)
      (assignments st) (assignmentGroups st) (submissions st) (users st).
Proof.
  revert st. induction ids as [|i ids IH]; intros st; [by destruct st|].
  unfold commit in *. cbn [fmap list_fmap foldl]. by rewrite IH.
Qed.

Lemma commit_delete_assignments ids st :
  commit (delete Assignments <$> ids) st
  = mk (classes st) (events st) (sessions st) (materials st)
      (foldl (λ ds i, without Assignment.id i ds) (assignments st) ids)
      (assignmentGroups st) (submissions st) (users st).
Proof.
  revert st. induction ids as [|i ids IH]; intros st; [by destruct st|].
  unfold commit in *. cbn [fmap list_fmap foldl]. by rewrite IH.
Qed.

Lemma commit_delete_assignmentGroups ids st :
  commit (delete AssignmentGroups <$> ids) st
  = mk (classes st) (events st) (sessions st) (materials st) (assignments st)
      (foldl (λ ds i, without AssignmentGroup.id i ds) (assignmentGroups st) ids)
      (submissions st) (users st).
Proof.
  revert st. induction ids as [|i ids IH]; intros st; [by destruct st|].
  unfold commit in *. cbn [fmap list_fmap foldl]. by rewrite IH.
Qed.

Lemma commit_delete_submissions ids st :
  commit (delete Submissions <$> ids) st
  = mk (classes st) (events st) (sessions st) (materials st) (assignments st)
      (assignmentGroups st)
      (foldl (λ ds i, without Submission.id i ds) (submissions st) ids)
      (users st).
Proof.
  revert st. induction ids as [|i ids IH]; intros st; [by destruct st|].
  unfold commit in *. cbn [fmap list_fmap foldl]. by rewrite IH.
Qed.

Lemma commit_updateEnrolled {A} (g : A → string) (h : A → list string)
    (us : list A) st :
  commit ((λ u, updateEnrolled (g u) (h u)) <$> us) st
  = mk (classes st) (events st) (sessions st) (materials st) (assignments st)
      (assignmentGroups st) (submissions st)
      (foldl (λ ds u, UserStore.updated u ds) (users st)
         ((λ u, (g u, h u)) <$> us)).
Proof.
  revert st. induction us as [|u us IH]; intros st; [by destruct st|].
  unfold commit in *. cbn [fmap list_fmap foldl]. by rewrite IH.
Qed.

Lemma updated_all (us : list (string * list string)) (docs : list User.t) :
  foldl (λ ds u, UserStore.updated u ds) docs us
  = (λ s, foldl (λ s u, if decide (User.id s = u.1)
                        then User.mk (User.id s) (User.name s) (Some u.2)
                        else s) s us) <$> docs.
Proof.
  revert docs. induction us as [|u us IH]; intros docs; cbn [foldl].
  - by rewrite list_fmap_id.
  - rewrite IH. unfold UserStore.updated. by rewrite <- list_fmap_compose.
Qed.

Lemma updated_one (f : User.t → list string) (docs sel : list User.t) s :
  NoDup (User.id <$> docs) → s ∈ docs → sel ⊆ docs →
  ∀ cur, User.id cur = User.id s → User.name cur = User.name s →
    let r := foldl (λ s u, if decide (User.id s = u.1)
                           then User.mk (User.id s) (User.name s) (Some u.2)
                           else s) cur ((λ u, (User.id u, f u)) <$> sel) in
    ((s ∈ sel) ∧ (r = User.mk (User.id s) (User.name s) (Some (f s))))
    ∨ ((s ∉ sel) ∧ (r = cur)).
Proof.
  intros Hnd Hs. induction sel as [|u sel IH]; intros Hsub cur Hid Hname.
  - right. split; [apply not_elem_of_nil|done].
  - cbn [fmap list_fmap foldl fst snd].
    assert (Hu : u ∈ docs) by (apply Hsub; left).
    assert (Hsub' : sel ⊆ docs) by (intros x Hx; apply Hsub; by right).
    case_decide as Hc.
    + assert (Hus : u = s)
        by (apply (same_id User.id docs); [done..|congruence]).
      subst u.
      left. split; [left|].
      destruct (IH Hsub' (User.mk (User.id cur) (User.name cur) (Some (f s))))
        as [[_ ->]|[_ ->]]; cbn; congruence.
    + destruct (IH Hsub' cur Hid Hname) as [[Hin Hr]|[Hout Hr]].
      * left. split; [by right|done].
      * right. split; [|done]. rewrite not_elem_of_cons. split; [|done].
        intros ->. congruence.
Qed.


(** X22.  Deleting a class cascades.  When the documents of every
    collection carry distinct identifiers, every material belongs to a
    session and every submission to an assignment, and the state of the
    application is that of the store, the committed batch of
    [handleDeleteClass] removes exactly the class, its events, sessions,
    assignments and folders, the materials of its sessions and the
    submissions to its assignments; it takes the class out of
    [enrolledClassIds] of every student and leaves the other documents as they
    were; and afterwards every material still belongs to a session and every
    submission to an assignment. *)
Theorem handleDeleteClass_cascade (classId : string) (st : Store.t) :
  distinctIds st → linked st →
  let st' := deleted classId st in
  let classSessions := filter (λ x, Session.classId x = classId) (sessions st) in
  let classAssignments :=
    filter (λ a, Assignment.classId a = classId) (assignments st) in
  classes st' = filter (λ c, ClassGroup.id c ≠ classId) (classes st)
  ∧ events st' = filter (λ e, CalendarEvent.classId e ≠ classId) (events st)
  ∧ sessions st' = filter (λ x, Session.classId x ≠ classId) (sessions st)
  ∧ assignments st' = filter (λ a, Assignment.classId a ≠ classId) (assignments st)
  ∧ assignmentGroups st'
    = filter (λ g, AssignmentGroup.classId g ≠ classId) (assignmentGroups st)
  ∧ materials st'
    = filter (λ m, Material.sessionId m ∉ Session.id <$> classSessions)
        (materials st)
  ∧ submissions st'
    = filter (λ x, Submission.assignmentId x ∉ Assignment.id <$> classAssignments)
        (submissions st)
  ∧ users st'
    = (λ u, User.mk (User.id u) (User.name u)
              (filter (λ id, id ≠ classId) <$> User.enrolledClassIds u))
      <$> users st
  ∧ linked st'.
Proof.
  intros (Hev & Hse & Hma & Has & Hgr & Hsu & Hus) [Hlm Hls] st' cs ca.
  assert (Hst' : st' =
    mk (filter (λ c, ClassGroup.id c ≠ classId) (classes st))
       (filter (λ e, CalendarEvent.classId e ≠ classId) (events st))
       (filter (λ x, Session.classId x ≠ classId) (sessions st))
       (filter (λ m, Material.sessionId m ∉ Session.id <$> cs) (materials st))
       (filter (λ a, Assignment.classId a ≠ classId) (assignments st))
       (filter (λ g, AssignmentGroup.classId g ≠ classId) (assignmentGroups st))
       (filter (λ x, Submission.assignmentId x ∉ Assignment.id <$> ca)
          (submissions st))
       ((λ u, User.mk (User.id u) (User.name u)
                (filter (λ id, id ≠ classId) <$> User.enrolledClassIds u))
        <$> users st)).
  { subst st'. unfold deleted, handleDeleteClass.
    rewrite !commit_app.
    change [delete Classes classId] with (delete Classes <$> [classId]).
    rewrite !(list_fmap_compose _ (delete _)).
    rewrite commit_delete_classes.
    rewrite commit_delete_events; cbn [classes events sessions materials
      assignments assignmentGroups submissions users].
    rewrite commit_delete_sessions; cbn [classes events sessions materials
      assignments assignmentGroups submissions users].
    rewrite commit_delete_materials; cbn [classes events sessions materials
      assignments assignmentGroups submissions users].
    rewrite commit_delete_assignments; cbn [classes events sessions materials
      assignments assignmentGroups submissions users].
    rewrite commit_delete_assignmentGroups; cbn [classes events sessions
      materials assignments assignmentGroups submissions users].
    rewrite commit_delete_submissions; cbn [classes events sessions materials
      assignments assignmentGroups submissions users].
    rewrite commit_updateEnrolled; cbn [classes events sessions materials
      assignments assignmentGroups submissions users].
    rewrite !without_all, updated_all.
    f_equal.
    - apply list_filter_iff. intros c. rewrite list_elem_of_singleton. tauto.
    - rewrite (without_selected CalendarEvent.id _ _ Hev).
      apply list_filter_iff. intros e.
      destruct (decide (CalendarEvent.classId e = classId)); tauto.
    - rewrite (without_selected Session.id _ _ Hse).
      apply list_filter_iff. intros e.
      destruct (decide (Session.classId e = classId)); tauto.
    - rewrite (without_selected Material.id _ _ Hma).
      apply list_filter_iff. intros m. fold cs.
      rewrite <- includes_elem_of.
      destruct (Js.includes _ _); split; congruence.
    - rewrite (without_selected Assignment.id _ _ Has).
      apply list_filter_iff. intros e.
      destruct (decide (Assignment.classId e = classId)); tauto.
    - rewrite (without_selected AssignmentGroup.id _ _ Hgr).
      apply list_filter_iff. intros e.
      destruct (decide (AssignmentGroup.classId e = classId)); tauto.
    - rewrite (without_selected Submission.id _ _ Hsu).
      apply list_filter_iff. intros m. fold ca.
      rewrite <- includes_elem_of.
      destruct (Js.includes _ _); split; congruence.
    - apply list_eq_Forall2, Forall2_fmap, Forall2_same_length_lookup.
      split; [done|]. intros i u u' Hu Hu'. rewrite Hu in Hu'.
      injection Hu' as <-.
      assert (Hin : u ∈ users st) by (by apply list_elem_of_lookup; exists i).
      destruct (updated_one
        (λ u, match User.enrolledClassIds u with
              | Some ids => filter (λ id, id ≠ classId) ids
              | None => []
              end) (users st)
        (filter (λ u, StudentViews.isEnrolled u classId = true) (users st))
        u Hus Hin) with (cur := u) as [[Hsel Hr]|[Hsel Hr]];
        [intros x [_ Hx]%list_elem_of_filter; exact Hx|done|done|..];
        cbv zeta in Hr; rewrite Hr.
      + apply list_elem_of_filter in Hsel as [Hen _].
        unfold StudentViews.isEnrolled in Hen.
        by destruct (User.enrolledClassIds u).
      + assert (Hen : StudentViews.isEnrolled u classId = false).
        { destruct (StudentViews.isEnrolled u classId) eqn:E; [|done].
          destruct Hsel. by apply list_elem_of_filter. }
        unfold StudentViews.isEnrolled in Hen. destruct u as [i' n' [ids|]];
          cbn in *; [|done].
        do 2 f_equal. symmetry. apply filter_all, Forall_forall.
        intros x Hx ->. apply includes_elem_of in Hx. congruence. }
  rewrite Hst'.
  cbn [classes events sessions materials assignments assignmentGroups
       submissions users].
  do 8 (split; [reflexivity|]).
  unfold linked.
  cbn [classes events sessions materials assignments assignmentGroups
       submissions users].
  split; apply Forall_forall.
  - intros m [Hm Hin]%list_elem_of_filter.
    rewrite Forall_forall in Hlm.
    apply Hlm, list_elem_of_fmap in Hin as (x & Hx & Hxin).
    apply list_elem_of_fmap. exists x. split; [done|].
    apply list_elem_of_filter. split; [|done]. intros Hc. apply Hm.
    apply list_elem_of_fmap. exists x. split; [done|].
    by apply list_elem_of_filter.
  - intros m [Hm Hin]%list_elem_of_filter.
    rewrite Forall_forall in Hls.
    apply Hls, list_elem_of_fmap in Hin as (x & Hx & Hxin).
    apply list_elem_of_fmap. exists x. split; [done|].
    apply list_elem_of_filter. split; [|done]. intros Hc. apply Hm.
    apply list_elem_of_fmap. exists x. split; [done|].
    by apply list_elem_of_filter.
Qed.

Lemma handleDeleteClass_cascade_witness :
  let st :=
    Store.mk
      [ClassGroup.mk "c1" "IELTS A" "Mon 18:00-19:30" None;
       ClassGroup.mk "c2" "IELTS B" "Tue 18:00-19:30" None]
      [CalendarEvent.mk "e1" "c1" "IELTS A (Class)" "2026-01-05" (Some "18:00") (Some "19:30")
         CalendarEvent.CLASS;
       CalendarEvent.mk "e2" "c2" "IELTS B (Class)" "2026-01-06" (Some "18:00") (Some "19:30")
         CalendarEvent.CLASS]
      [Session.mk "s1" "c1" "Week 1" None; Session.mk "s2" "c2" "Week 1" None]
      [Material.mk "m1" "s1" "Slides" "PDF" "https://example.org/a";
       Material.mk "m2" "s2" "Slides" "PDF" "https://example.org/b"]
      [Assignment.mk "a1" "c1" None "Passage 1" READING "" "2026-01-01"
         None None None None None None None None;
       Assignment.mk "a2" "c2" None "Passage 2" READING "" "2026-01-01"
         None None None None None None None None]
      [AssignmentGroup.mk "g1" "c1" "Week 1" None "2026-01-01" (Some 0%Z)]
      [Submission.mk "x1" "a1" "u1" "Ann" ∅ SUBMITTED None None None None None;
       Submission.mk "x2" "a2" "u1" "Ann" ∅ SUBMITTED None None None None None]
      [User.mk "u1" "Ann" (Some ["c1"; "c2"]); User.mk "u2" "Bob" None] in
  distinctIds st ∧ linked st
  ∧ Material.id <$> materials (deleted "c1" st) = ["m2"]
  ∧ Submission.id <$> submissions (deleted "c1" st) = ["x2"]
  ∧ User.enrolledClassIds <$> users (deleted "c1" st) = [Some ["c2"]; None]
  ∧ linked (deleted "c1" st).
Proof.
  intros st.
  assert (Hd : distinctIds st)
    by (repeat split; apply (bool_decide_unpack _); vm_compute; exact I).
  assert (Hl : linked st)
    by (split; apply (bool_decide_unpack _); vm_compute; exact I).
  destruct (handleDeleteClass_cascade "c1" st Hd Hl)
    as (_ & _ & _ & _ & _ & Hm & Hs & Hu & Hlinked).
  split; [exact Hd|]. split; [exact Hl|].
  rewrite Hm, Hs, Hu.
  split; [vm_compute; reflexivity|]. split; [vm_compute; reflexivity|].
  split; [vm_compute; reflexivity|exact Hlinked].
Defined.

End DeleteClassProofs.

(** ** Rendering a notes-completion group *)

Section RendererProofs.
Import TeacherPortal NotesCompletionRenderer.
Context (questions : list Question.t) (startGlobalIndex : nat)
        (answers : gmap string string).

#[local] Abbreviation execLoop' := (execLoop questions startGlobalIndex answers).
#[local] Abbreviation renderFrom' := (renderFrom questions startGlobalIndex answers).
#[local] Abbreviation input' := (input startGlobalIndex answers).

Lemma execLoop_skip x c r between qIndex :
  execLoop' (S (String.length x)) between (x +:+ String c r) qIndex
  = execLoop' 0 between r qIndex.
Proof. induction x as [|d x IH]; simpl; [done|]. exact IH. Qed.

(** The loop, one character at a time. *)
Lemma execLoop_cons c s between qIndex :
  execLoop' 0 between (String c s) qIndex
  = if Ascii.eqb c "[" then
      match closeBracket s with
      | Some (x, r) =>
          let '(node, qIndex') :=
            replacement questions startGlobalIndex answers qIndex
              ("[" +:+ x +:+ "]") in
          let '(fragment, qIndex'') := execLoop' 0 "" r qIndex' in
          (textBetween between ++ node :: fragment, qIndex'')
      | None => execLoop' 0 (between +:+ String c "") s qIndex
      end
    else execLoop' 0 (between +:+ String c "") s qIndex.
Proof.
  simpl. destruct (Ascii.eqb c "["); [|done].
  destruct (closeBracket s) as [[x r]|] eqn:Hcb; [|done].
  apply closeBracket_Some in Hcb as [-> _].
  destruct (replacement _ _ _ _ _) as [node qIndex'].
  by rewrite execLoop_skip.
Qed.

Lemma append_token between x r t :
  between +:+ ("[" +:+ x +:+ "]") +:+ "" +:+ r +:+ t
  = between +:+ String "[" (x +:+ String "]" r) +:+ t.
Proof.
  f_equal.
  change (String "[" ((x +:+ "]") +:+ r +:+ t)
          = String "[" ((x +:+ String "]" r) +:+ t)).
  f_equal. by rewrite !append_assoc.
Qed.

Lemma inputs_textBetween between : inputs (textBetween between) = [].
Proof. by destruct between. Qed.

Lemma restore_textBetween ms between nodes :
  restore ms (textBetween between ++ nodes) = between +:+ restore ms nodes.
Proof. by destruct between. Qed.

#[local] Abbreviation served := (NotesCompletionRenderer.served questions).

Lemma served_S q qIndex n :
  questions !! qIndex = Some q →
  served qIndex (S n) = q :: served (S qIndex) n.
Proof.
  intros Hq. unfold served. by rewrite (drop_S _ _ _ Hq), firstn_cons.
Qed.

Lemma served_None qIndex n : questions !! qIndex = None → served qIndex n = [].
Proof.
  intros Hq. unfold served. apply lookup_ge_None in Hq.
  by rewrite drop_ge, take_nil.
Qed.

Lemma execLoop_bounded n : ∀ s between qIndex,
  String.length s ≤ n →
  let ms := matchAll s in
  let r := execLoop' 0 between s qIndex in
  inputs r.1 = imap (λ i, input' (qIndex + i)) (served qIndex (length ms))
  ∧ r.2 = qIndex + length (served qIndex (length ms))
  ∧ ∀ extra rest,
      restore (take (length (served qIndex (length ms))) (fst <$> ms) ++ extra)
        (r.1 ++ rest)
      = between +:+ s +:+ restore extra rest.
Proof.
  induction n as [|n IH]; intros s between qIndex Hlen.
  { destruct s; [|simpl in Hlen; lia].
    unfold NotesCompletionRenderer.served. cbn. rewrite ?take_0. cbn.
    split; [|split].
    - by rewrite inputs_textBetween.
    - lia.
    - intros. by rewrite restore_textBetween. }
  destruct s as [|c s].
  { unfold NotesCompletionRenderer.served. cbn. rewrite ?take_0. cbn.
    split; [|split].
    - by rewrite inputs_textBetween.
    - lia.
    - intros. by rewrite restore_textBetween. }
  simpl in Hlen. cbv zeta. rewrite execLoop_cons, matchAll_cons.
  destruct (Ascii.eqb c "[") eqn:Hc.
  - destruct (closeBracket s) as [[x r]|] eqn:Hcb.
    + apply Ascii.eqb_eq in Hc as ->.
      apply closeBracket_Some in Hcb as [-> _].
      rewrite string_length_append in Hlen. simpl in Hlen.
      unfold replacement.
      destruct (questions !! qIndex) as [q|] eqn:Hq.
      * destruct (IH r "" (S qIndex) ltac:(lia)) as (Hin & Hq' & Hre).
        destruct (execLoop' 0 "" r (S qIndex)) as [fragment q''].
        cbn [fst snd length] in *.
        rewrite (served_S q) by done. cbn [length imap].
        split; [|split].
        -- unfold inputs in *. rewrite filter_app.
           fold (inputs (textBetween between)).
           rewrite inputs_textBetween, filter_cons_True by done.
           cbn [app]. rewrite Hin, Nat.add_0_r. f_equal.
           apply imap_ext. intros i y _. cbn. f_equal. lia.
        -- lia.
        -- intros extra rest. rewrite <- app_assoc, restore_textBetween.
           rewrite fmap_cons. cbn [take app restore fst].
           rewrite Hre. cbn. apply append_token.
      * destruct (IH r "" qIndex ltac:(lia)) as (Hin & Hq' & Hre).
        destruct (execLoop' 0 "" r qIndex) as [fragment q''].
        cbn [fst snd length] in *.
        rewrite !served_None in * by done. cbn [length imap take] in *.
        split; [|split].
        -- unfold inputs in *. rewrite filter_app.
           fold (inputs (textBetween between)).
           rewrite inputs_textBetween, filter_cons_False by done.
           by rewrite Hin.
        -- lia.
        -- intros extra rest. specialize (Hre extra rest).
           rewrite take_0 in Hre |- *.
           rewrite <- app_assoc, restore_textBetween.
           cbn [app restore] in Hre |- *. rewrite Hre. cbn.
           apply append_token.
    + destruct (IH s (between +:+ String c "") qIndex ltac:(lia))
        as (Hin & Hq' & Hre).
      split; [done|]. split; [done|]. intros extra rest.
      rewrite Hre. by rewrite append_assoc.
  - destruct (IH s (between +:+ String c "") qIndex ltac:(lia))
      as (Hin & Hq' & Hre).
    split; [done|]. split; [done|]. intros extra rest.
    rewrite Hre. by rewrite append_assoc.
Qed.

Lemma execLoop_spec s between qIndex :
  let ms := matchAll s in
  let r := execLoop' 0 between s qIndex in
  inputs r.1 = imap (λ i, input' (qIndex + i)) (served qIndex (length ms))
  ∧ r.2 = qIndex + length (served qIndex (length ms))
  ∧ ∀ extra rest,
      restore (take (length (served qIndex (length ms))) (fst <$> ms) ++ extra)
        (r.1 ++ rest)
      = between +:+ s +:+ restore extra rest.
Proof. by apply (execLoop_bounded (String.length s)). Qed.

Lemma served_add qIndex a b :
  served qIndex (a + b)
  = served qIndex a ++ served (qIndex + length (served qIndex a)) b.
Proof.
  unfold NotesCompletionRenderer.served.
  rewrite <- take_take_drop, drop_drop. f_equal.
  destruct (decide (a ≤ length (drop qIndex questions))) as [Hle|Hgt].
  - by rewrite length_take_le.
  - rewrite length_take_ge by lia. rewrite length_drop in *.
    rewrite !(drop_ge questions) by lia. by rewrite !take_nil.
Qed.

Lemma served_exhausted qIndex a b :
  length (served qIndex a) < a →
  served (qIndex + length (served qIndex a)) b = [].
Proof.
  unfold NotesCompletionRenderer.served. rewrite length_take, length_drop.
  intros Hlt. rewrite drop_ge by lia. apply take_nil.
Qed.

Lemma served_length qIndex a : length (served qIndex a) ≤ a.
Proof. unfold NotesCompletionRenderer.served. rewrite length_take. lia. Qed.

Lemma renderFrom_spec textNodes : ∀ qIndex,
  let ms := textNodes ≫= matchAll in
  inputs (renderFrom' qIndex textNodes)
  = imap (λ i, input' (qIndex + i)) (served qIndex (length ms))
  ∧ ∀ extra,
      restore (take (length (served qIndex (length ms))) (fst <$> ms) ++ extra)
        (renderFrom' qIndex textNodes)
      = textContent textNodes.
Proof.
  induction textNodes as [|text textNodes IH]; intros qIndex; cbv zeta.
  { unfold NotesCompletionRenderer.served. cbn. by rewrite take_0. }
  rewrite bind_cons. cbn [renderFrom]. unfold hasMatch.
  destruct (IH qIndex) as [Hin Hre].
  destruct (matchAll text) as [|m ms] eqn:Hms.
  { cbn [app]. split.
    - unfold inputs in *. by rewrite filter_cons_False.
    - intros extra. cbn [restore textContent foldr]. by rewrite Hre. }
  rewrite <- Hms. clear Hin Hre.
  destruct (execLoop_spec text "" qIndex) as (Hin & Hq & Hre).
  destruct (execLoop' 0 "" text qIndex) as [fragment qIndex'].
  cbn [fst snd] in *. subst qIndex'.
  destruct (IH (qIndex + length (served qIndex (length (matchAll text)))))
    as [Hin' Hre'].
  rewrite length_app, served_add. split.
  - unfold inputs in *. rewrite filter_app, Hin, Hin', imap_app.
    f_equal. apply imap_ext. intros i q _. cbn. f_equal. lia.
  - intros extra. rewrite length_app.
    pose proof (served_length qIndex (length (matchAll text))) as Hle.
    assert (Htake :
      take (length (served qIndex (length (matchAll text)))
            + length (served
                (qIndex + length (served qIndex (length (matchAll text))))
                (length (textNodes ≫= matchAll))))
        (fst <$> (matchAll text ++ textNodes ≫= matchAll))
      = take (length (served qIndex (length (matchAll text))))
          (fst <$> matchAll text)
        ++ take (length (served
                   (qIndex + length (served qIndex (length (matchAll text))))
                   (length (textNodes ≫= matchAll))))
             (fst <$> textNodes ≫= matchAll)).
    { rewrite fmap_app.
      destruct (decide (length (served qIndex (length (matchAll text)))
                        = length (matchAll text))) as [Heq|Hne].
      - rewrite Heq. rewrite take_app_add' by (by rewrite length_fmap).
        f_equal. rewrite take_ge; [done|]. by rewrite length_fmap.
      - rewrite served_exhausted by lia. cbn [length].
        rewrite Nat.add_0_r, take_0, app_nil_r.
        apply take_app_le. rewrite length_fmap. lia. }
    rewrite Htake, <- app_assoc, Hre, Hre'. done.
Qed.

Lemma generatedQuestions_text mkId content :
  Question.text <$> generatedQuestions mkId content = fst <$> matchAll content.
Proof.
  unfold generatedQuestions. generalize (matchAll content) as l.
  revert mkId. intros mkId l. revert mkId.
  induction l as [|m l IH]; intros mkId; [done|].
  cbn [imap fmap list_fmap]. f_equal. apply (IH (mkId ∘ S)).
Qed.

End RendererProofs.

(** X23.  [NotesCompletionRenderer] gives the questions their inputs in
    order.  When the text nodes of the content hold [n] matches of the
    bracket pattern in all, the rendered container holds one input for each
    of the first [n] questions and no other: the [i]-th input is that of
    [questions[i]], is numbered [startGlobalIndex + i + 1] and shows the
    stored answer or the empty string.  Matches beyond the last question
    stay as text, and putting the matched texts back in place of the inputs
    gives the text of the content. *)
Theorem render_inputs_in_order (questions : list Question.t)
    (startGlobalIndex : nat) (answers : gmap string string)
    (textNodes : list string) :
  let ms := textNodes ≫= TeacherPortal.matchAll in
  let nodes :=
    NotesCompletionRenderer.render questions startGlobalIndex answers textNodes in
  NotesCompletionRenderer.inputs nodes
  = imap (λ i q, NotesCompletionRenderer.wrapper (startGlobalIndex + i)
                   (Question.id q) (Js.orEmpty (answers !! Question.id q)))
      (take (length ms) questions)
  ∧ NotesCompletionRenderer.restore (fst <$> ms) nodes
    = NotesCompletionRenderer.textContent textNodes.
Proof.
  intros ms nodes.
  destruct (renderFrom_spec questions startGlobalIndex answers textNodes 0)
    as [Hin Hre].
  split.
  - exact Hin.
  - specialize (Hre (drop (length (NotesCompletionRenderer.served questions 0
                                     (length ms))) (fst <$> ms))).
    by rewrite take_drop in Hre.
Qed.

(** X24.  The renderer and the compiler agree on a content whose tokens
    all lie inside text nodes.  When the matches found in the text nodes
    are those the compiler found in the content, every question compiled
    from the content gets exactly one input, in order, and each input
    stands where the token of its question stood: putting the texts of
    the questions back in place of the inputs gives the text of the
    content. *)
Theorem render_compiled_notes (mkId : nat → string) (content : string)
    (startGlobalIndex : nat) (answers : gmap string string)
    (textNodes : list string) :
  textNodes ≫= TeacherPortal.matchAll = TeacherPortal.matchAll content →
  let questions := TeacherPortal.generatedQuestions mkId content in
  let nodes :=
    NotesCompletionRenderer.render questions startGlobalIndex answers textNodes in
  NotesCompletionRenderer.inputs nodes
  = imap (λ i q, NotesCompletionRenderer.wrapper (startGlobalIndex + i)
                   (Question.id q) (Js.orEmpty (answers !! Question.id q)))
      questions
  ∧ NotesCompletionRenderer.restore (Question.text <$> questions) nodes
    = NotesCompletionRenderer.textContent textNodes.
Proof.
  intros Hms questions nodes.
  destruct (renderFrom_spec questions startGlobalIndex answers textNodes 0)
    as [Hin Hre].
  assert (Hlen : length (textNodes ≫= TeacherPortal.matchAll) = length questions).
  { rewrite Hms. unfold questions, TeacherPortal.generatedQuestions.
    by rewrite length_imap. }
  assert (Hall : NotesCompletionRenderer.served questions 0
                   (length (textNodes ≫= TeacherPortal.matchAll)) = questions).
  { unfold NotesCompletionRenderer.served. rewrite Hlen. apply take_ge.
    by cbn. }
  rewrite Hall in Hin, Hre. split; [exact Hin|].
  specialize (Hre []). rewrite app_nil_r, Hms in Hre.
  rewrite <- (generatedQuestions_text mkId) in Hre. fold questions in Hre.
  rewrite take_ge in Hre by (by rewrite length_fmap). exact Hre.
Qed.

Lemma render_compiled_notes_witness :
  let content := "<p>The sun rises in the [east].</p><p>It sets in the [west].</p>" in
  let textNodes := ["The sun rises in the [east]."; "It sets in the [west]."] in
  let questions := TeacherPortal.generatedQuestions TeacherPortal.previewId content in
  let nodes := NotesCompletionRenderer.render questions 4 ∅ textNodes in
  NotesCompletionRenderer.inputs nodes
  = [NotesCompletionRenderer.wrapper 4 "q_prev_0" "";
     NotesCompletionRenderer.wrapper 5 "q_prev_1" ""]
  ∧ NotesCompletionRenderer.restore (Question.text <$> questions) nodes
    = "The sun rises in the [east].It sets in the [west].".
Proof.
  intros content textNodes questions nodes.
  destruct (render_compiled_notes TeacherPortal.previewId content 4 ∅ textNodes)
    as [Hin Hre]; [vm_compute; reflexivity|].
  split.
  - etransitivity; [exact Hin|]. vm_compute. reflexivity.
  - etransitivity; [exact Hre|]. vm_compute. reflexivity.
Defined.

(** A token that is split by markup is compiled into a question but is
    no match in any text node: the input of its question then stands at the
    next token. *)
Example render_token_across_markup :
  let content := "[ea<b>st</b>] and [west]" in
  let textNodes := ["[ea"; "st"; "] and [west]"] in
  let questions := TeacherPortal.generatedQuestions TeacherPortal.previewId content in
  let nodes := NotesCompletionRenderer.render questions 0 ∅ textNodes in
  Question.correctAnswer <$> questions = [Some "ea<b>st</b>"; Some "west"]
  ∧ nodes = [NotesCompletionRenderer.createTextNode "[ea";
             NotesCompletionRenderer.createTextNode "st";
             NotesCompletionRenderer.createTextNode "] and ";
             NotesCompletionRenderer.wrapper 0 "q_prev_0" ""].
Proof. vm_compute. done. Qed.

(** ** The question panel of a reading assignment *)

Section ReadingPanelProofs.
Import ReadingPanel.





End ReadingPanelProofs.



(** ** Changing the schedule of a class *)

Section UpdateClassScheduleProofs.
Import Store UpdateClassSchedule.

Lemma commit_setEvent (news : list CalendarEvent.t) : ∀ st,
  NoDup (CalendarEvent.id <$> news) →
  (∀ e, e ∈ news → CalendarEvent.id e ∉ CalendarEvent.id <$> events st) →
  commit (setEvent <$> news) st
  = mk (classes st) (events st ++ news) (sessions st) (materials st)
      (assignments st) (assignmentGroups st) (submissions st) (users st).
Proof.
  induction news as [|e news IH]; intros st Hnd Hfresh.
  { destruct st. cbn. by rewrite app_nil_r. }
  rewrite fmap_cons in Hnd. apply NoDup_cons in Hnd as [He Hnd].
  unfold commit in *. cbn [fmap list_fmap foldl]. rewrite IH; [|done|].
  - cbn [apply classes events sessions materials assignments assignmentGroups
         submissions users]. f_equal.
    unfold without. rewrite filter_all.
    + by rewrite <- app_assoc.
    + apply Forall_forall. intros x Hx Heq.
      apply (Hfresh e); [left|]. rewrite <- Heq. apply list_elem_of_fmap. eauto.
  - intros x Hx. cbn [apply events]. rewrite fmap_app, elem_of_app.
    intros [Hin|Hin].
    + apply (Hfresh x); [by right|].
      apply list_elem_of_fmap in Hin as (y & -> & [_ Hy]%list_elem_of_filter).
      apply list_elem_of_fmap. eauto.
    + apply list_elem_of_singleton in Hin. apply He. rewrite <- Hin.
      apply list_elem_of_fmap. eauto.
Qed.

Lemma filter_none {A} (P : A → Prop) `{!∀ x, Decision (P x)} (l : list A) :
  Forall (λ x, ¬ P x) l → filter P l = [].
Proof.
  induction 1 as [|x l Hx _ IH]; [done|]. by rewrite filter_cons_False.
Qed.

End UpdateClassScheduleProofs.

(** X26.  Changing the schedule of a class replaces its coming class
    events only.  When the events of the store carry distinct identifiers,
    the state of the application is that of the store and the new documents
    get fresh, distinct identifiers, the committed batch of
    [handleUpdateClassSchedule] leaves in the store the events that are not
    class events of this class dated today or later (events of other
    classes, past events, exams, deadlines and holidays stay as they were),
    followed by twelve new class events per slot, all of this class and
    titled with the new name; the class document gets the new name, schedule
    and description, and no other collection changes. *)
Theorem handleUpdateClassSchedule_events
    (isoDate : Z → string) (todayIso : string) (today : nat → Z)
    (newId : nat → nat → string)
    (classId newName newScheduleString : string)
    (scheduleItems : list ScheduleSlot.t) (description : option string)
    (st : Store.t) :
  let news :=
    UpdateClassSchedule.regenerated isoDate today newId classId newName
      scheduleItems in
  let st' :=
    Store.commit
      (UpdateClassSchedule.handleUpdateClassSchedule isoDate todayIso today newId
         classId newName newScheduleString scheduleItems description
         (Store.events st)) st in
  NoDup (CalendarEvent.id <$> Store.events st) →
  NoDup (CalendarEvent.id <$> news) →
  (∀ e, e ∈ news → CalendarEvent.id e ∉ CalendarEvent.id <$> Store.events st) →
  Store.events st'
  = filter (λ e, UpdateClassSchedule.isFutureEvent todayIso classId e = false)
      (Store.events st) ++ news
  ∧ filter (λ e, CalendarEvent.classId e ≠ classId) (Store.events st')
    = filter (λ e, CalendarEvent.classId e ≠ classId) (Store.events st)
  ∧ length news = 12 * length scheduleItems
  ∧ Forall (λ e, CalendarEvent.classId e = classId
                 ∧ CalendarEvent.type e = CalendarEvent.CLASS
                 ∧ CalendarEvent.title e = newName +:+ " (Class)") news
  ∧ Store.classes st'
    = (λ c, if decide (ClassGroup.id c = classId)
            then ClassGroup.mk classId newName newScheduleString
                   (Some (Js.orEmpty description))
            else c) <$> Store.classes st
  ∧ Store.sessions st' = Store.sessions st
  ∧ Store.materials st' = Store.materials st
  ∧ Store.assignments st' = Store.assignments st
  ∧ Store.assignmentGroups st' = Store.assignmentGroups st
  ∧ Store.submissions st' = Store.submissions st
  ∧ Store.users st' = Store.users st.
Proof.
  intros news st' Hnd Hnews Hfresh.
  assert (Hall : Forall (λ e, CalendarEvent.classId e = classId
                   ∧ CalendarEvent.type e = CalendarEvent.CLASS
                   ∧ CalendarEvent.title e = newName +:+ " (Class)") news).
  { apply Forall_concat_imap. intros k slot.
    unfold UpdateClassSchedule.slotEvents. apply Forall_fmap, Forall_forall.
    by intros i _. }
  assert (Hkept :
    filter (λ e, CalendarEvent.id e ∉ CalendarEvent.id <$>
                   filter (λ e, UpdateClassSchedule.isFutureEvent todayIso
                                  classId e = true) (Store.events st))
      (Store.events st)
    = filter (λ e, UpdateClassSchedule.isFutureEvent todayIso classId e = false)
        (Store.events st)).
  { rewrite (without_selected CalendarEvent.id _ _ Hnd).
    apply list_filter_iff. intros e.
    by destruct (UpdateClassSchedule.isFutureEvent todayIso classId e). }
  assert (Hst' : st' =
    Store.mk
      ((λ c, if decide (ClassGroup.id c = classId)
             then ClassGroup.mk classId newName newScheduleString
                    (Some (Js.orEmpty description))
             else c) <$> Store.classes st)
      (filter (λ e, UpdateClassSchedule.isFutureEvent todayIso classId e = false)
         (Store.events st) ++ news)
      (Store.sessions st) (Store.materials st) (Store.assignments st)
      (Store.assignmentGroups st) (Store.submissions st) (Store.users st)).
  { subst st'. unfold UpdateClassSchedule.handleUpdateClassSchedule.
    change (?w :: ?l1 ++ ?l2) with ([w] ++ l1 ++ l2).
    rewrite !commit_app, (list_fmap_compose _ (Store.delete _)).
    change (Store.commit [?w] st) with (Store.apply w st).
    rewrite commit_delete_events.
    cbn [Store.apply Store.classes Store.events Store.sessions Store.materials
         Store.assignments Store.assignmentGroups Store.submissions Store.users].
    rewrite without_all, Hkept. fold news.
    rewrite commit_setEvent; [done|done|].
    cbn [Store.events]. intros e He Hin. apply (Hfresh e He).
    apply list_elem_of_fmap in Hin as (y & -> & [_ Hy]%list_elem_of_filter).
    apply list_elem_of_fmap. eauto. }
  rewrite Hst'.
  cbn [Store.classes Store.events Store.sessions Store.materials
       Store.assignments Store.assignmentGroups Store.submissions Store.users].
  split; [done|]. split; [|split; [|split; [done|by repeat split]]].
  - rewrite filter_app. rewrite (filter_none _ news).
    + rewrite app_nil_r, list_filter_filter. apply list_filter_iff.
      intros e. split; [tauto|].
      intros Hne. split; [done|]. unfold UpdateClassSchedule.isFutureEvent.
      destruct (String.eqb_spec (CalendarEvent.classId e) classId); done.
    + rewrite Forall_forall in Hall. apply Forall_forall.
      intros e He Hne. by destruct (Hall e He).
  - apply length_concat_imap. intros k slot.
    unfold UpdateClassSchedule.slotEvents. by rewrite length_fmap.
Qed.

Lemma handleUpdateClassSchedule_events_witness :
  let isoDate := λ d : Z, "day " +:+ pretty d in
  let newId := λ k i : nat, "new_" +:+ pretty k +:+ "_" +:+ pretty i in
  let st :=
    Store.mk
      [ClassGroup.mk "c1" "IELTS A" "Mon 18:00-19:30" None]
      [CalendarEvent.mk "e1" "c1" "IELTS A (Class)" "2026-01-05"
         (Some "18:00") (Some "19:30") CalendarEvent.CLASS;
       CalendarEvent.mk "e2" "c1" "IELTS A (Class)" "2026-03-02"
         (Some "18:00") (Some "19:30") CalendarEvent.CLASS;
       CalendarEvent.mk "e3" "c1" "Mock test" "2026-03-09" None None
         CalendarEvent.EXAM;
       CalendarEvent.mk "e4" "c2" "IELTS B (Class)" "2026-03-03"
         (Some "18:00") (Some "19:30") CalendarEvent.CLASS]
      [] [] [] [] [] [] in
  let st' :=
    Store.commit
      (UpdateClassSchedule.handleUpdateClassSchedule isoDate "2026-02-01"
         (λ _, 20485%Z) newId "c1" "IELTS A+" "Tue 18:00-19:30"
         [ScheduleSlot.mk "Tuesday" "18:00" "19:30"] None (Store.events st))
      st in
  take 4 (CalendarEvent.id <$> Store.events st') = ["e1"; "e3"; "e4"; "new_0_0"]
  ∧ length (Store.events st') = 15
  ∧ ClassGroup.name <$> Store.classes st' = ["IELTS A+"].
Proof.
  intros isoDate newId st st'.
  pose proof (handleUpdateClassSchedule_events isoDate "2026-02-01"
                (λ _, 20485%Z) newId "c1" "IELTS A+" "Tue 18:00-19:30"
                [ScheduleSlot.mk "Tuesday" "18:00" "19:30"] None st) as H.
  cbv zeta in H. destruct H as (He & _ & _ & _ & Hc & _).
  - apply (bool_decide_unpack _). vm_compute. exact I.
  - apply (bool_decide_unpack _). vm_compute. exact I.
  - apply Forall_forall. apply (bool_decide_unpack _). vm_compute. exact I.
  - fold st' in He, Hc. rewrite He, Hc. vm_compute. done.
Defined.
